(** * kiket-go-sdk: webhook authentication and Merkle audit-proof verification

    A shallow embedding of [kiket/auth.go] (VerifySignature, GenerateSignature,
    IsAuthenticationError) and of the audit client's local verifier
    (ComputeContentHash, VerifyProofLocally, normalizeHash, hashPair), together
    with the parts of the Go standard library they call: [crypto/sha256],
    [crypto/hmac], [crypto/subtle], [encoding/hex], [strconv], [bytes].

    Conventions.
    - A Go [string] is a Rocq [string] (a sequence of 8-bit characters); a Go
      [[]byte] is a [list byte]; the conversions [[]byte(s)] and [string(b)]
      are [list_byte_of_string] and [string_of_list_byte].
    - Go's fixed-width integers are [Z] with the wrap-around written out.
    - [Headers] (a Go [map[string]string]) is a [gmap string string]; indexing
      a missing key yields the empty string, as in Go.
    - The wall clock read by [time.Now().Unix()] is an explicit argument. *)

From Stdlib Require Import ZArith List Lia Bool.
From Stdlib.Strings Require Import String Ascii Byte.
From stdpp Require Import gmap strings sorting.
Import ListNotations.

Local Open Scope Z_scope.

(** ** Bytes *)

Definition byte_to_Z (b : byte) : Z := Z.of_N (Byte.to_N b).

Definition byte_of_Z (z : Z) : byte :=
  match Byte.of_N (Z.to_N (z mod 256)) with
  | Some b => b
  | None => x00
  end.

(** ** crypto/sha256 *)

Module sha256.

Definition Size : Z := 32.
Definition BlockSize : Z := 64.
Definition chunk : nat := 64.

Definition mask32 : Z := 0xFFFFFFFF.
Definition add32 (x y : Z) : Z := (x + y) mod 2 ^ 32.
(* bits.RotateLeft32(x, -n) *)
Definition rotr (n x : Z) : Z :=
  Z.lor (Z.shiftr x n) (Z.land (Z.shiftl x (32 - n)) mask32).
Definition not32 (x : Z) : Z := Z.lxor x mask32.

(* The round constants _K[0..63]: the first 32 bits of the fractional parts
   of the cube roots of the first 64 primes (FIPS 180-4, 4.2.2), which is
   what the table in sha256block.go lists. *)
Definition isPrime (n : nat) : bool :=
  forallb (fun d => negb (Nat.eqb (n mod d) 0)) (seq 2 (n - 2)).

Definition primes64 : list Z :=
  map Z.of_nat (filter isPrime (seq 2 310)).

(* the integer cube root of n, by bisection between lo and hi *)
Fixpoint cubeRoot (fuel : nat) (lo hi n : Z) : Z :=
  match fuel with
  | O => lo
  | S fuel' =>
      let mid := (lo + hi + 1) / 2 in
      if mid * mid * mid <=? n then cubeRoot fuel' mid hi n
      else cubeRoot fuel' lo (mid - 1) n
  end.

Definition _K : list Z :=
  Eval vm_compute in
    map (fun p => cubeRoot 40 0 (2 ^ 36) (p * 2 ^ 96) mod 2 ^ 32) primes64.

(* The digest state h[0..7]. *)
Record digest : Type := Digest {
  h0 : Z; h1 : Z; h2 : Z; h3 : Z; h4 : Z; h5 : Z; h6 : Z; h7 : Z
}.

Definition init : digest :=
  Digest 0x6a09e667 0xbb67ae85 0x3c6ef372 0xa54ff53a
         0x510e527f 0x9b05688c 0x1f83d9ab 0x5be0cd19.

(* w[i] = p[j]<<24 | p[j+1]<<16 | p[j+2]<<8 | p[j+3], for i < 16 *)
Fixpoint words (n : nat) (p : list byte) : list Z :=
  match n, p with
  | S n', b0 :: b1 :: b2 :: b3 :: rest =>
      Z.lor (Z.lor (Z.lor (Z.shiftl (byte_to_Z b0) 24)
                          (Z.shiftl (byte_to_Z b1) 16))
                   (Z.shiftl (byte_to_Z b2) 8))
            (byte_to_Z b3)
      :: words n' rest
  | _, _ => []
  end.

Definition w_at (w : list Z) (i : nat) : Z := nth i w 0.

(* one iteration of the loop [for i := 16; i < 64; i++] *)
Definition extend (w : list Z) (i : nat) : list Z :=
  let v1 := w_at w (i - 2) in
  let t1 := Z.lxor (Z.lxor (rotr 17 v1) (rotr 19 v1)) (Z.shiftr v1 10) in
  let v2 := w_at w (i - 15) in
  let t2 := Z.lxor (Z.lxor (rotr 7 v2) (rotr 18 v2)) (Z.shiftr v2 3) in
  w ++ [add32 (add32 (add32 t1 (w_at w (i - 7))) t2) (w_at w (i - 16))].

Definition schedule (p : list byte) : list Z :=
  fold_left extend (seq 16 48) (words 16 p).

(* one iteration of the loop [for i := 0; i < 64; i++] *)
Definition round (s : digest) (kw : Z * Z) : digest :=
  let '(Digest a b c d e f g h) := s in
  let t1 :=
    add32 (add32 (add32 (add32 h
      (Z.lxor (Z.lxor (rotr 6 e) (rotr 11 e)) (rotr 25 e)))
      (Z.lxor (Z.land e f) (Z.land (not32 e) g)))
      (fst kw)) (snd kw) in
  let t2 :=
    add32 (Z.lxor (Z.lxor (rotr 2 a) (rotr 13 a)) (rotr 22 a))
          (Z.lxor (Z.lxor (Z.land a b) (Z.land a c)) (Z.land b c)) in
  Digest (add32 t1 t2) a b c (add32 d t1) e f g.

Definition block (dig : digest) (p : list byte) : digest :=
  let '(Digest a b c d e f g h) :=
    fold_left round (combine _K (schedule p)) dig in
  Digest (add32 (h0 dig) a) (add32 (h1 dig) b) (add32 (h2 dig) c)
         (add32 (h3 dig) d) (add32 (h4 dig) e) (add32 (h5 dig) f)
         (add32 (h6 dig) g) (add32 (h7 dig) h).

(* blockGeneric: [for len(p) >= chunk { ...; p = p[chunk:] }] *)
Fixpoint blockGeneric (n : nat) (dig : digest) (p : list byte) : digest :=
  match n with
  | O => dig
  | S n' => blockGeneric n' (block dig (firstn chunk p)) (skipn chunk p)
  end.

(* binary.BigEndian.PutUint32 / PutUint64 *)
Definition be32 (x : Z) : list byte :=
  [ byte_of_Z (Z.shiftr x 24); byte_of_Z (Z.shiftr x 16);
    byte_of_Z (Z.shiftr x 8); byte_of_Z x ].
Definition be64 (x : Z) : list byte :=
  be32 (Z.shiftr x 32) ++ be32 x.

(* checkSum's padding: a 1 bit, 0 bits up to 56 bytes mod 64, then the
   length in bits as a 64-bit big-endian integer. *)
Definition padding (len : Z) : list byte :=
  let t := if len mod 64 <? 56 then 56 - len mod 64
           else 64 + 56 - len mod 64 in
  (byte_of_Z 0x80 :: repeat x00 (Z.to_nat (t - 1)))
    ++ be64 ((len * 8) mod 2 ^ 64).

Definition Sum256 (data : list byte) : list byte :=
  let p := data ++ padding (Z.of_nat (length data)) in
  let '(Digest a b c d e f g h) :=
    blockGeneric (length p / chunk)%nat init p in
  be32 a ++ be32 b ++ be32 c ++ be32 d ++
  be32 e ++ be32 f ++ be32 g ++ be32 h.

End sha256.

(** ** bytes *)

Module bytes.

(* bytes.Compare: lexicographic comparison of unsigned bytes; -1, 0 or +1 *)
Fixpoint Compare (a b : list byte) : Z :=
  match a, b with
  | [], [] => 0
  | [], _ :: _ => -1
  | _ :: _, [] => 1
  | x :: a', y :: b' =>
      if byte_to_Z x <? byte_to_Z y then -1
      else if byte_to_Z y <? byte_to_Z x then 1
      else Compare a' b'
  end.

Fixpoint Equal (a b : list byte) : bool :=
  match a, b with
  | [], [] => true
  | x :: a', y :: b' => Byte.eqb x y && Equal a' b'
  | _, _ => false
  end.

End bytes.

(** ** encoding/hex *)

Module hex.

Inductive error : Type :=
| InvalidByteError (c : ascii)
| ErrLength.

Definition hextable : list ascii :=
  list_ascii_of_string "0123456789abcdef".

Definition code (c : ascii) : Z := Z.of_N (N_of_ascii c).

(* hextable[v>>4], hextable[v&0x0f] *)
Definition encodeByte (v : byte) : string :=
  String (nth (Z.to_nat (Z.shiftr (byte_to_Z v) 4)) hextable "0"%char)
 (String (nth (Z.to_nat (Z.land (byte_to_Z v) 0x0f)) hextable "0"%char)
  EmptyString).

Fixpoint EncodeToString (src : list byte) : string :=
  match src with
  | [] => EmptyString
  | v :: rest => String.append (encodeByte v) (EncodeToString rest)
  end.

(* reverseHexTable: the value of a hex digit of either case, if it is one *)
Definition fromHexChar (c : ascii) : option Z :=
  let n := code c in
  if (48 <=? n) && (n <=? 57) then Some (n - 48)
  else if (97 <=? n) && (n <=? 102) then Some (n - 97 + 10)
  else if (65 <=? n) && (n <=? 70) then Some (n - 65 + 10)
  else None.

(* Decode: the bytes decoded before the first error, and the error *)
Fixpoint Decode (src : string) : list byte * option error :=
  match src with
  | EmptyString => ([], None)
  | String p EmptyString =>
      match fromHexChar p with
      | None => ([], Some (InvalidByteError p))
      | Some _ => ([], Some ErrLength)
      end
  | String p (String q rest) =>
      match fromHexChar p, fromHexChar q with
      | None, _ => ([], Some (InvalidByteError p))
      | Some _, None => ([], Some (InvalidByteError q))
      | Some a, Some b =>
          let '(dst, err) := Decode rest in
          (byte_of_Z (Z.lor (Z.shiftl a 4) b) :: dst, err)
      end
  end.

Definition DecodeString (s : string) : list byte * option error := Decode s.

End hex.

(** ** crypto/hmac, instantiated with sha256.New *)

Module hmac.

Record mac : Type := Mac {
  opad : list byte;
  inner : list byte    (* what has been written to the inner hash *)
}.

Definition xor_pad (c : Z) (key : list byte) : list byte :=
  map (fun b => byte_of_Z (Z.lxor (byte_to_Z b) c))
      (key ++ repeat x00 (Z.to_nat sha256.BlockSize - length key)).

Definition New (key : list byte) : mac :=
  let key := if sha256.BlockSize <? Z.of_nat (length key)
             then sha256.Sum256 key else key in
  Mac (xor_pad 0x5c key) (xor_pad 0x36 key).

Definition Write (m : mac) (p : list byte) : mac :=
  Mac (opad m) (inner m ++ p).

(* Sum(nil) *)
Definition Sum (m : mac) : list byte :=
  sha256.Sum256 (opad m ++ sha256.Sum256 (inner m)).

End hmac.

(** ** crypto/subtle *)

Module subtle.

(* ConstantTimeByteEq(x, y) *)
Definition ConstantTimeByteEq (x y : Z) : Z :=
  Z.shiftr ((Z.lxor x y - 1) mod 2 ^ 32) 31.

(* v |= x[i] ^ y[i] *)
Definition xor_acc (v : Z) (xy : byte * byte) : Z :=
  Z.lor v (Z.lxor (byte_to_Z (fst xy)) (byte_to_Z (snd xy))).

Definition ConstantTimeCompare (x y : list byte) : Z :=
  if negb (Nat.eqb (length x) (length y)) then 0
  else
    let v := fold_left xor_acc (combine x y) 0 in
    ConstantTimeByteEq v 0.

End subtle.

(** ** strconv *)

Module strconv.

Inductive NumError : Type := ErrSyntax | ErrRange.

Definition maxUint64 : Z := 2 ^ 64 - 1.

(* The digit loop of ParseUint(s, 10, 64), started from accumulator n. *)
Fixpoint parseDigits (s : string) (n : Z) : Z + NumError :=
  match s with
  | EmptyString => inl n
  | String c rest =>
      let k := hex.code c in
      if (48 <=? k) && (k <=? 57) then
        let d := k - 48 in
        if maxUint64 / 10 + 1 <=? n then inr ErrRange
        else
          let n := (n * 10) mod 2 ^ 64 in
          let n1 := (n + d) mod 2 ^ 64 in
          if (n1 <? n) || (maxUint64 <? n1) then inr ErrRange
          else parseDigits rest n1
      else inr ErrSyntax
  end.

Definition ParseUint (s : string) : Z + NumError :=
  match s with
  | EmptyString => inr ErrSyntax
  | _ => parseDigits s 0
  end.

Definition wrap64 (z : Z) : Z := (z + 2 ^ 63) mod 2 ^ 64 - 2 ^ 63.

(* ParseInt(s, 10, 64) *)
Definition ParseInt (s : string) : Z + NumError :=
  match s with
  | EmptyString => inr ErrSyntax
  | String c rest =>
      let '(neg, s') :=
        if Ascii.eqb c "+" then (false, rest)
        else if Ascii.eqb c "-" then (true, rest)
        else (false, s) in
      match ParseUint s' with
      | inr e => inr e
      | inl un =>
          let cutoff := 2 ^ 63 in
          if negb neg && (cutoff <=? un) then inr ErrRange
          else if neg && (cutoff <? un) then inr ErrRange
          else
            let n := wrap64 un in
            inl (if neg then wrap64 (- n) else n)
      end
  end.

Definition digit (d : Z) : ascii := ascii_of_N (Z.to_N (48 + d)).

(* formatBits, base 10: digits are produced from the least significant
   end; 20 iterations cover every uint64. *)
Fixpoint formatBits (fuel : nat) (u : Z) (acc : string) : string :=
  match fuel with
  | O => acc
  | S fuel' =>
      if u <? 10 then String (digit u) acc
      else formatBits fuel' (u / 10) (String (digit (u mod 10)) acc)
  end.

(* FormatInt(i, 10) *)
Definition FormatInt (i : Z) : string :=
  if i <? 0 then String "-" (formatBits 20 ((- i) mod 2 ^ 64) EmptyString)
  else formatBits 20 i EmptyString.

End strconv.

(** ** math, fmt: the float64 arithmetic of the freshness check

    [float64(x)] for an int64 [x] is the nearest float64, ties to even. Its
    value is again an integer, so it is represented by that integer. *)

Module float64.

Definition of_int64 (x : Z) : Z :=
  let m := Z.abs x in
  if m <? 2 ^ 53 then x
  else
    let e := Z.log2 m - 52 in
    let q := Z.shiftr m e in
    let r := m - Z.shiftl q e in
    let half := 2 ^ (e - 1) in
    let q' := if r <? half then q
              else if half <? r then q + 1
              else if Z.even q then q else q + 1 in
    Z.sgn x * Z.shiftl q' e.

(* math.Abs *)
Definition Abs (f : Z) : Z := Z.abs f.

(* fmt.Sprintf("%.0f", f) for an integral, non-negative f *)
Definition format0 (f : Z) : string := strconv.formatBits 20 f EmptyString.

End float64.

(** ** package kiket: types.go, auth.go *)

(* type Headers map[string]string *)
Abbreviation Headers := (gmap string string).

(* headers[k]: the zero value for a missing key *)
Definition index (headers : Headers) (k : string) : string :=
  default EmptyString (headers !! k).

(** Values of Go's [error] interface that reach the callers of this package:
    [*AuthenticationError], an opaque error, and an error wrapping another
    one ([fmt.Errorf] with [%w]). [nil] is [None] of [option error]. *)
Inductive error : Type :=
| AuthenticationError (Message : string)
| errorString (s : string)
| wrapError (msg : string) (err : error).

(* func (e *AuthenticationError) Error() string, and the others' *)
Definition Error (e : error) : string :=
  match e with
  | AuthenticationError Message => Message
  | errorString s => s
  | wrapError msg _ => msg
  end.

Definition now_minus (now requestTime : Z) : Z :=
  strconv.wrap64 (now - requestTime).

Definition VerifySignature (now : Z) (secret : string) (body : list byte)
    (headers : Headers) : option error :=
  if String.eqb secret "" then
    Some (AuthenticationError "webhook secret not configured")
  else
    let signature := index headers "X-Kiket-Signature" in
    let signature := if String.eqb signature ""
                     then index headers "x-kiket-signature" else signature in
    if String.eqb signature "" then
      Some (AuthenticationError "missing X-Kiket-Signature header")
    else
      let timestamp := index headers "X-Kiket-Timestamp" in
      let timestamp := if String.eqb timestamp ""
                       then index headers "x-kiket-timestamp" else timestamp in
      if String.eqb timestamp "" then
        Some (AuthenticationError "missing X-Kiket-Timestamp header")
      else
        match strconv.ParseInt timestamp with
        | inr _ =>
            Some (AuthenticationError "invalid X-Kiket-Timestamp header")
        | inl requestTime =>
            let timeDiff :=
              float64.Abs (float64.of_int64 (now_minus now requestTime)) in
            if 300 <? timeDiff then
              Some (AuthenticationError
                (String.append
                   "request timestamp too old or too far in future: "
                   (String.append (float64.format0 timeDiff) "s")))
            else
              let payload :=
                String.append timestamp
                  (String.append "." (string_of_list_byte body)) in
              let mac := hmac.New (list_byte_of_string secret) in
              let mac := hmac.Write mac (list_byte_of_string payload) in
              let expectedSignature := hex.EncodeToString (hmac.Sum mac) in
              if negb (subtle.ConstantTimeCompare
                         (list_byte_of_string signature)
                         (list_byte_of_string expectedSignature) =? 1)
              then Some (AuthenticationError "invalid signature")
              else None
        end.

(* timestamp is a *int64: None is the nil pointer *)
Definition GenerateSignature (now : Z) (secret body : string)
    (timestamp : option Z) : string * string :=
  let tsVal := match timestamp with
               | Some t => t
               | None => now
               end in
  let tsStr := strconv.FormatInt tsVal in
  let payload := String.append tsStr (String.append "." body) in
  let mac := hmac.New (list_byte_of_string secret) in
  let mac := hmac.Write mac (list_byte_of_string payload) in
  let sig := hex.EncodeToString (hmac.Sum mac) in
  (sig, tsStr).

(* errors.As(err, &authErr) with authErr of type *AuthenticationError *)
Fixpoint errors_As_AuthenticationError (e : error) : bool :=
  match e with
  | AuthenticationError _ => true
  | errorString _ => false
  | wrapError _ inner => errors_As_AuthenticationError inner
  end.

Definition IsAuthenticationError (err : option error) : bool :=
  match err with
  | None => false
  | Some e => errors_As_AuthenticationError e
  end.

(** ** package kiket: the audit client's local verification *)

Definition normalizeHash (h : string) : list byte :=
  let h := if (2 <=? String.length h)%nat &&
              String.eqb (String.substring 0 2 h) "0x"
           then String.substring 2 (String.length h - 2) h
           else h in
  fst (hex.DecodeString h).

(* [append(left, right...)] may write into spare capacity behind [left]; no
   slice that is read afterwards shares it, so the result is the plain
   concatenation. *)
Definition hashPair (left_ right_ : list byte) : list byte :=
  let '(left_, right_) :=
    if 0 <? bytes.Compare left_ right_
    then (right_, left_) else (left_, right_) in
  let combined := left_ ++ right_ in
  sha256.Sum256 combined.

(* one iteration of [for _, siblingHex := range proofPath]; Go's % and /
   on int truncate toward zero: Z.rem and Z.quot *)
Definition proofStep (st : list byte * Z) (siblingHex : string)
    : list byte * Z :=
  let '(current, idx) := st in
  let sibling := normalizeHash siblingHex in
  let current := if Z.rem idx 2 =? 0
                 then hashPair current sibling
                 else hashPair sibling current in
  (current, Z.quot idx 2).

Definition VerifyProofLocally (contentHash : string) (proofPath : list string)
    (leafIndex : Z) (merkleRoot : string) : bool :=
  let current := normalizeHash contentHash in
  let idx := leafIndex in
  let '(current, _) := fold_left proofStep proofPath (current, idx) in
  let expected := normalizeHash merkleRoot in
  bytes.Equal current expected.

(** [ComputeContentHash] takes a [map[string]interface{}]. The values and
    their JSON encoding belong to [encoding/json]; they are parameters here:
    [encodeValue] is the encoder of a value (it may fail), [appendString] the
    JSON string literal of a key, [nil] the zero value of [interface{}].
    [json.Marshal] of a map writes the entries in increasing key order. *)
Section ContentHash.

Variable V : Type.
Variable nil : V.
Variable encodeValue : V -> option (list byte).
Variable appendString : string -> list byte.

Definition key_le (a b : string * V) : Prop := String.le (fst a) (fst b).

Fixpoint encodeEntries (first : bool) (sv : list (string * V))
    : option (list byte) :=
  match sv with
  | [] => Some []
  | (ks, v) :: rest =>
      match encodeValue v, encodeEntries false rest with
      | Some ev, Some er =>
          Some ((if first then [] else list_byte_of_string ",")
                  ++ appendString ks ++ list_byte_of_string ":" ++ ev ++ er)
      | _, _ => None
      end
  end.

(* json.Marshal of a non-nil map[string]interface{} *)
Definition json_Marshal (m : gmap string V) : option (list byte) :=
  let sv := merge_sort key_le (map_to_list m) in
  match encodeEntries true sv with
  | Some body =>
      Some (list_byte_of_string "{" ++ body ++ list_byte_of_string "}")
  | None => None
  end.

(* data[k] *)
Definition index_data (data : gmap string V) (k : string) : V :=
  default nil (data !! k).

(** [range] is the order in which [for k := range data] yields the keys;
    Go leaves it unspecified. *)
Definition ComputeContentHash (data : gmap string V) (range : list string)
    : string :=
  let keys := merge_sort String.le range in
  let sorted :=
    fold_left (fun sorted k => <[k := index_data data k]> sorted) keys ∅ in
  let canonical := default [] (json_Marshal sorted) in
  let hash := sha256.Sum256 canonical in
  String.append "0x" (hex.EncodeToString hash).

(* an order in which the keys of [data] can be ranged over *)
Definition range_of (data : gmap string V) (range : list string) : Prop :=
  Permutation range (map fst (map_to_list data)).

End ContentHash.


(** ** Notions of the specification

    Definitions that follow the specification's words; the properties below
    relate them to the code. *)

(* the two operands in increasing byte order *)
Definition sortedPair (a b : list byte) : list byte * list byte :=
  if bytes.Compare a b <=? 0 then (a, b) else (b, a).

(* the root of a two-leaf tree: the SHA-256 of the sorted pair, as a hash
   string *)
Definition sortedPairRoot (L0 L1 : string) : string :=
  let p := sortedPair (normalizeHash L0) (normalizeHash L1) in
  String.append "0x" (hex.EncodeToString (sha256.Sum256 (fst p ++ snd p))).

Definition isLowerHexDigit (c : ascii) : bool :=
  let n := hex.code c in
  ((48 <=? n) && (n <=? 57)) || ((97 <=? n) && (n <=? 102)).

Fixpoint allLowerHex (s : string) : bool :=
  match s with
  | EmptyString => true
  | String c rest => isLowerHexDigit c && allLowerHex rest
  end.

(* a hash value of the data model: "0x" followed by 64 lowercase hex
   characters *)
Definition isHash (s : string) : bool :=
  match s with
  | String "0" (String "x" t) =>
      Nat.eqb (String.length t) 64 && allLowerHex t
  | _ => false
  end.


(* the string does not start with two hex digits *)
Definition noHexPair (s : string) : Prop :=
  match s with
  | String p (String q _) =>
      hex.fromHexChar p = None \/ hex.fromHexChar q = None
  | _ => True
  end.

(* the two operands of a sorted pair, concatenated *)
Definition sortedConcat (a b : list byte) : list byte :=
  fst (sortedPair a b) ++ snd (sortedPair a b).

(* the string is not empty and its first byte is not a hex digit *)
Definition invalidFromFirstByte (s : string) : Prop :=
  match s with
  | String p _ => hex.fromHexChar p = None
  | EmptyString => False
  end.

(** *** The webhook authenticator *)

(* the value found for a header: the canonical spelling first, then the
   all-lowercase one *)
Definition headerValue (headers : Headers) (canonical lower : string)
    : string :=
  if String.eqb (index headers canonical) ""
  then index headers lower else index headers canonical.

Definition signatureHeader (headers : Headers) : string :=
  headerValue headers "X-Kiket-Signature" "x-kiket-signature".

Definition timestampHeader (headers : Headers) : string :=
  headerValue headers "X-Kiket-Timestamp" "x-kiket-timestamp".

(* hex(HMAC-SHA256(key = secret, message = timestamp + "." + body)) *)
Definition expectedSignature (secret timestamp : string) (body : list byte)
    : string :=
  hex.EncodeToString
    (hmac.Sum
       (hmac.Write (hmac.New (list_byte_of_string secret))
          (list_byte_of_string
             (String.append timestamp
                (String.append "." (string_of_list_byte body)))))).

(* the error of the freshness check, with the difference as Go prints it *)
Definition freshnessError (now requestTime : Z) : error :=
  AuthenticationError
    (String.append "request timestamp too old or too far in future: "
       (String.append
          (float64.format0
             (float64.Abs (float64.of_int64 (now_minus now requestTime))))
          "s")).

(* A base-10 signed integer: an optional sign, then one or more decimal
   digits; [decimalValue s acc] reads digits after the value acc. *)
Definition isDigit (c : ascii) : bool :=
  (48 <=? hex.code c) && (hex.code c <=? 57).

Fixpoint decimalValue (s : string) (acc : Z) : option Z :=
  match s with
  | EmptyString => Some acc
  | String c rest =>
      if isDigit c then decimalValue rest (acc * 10 + (hex.code c - 48))
      else None
  end.

Definition signedDecimal (s : string) : option Z :=
  match s with
  | EmptyString => None
  | String c rest =>
      if Ascii.eqb c "+"
      then match rest with
           | EmptyString => None
           | _ => decimalValue rest 0
           end
      else if Ascii.eqb c "-"
      then match rest with
           | EmptyString => None
           | _ => option_map Z.opp (decimalValue rest 0)
           end
      else decimalValue s 0
  end.

(* the timestamp of a header value: a base-10 signed integer that fits a
   signed 64-bit integer *)
Definition parseTimestamp (s : string) : option Z :=
  match signedDecimal s with
  | Some v => if (- 2 ^ 63 <=? v) && (v <? 2 ^ 63) then Some v else None
  | None => None
  end.

(* The six checks, each on its own: None when the check passes. *)
Definition checkSecret (secret : string) : option error :=
  if String.eqb secret ""
  then Some (AuthenticationError "webhook secret not configured") else None.

Definition checkSignaturePresent (headers : Headers) : option error :=
  if String.eqb (signatureHeader headers) ""
  then Some (AuthenticationError "missing X-Kiket-Signature header")
  else None.

Definition checkTimestampPresent (headers : Headers) : option error :=
  if String.eqb (timestampHeader headers) ""
  then Some (AuthenticationError "missing X-Kiket-Timestamp header")
  else None.

Definition checkTimestampParses (headers : Headers) : option error :=
  match parseTimestamp (timestampHeader headers) with
  | None => Some (AuthenticationError "invalid X-Kiket-Timestamp header")
  | Some _ => None
  end.

(* |now - timestamp| > 300, over the integers *)
Definition checkFresh (now : Z) (headers : Headers) : option error :=
  match parseTimestamp (timestampHeader headers) with
  | Some requestTime =>
      if 300 <? Z.abs (now - requestTime)
      then Some (freshnessError now requestTime) else None
  | None => None
  end.

Definition checkSignature (secret : string) (body : list byte)
    (headers : Headers) : option error :=
  if String.eqb (signatureHeader headers)
                (expectedSignature secret (timestampHeader headers) body)
  then None else Some (AuthenticationError "invalid signature").

Definition checksInOrder (now : Z) (secret : string) (body : list byte)
    (headers : Headers) : list (option error) :=
  [ checkSecret secret; checkSignaturePresent headers;
    checkTimestampPresent headers; checkTimestampParses headers;
    checkFresh now headers; checkSignature secret body headers ].

(* the error of the first check that fails *)
Fixpoint firstFailure (checks : list (option error)) : option error :=
  match checks with
  | [] => None
  | Some e :: _ => Some e
  | None :: rest => firstFailure rest
  end.

(* the freshness check as the code computes it: int64 subtraction, then
   float64 *)
Definition checkFreshInt64 (now : Z) (headers : Headers) : option error :=
  match parseTimestamp (timestampHeader headers) with
  | Some requestTime =>
      if 300 <? float64.Abs (float64.of_int64 (now_minus now requestTime))
      then Some (freshnessError now requestTime) else None
  | None => None
  end.

(* the clock is an int64 at least 300 seconds away from both ends of the
   int64 range *)
Definition clockInRange (now : Z) : Prop :=
  - 2 ^ 63 + 300 <= now < 2 ^ 63 - 300.

(* a string that starts with a decimal digit *)
Definition startsWithDigit (s : string) : Prop :=
  exists d rest, 0 <= d <= 9 /\ s = String (strconv.digit d) rest.

(* the headers carry [value] for a header: under the canonical spelling,
   or under the lowercase one when the canonical one is absent or empty *)
Definition carries (headers : Headers) (canonical lower value : string)
    : Prop :=
  headers !! canonical = Some value
  \/ ((headers !! canonical = None \/ headers !! canonical = Some EmptyString)
      /\ headers !! lower = Some value).

(* the four failure kinds of the specification's taxonomy *)
Inductive FailureKind : Type :=
| ConfigurationError
| ProtocolError
| FreshnessError
| IntegrityError.

(* the kind that each check of [checksInOrder] stands for *)
Definition kindsInOrder : list FailureKind :=
  [ ConfigurationError; ProtocolError; ProtocolError; ProtocolError;
    FreshnessError; IntegrityError ].

(* the kind of the first failing check *)
Fixpoint firstFailureKind (checks : list (option error))
    (kinds : list FailureKind) : option FailureKind :=
  match checks, kinds with
  | Some _ :: _, k :: _ => Some k
  | None :: checks', _ :: kinds' => firstFailureKind checks' kinds'
  | _, _ => None
  end.

(* the kind read off the message string of an AuthenticationError *)
Definition kindOfMessage (m : string) : option FailureKind :=
  if String.eqb m "webhook secret not configured"
  then Some ConfigurationError
  else if String.eqb m "missing X-Kiket-Signature header"
          || String.eqb m "missing X-Kiket-Timestamp header"
          || String.eqb m "invalid X-Kiket-Timestamp header"
  then Some ProtocolError
  else if String.prefix "request timestamp too old or too far in future: " m
  then Some FreshnessError
  else if String.eqb m "invalid signature" then Some IntegrityError
  else None.

(* an observation of an error that does not read the message of an
   AuthenticationError *)
Definition ignoresMessage {A : Type} (f : error -> A) : Prop :=
  forall m m', f (AuthenticationError m) = f (AuthenticationError m').

(* ASCII case folding of header names *)
Definition asciiLower (c : ascii) : ascii :=
  let n := hex.code c in
  if (65 <=? n) && (n <=? 90) then ascii_of_N (Z.to_N (n + 32)) else c.

Fixpoint toLower (s : string) : string :=
  match s with
  | EmptyString => EmptyString
  | String c rest => String (asciiLower c) (toLower rest)
  end.

(* the header is present, with a non-empty value, under some casing of
   its name *)
Definition presentIgnoringCase (headers : Headers) (name : string) : Prop :=
  exists k v, headers !! k = Some v /\ v <> EmptyString
              /\ toLower k = toLower name.

(* the four keys that VerifySignature reads *)
Definition readKeys : list string :=
  [ "X-Kiket-Signature"; "x-kiket-signature";
    "X-Kiket-Timestamp"; "x-kiket-timestamp" ]%string.

(** An instance of the encoder parameters of [ComputeContentHash], used in
    examples: values are Go ints, printed in decimal; keys are quoted as
    they are (keys without characters that JSON escapes). *)
Definition quote : ascii := ascii_of_N 34.

Definition encodeInt (v : Z) : option (list byte) :=
  Some (list_byte_of_string (strconv.FormatInt v)).

Definition quoteKey (ks : string) : list byte :=
  list_byte_of_string
    (String quote (String.append ks (String quote EmptyString))).

(** *** Merkle trees over the sorted-pair combine *)

(* the node reached from [current] by combining with the siblings of a
   path, leaf to root *)
Definition climb (current : list byte) (path : list string) : list byte :=
  fold_left (fun cur s => hashPair cur (normalizeHash s)) path current.

(* a hash value as the service writes it *)
Definition hashString (h : list byte) : string :=
  String.append "0x" (hex.EncodeToString h).

(* a binary tree whose inner nodes are labelled by hashPair *)
Inductive tree : Type :=
| Leaf (h : list byte)
| Node (l r : tree).

Fixpoint treeRoot (t : tree) : list byte :=
  match t with
  | Leaf h => h
  | Node l r => hashPair (treeRoot l) (treeRoot r)
  end.

(* [inclusion t h path]: h is a leaf of t and path lists, from the leaf up
   to the root, the labels of the siblings met on the way *)
Inductive inclusion : tree -> list byte -> list (list byte) -> Prop :=
| inclusion_leaf (h : list byte) : inclusion (Leaf h) h []
| inclusion_left (l r : tree) (h : list byte) (path : list (list byte)) :
    inclusion l h path -> inclusion (Node l r) h (path ++ [treeRoot r])
| inclusion_right (l r : tree) (h : list byte) (path : list (list byte)) :
    inclusion r h path -> inclusion (Node l r) h (path ++ [treeRoot l]).

(* hex digits a-f in upper case, every other character unchanged *)
Definition upperHexChar (c : ascii) : ascii :=
  let n := hex.code c in
  if (97 <=? n) && (n <=? 102) then ascii_of_N (Z.to_N (n - 32)) else c.

Fixpoint upperHex (s : string) : string :=
  match s with
  | EmptyString => EmptyString
  | String c rest => String (upperHexChar c) (upperHex rest)
  end.

(* the hash string of the empty input: what ComputeContentHash returns when
   json.Marshal fails and its error is dropped *)
Definition emptyInputHash : string :=
  "0xe3b0c44298fc1c149afbf4c8996fb92427ae41e4649b934ca495991b7852b855".

(** ** package kiket: manifest.go *)

(** [for i, c := range s] over a Go string decodes UTF-8: it yields the byte
    index and the rune of each encoded character, and the rune U+FFFD with a
    step of one byte where the bytes are not a valid encoding. *)
Module utf8.

Definition runeError : Z := 0xFFFD.

Definition isCont (c : ascii) : bool :=
  (0x80 <=? hex.code c) && (hex.code c <=? 0xBF).

Definition low6 (c : ascii) : Z := Z.land (hex.code c) 0x3F.

(* decoderune, for a first byte b0 >= 0x80 followed by rest: the rune and
   the number of bytes it takes *)
Definition decoderune (b0 : Z) (rest : string) : Z * nat :=
  if (0xC0 <=? b0) && (b0 <? 0xE0) then
    match rest with
    | String c1 _ =>
        let r := Z.lor (Z.shiftl (Z.land b0 0x1F) 6) (low6 c1) in
        if isCont c1 && (0x7F <? r) then (r, 2%nat) else (runeError, 1%nat)
    | _ => (runeError, 1%nat)
    end
  else if (0xE0 <=? b0) && (b0 <? 0xF0) then
    match rest with
    | String c1 (String c2 _) =>
        let r := Z.lor (Z.lor (Z.shiftl (Z.land b0 0x0F) 12)
                              (Z.shiftl (low6 c1) 6)) (low6 c2) in
        if isCont c1 && isCont c2 && (0x7FF <? r)
           && negb ((0xD800 <=? r) && (r <=? 0xDFFF))
        then (r, 3%nat) else (runeError, 1%nat)
    | _ => (runeError, 1%nat)
    end
  else if (0xF0 <=? b0) && (b0 <? 0xF8) then
    match rest with
    | String c1 (String c2 (String c3 _)) =>
        let r := Z.lor (Z.lor (Z.lor (Z.shiftl (Z.land b0 0x07) 18)
                                     (Z.shiftl (low6 c1) 12))
                              (Z.shiftl (low6 c2) 6)) (low6 c3) in
        if isCont c1 && isCont c2 && isCont c3 && (0xFFFF <? r)
           && (r <=? 0x10FFFF)
        then (r, 4%nat) else (runeError, 1%nat)
    | _ => (runeError, 1%nat)
    end
  else (runeError, 1%nat).

Fixpoint dropString (n : nat) (s : string) : string :=
  match n, s with
  | S n', String _ rest => dropString n' rest
  | _, _ => s
  end.

(* the pairs (i, c) of the loop, from byte index i on; every step takes at
   least one byte, so the length of s is fuel enough *)
Fixpoint rangeFrom (fuel : nat) (i : Z) (s : string) : list (Z * Z) :=
  match fuel, s with
  | S fuel', String c0 rest =>
      let b0 := hex.code c0 in
      let '(r, size) := if b0 <? 0x80 then (b0, 1%nat)
                        else decoderune b0 rest in
      (i, r) :: rangeFrom fuel' (i + Z.of_nat size)
                          (dropString (size - 1) rest)
  | _, _ => []
  end.

Definition range (s : string) : list (Z * Z) :=
  rangeFrom (String.length s) 0 s.

End utf8.

Definition underscore : byte := byte_of_Z 95.

(* the body of the loop of toUpperSnake; byte(c) keeps the low 8 bits of
   the rune *)
Definition snakeStep (result : list byte) (ic : Z * Z) : list byte :=
  let '(i, c) := ic in
  if (65 <=? c) && (c <=? 90) then
    (if 0 <? i then result ++ [underscore] else result) ++ [byte_of_Z c]
  else if (97 <=? c) && (c <=? 122) then result ++ [byte_of_Z (c - 32)]
  else if (c =? 45) || (c =? 46) then result ++ [underscore]
  else result ++ [byte_of_Z c].

Definition toUpperSnake (s : string) : string :=
  string_of_list_byte (fold_left snakeStep (utf8.range s) []).

Module ManifestSetting.
Record t (V : Type) : Type := Make {
  Key : string;
  Default : option V;     (* interface{}: None is nil *)
  Secret : bool
}.
Arguments Make {V} _ _ _.
Arguments Key {V} _.
Arguments Default {V} _.
Arguments Secret {V} _.
End ManifestSetting.

Module Manifest.
Record t (V : Type) : Type := Make {
  ID : string;
  Version : string;
  DeliverySecret : string;
  Settings : list (ManifestSetting.t V)
}.
Arguments Make {V} _ _ _ _.
Arguments ID {V} _.
Arguments Version {V} _.
Arguments DeliverySecret {V} _.
Arguments Settings {V} _.
End Manifest.

(** The functions of manifest.go over a [Settings] map, a
    [map[string]interface{}]: [V] stands for the values of [interface{}],
    [ofString] for a string stored as such a value, [getenv] for os.Getenv.
    A [*Manifest] is an [option]: None is nil. *)
Section ManifestFunctions.

Variable V : Type.
Variable ofString : string -> V.
Variable getenv : string -> string.

Definition defaultStep (defaults : gmap string V) (setting : ManifestSetting.t V)
    : gmap string V :=
  match ManifestSetting.Default setting with
  | Some d => <[ManifestSetting.Key setting := d]> defaults
  | None => defaults
  end.

Definition SettingsDefaults (manifest : option (Manifest.t V))
    : gmap string V :=
  match manifest with
  | None => ∅
  | Some m =>
      if Nat.eqb (length (Manifest.Settings m)) 0 then ∅
      else fold_left defaultStep (Manifest.Settings m) ∅
  end.

Definition secretStep (keys : list string) (setting : ManifestSetting.t V)
    : list string :=
  if ManifestSetting.Secret setting
  then keys ++ [ManifestSetting.Key setting] else keys.

(* a nil slice is the empty list *)
Definition SecretKeys (manifest : option (Manifest.t V)) : list string :=
  match manifest with
  | None => []
  | Some m =>
      if Nat.eqb (length (Manifest.Settings m)) 0 then []
      else fold_left secretStep (Manifest.Settings m) []
  end.

Definition overrideStep (updated : gmap string V) (key : string)
    : gmap string V :=
  let envKey := String.append "KIKET_SECRET_" (toUpperSnake key) in
  let envValue := getenv envKey in
  if negb (String.eqb envValue "") then <[key := ofString envValue]> updated
  else updated.

(** [range] is the order in which [for k, v := range settings] yields the
    entries. *)
Definition ApplySecretEnvOverrides (settings : gmap string V)
    (range : list (string * V)) (secrets : list string) : gmap string V :=
  let updated := fold_left (fun u kv => <[fst kv := snd kv]> u) range ∅ in
  fold_left overrideStep secrets updated.

End ManifestFunctions.

(* the bytes of the string are all below 0x80 *)
Fixpoint isAscii (s : string) : bool :=
  match s with
  | EmptyString => true
  | String c rest => (hex.code c <? 128) && isAscii rest
  end.

(* the pairs of the loop over a string of ASCII characters: one per byte *)
Fixpoint asciiPairs (i : Z) (s : string) : list (Z * Z) :=
  match s with
  | EmptyString => []
  | String c rest => (i, hex.code c) :: asciiPairs (i + 1) rest
  end.

(* what one step of toUpperSnake appends *)
Definition snakeOut (ic : Z * Z) : list byte := snakeStep [] ic.

(* the name of the environment variable read for a secret key *)
Definition envKey (key : string) : string :=
  String.append "KIKET_SECRET_" (toUpperSnake key).

(* a byte that toUpperSnake leaves in the name of an ASCII key: ASCII, not a
   lowercase letter, not '-' and not '.' *)
Definition isEnvByte (b : byte) : bool :=
  let n := byte_to_Z b in
  (n <? 128) && negb ((97 <=? n) && (n <=? 122))
  && negb (n =? 45) && negb (n =? 46).

(** An environment and a manifest for the examples: values are strings. *)
Definition exampleEnv (name : string) : string :=
  if String.eqb name "KIKET_SECRET_API_KEY" then "sekret" else "".

Definition exampleManifest : Manifest.t string :=
  Manifest.Make "ext" "1.0" ""
    [ ManifestSetting.Make "apiKey" None true;
      ManifestSetting.Make "region" (Some "eu"%string) false;
      ManifestSetting.Make "region" (Some "us"%string) false;
      ManifestSetting.Make "region" None false ].

(** ** strings *)

Module strings.

(* len(s) >= len(suffix) && s[len(s)-len(suffix):] == suffix *)
Definition HasSuffix (s suffix : string) : bool :=
  (String.length suffix <=? String.length s)%nat
  && String.eqb
       (String.substring (String.length s - String.length suffix)
                         (String.length suffix) s)
       suffix.

Definition TrimSuffix (s suffix : string) : string :=
  if HasSuffix s suffix
  then String.substring 0 (String.length s - String.length suffix) s
  else s.

End strings.

(** ** package kiket: the telemetry reporter's options *)

Module TelemetryReporter.
Record t : Type := Make {
  endpoint : string;
  enabled : bool;
  extensionID : string;
  extensionVersion : string;
  httpClientTimeout : Z      (* httpClient.Timeout, a time.Duration *)
}.
End TelemetryReporter.

(* type TelemetryOption: a function that updates the reporter it is given *)
Definition TelemetryOption : Type :=
  TelemetryReporter.t -> TelemetryReporter.t.

Definition WithTelemetryEndpoint (url : string) : TelemetryOption :=
  fun r =>
    if negb (String.eqb url "") then
      let url := strings.TrimSuffix url "/" in
      let url := if negb (strings.HasSuffix url "/telemetry")
                 then String.append url "/telemetry" else url in
      TelemetryReporter.Make url (TelemetryReporter.enabled r)
        (TelemetryReporter.extensionID r)
        (TelemetryReporter.extensionVersion r)
        (TelemetryReporter.httpClientTimeout r)
    else r.

Definition WithTelemetryExtension (id version : string) : TelemetryOption :=
  fun r =>
    TelemetryReporter.Make (TelemetryReporter.endpoint r)
      (TelemetryReporter.enabled r) id version
      (TelemetryReporter.httpClientTimeout r).

(** ** package kiket: types.go, sdk.go

    [V] stands for the values of [interface{}] in a webhook payload and in
    the settings, [Result] for a non-nil value returned by a handler, [Ctx]
    for a context.Context; [ClientT], [EndpointsT] and [SecretManagerT] for
    the client, the endpoints and the secret manager, which the functions
    below only pass on. A nil map is the empty map. *)

Module HandlerContext.
Record t (V ClientT EndpointsT SecretManagerT : Type) : Type := Make {
  Event : string;
  EventVersion : string;
  Headers : gmap string string;
  Client : ClientT;
  Endpoints : EndpointsT;
  Settings : gmap string V;
  ExtensionID : string;
  ExtensionVersion : string;
  Secrets : SecretManagerT
}.
Arguments Make {V ClientT EndpointsT SecretManagerT} _ _ _ _ _ _ _ _ _.
Arguments Event {V ClientT EndpointsT SecretManagerT} _.
Arguments EventVersion {V ClientT EndpointsT SecretManagerT} _.
End HandlerContext.

Module Config.
Record t (V : Type) : Type := Make {
  WebhookSecret : string;
  WorkspaceToken : string;
  ExtensionAPIKey : string;
  BaseURL : string;
  Settings : gmap string V;
  ExtensionID : string;
  ExtensionVersion : string;
  ManifestPath : string;
  AutoEnvSecrets : bool;
  TelemetryEnabled : bool;
  TelemetryURL : string
}.
Arguments Make {V} _ _ _ _ _ _ _ _ _ _ _.
Arguments WebhookSecret {V} _.
Arguments Settings {V} _.
Arguments ExtensionID {V} _.
Arguments ExtensionVersion {V} _.
End Config.

(* type WebhookHandler func(ctx, payload, handlerCtx) (interface{}, error) *)
Definition WebhookHandler (V Result Ctx ClientT EndpointsT SecretManagerT : Type)
    : Type :=
  Ctx -> gmap string V ->
  HandlerContext.t V ClientT EndpointsT SecretManagerT ->
  option Result * option error.

Module HandlerMetadata.
Record t (V Result Ctx ClientT EndpointsT SecretManagerT : Type) : Type := Make {
  Event : string;
  Version : string;
  Handler : WebhookHandler V Result Ctx ClientT EndpointsT SecretManagerT
}.
Arguments Make {V Result Ctx ClientT EndpointsT SecretManagerT} _ _ _.
Arguments Event {V Result Ctx ClientT EndpointsT SecretManagerT} _.
Arguments Version {V Result Ctx ClientT EndpointsT SecretManagerT} _.
Arguments Handler {V Result Ctx ClientT EndpointsT SecretManagerT} _.
End HandlerMetadata.

(* the fields of SDK that the functions below read or write; handlersMu
   guards handlers, and the calls are taken one at a time *)
Module SDK.
Record t (V Result Ctx ClientT EndpointsT SecretManagerT : Type) : Type := Make {
  config : Config.t V;
  client : ClientT;
  endpoints : EndpointsT;
  handlers :
    gmap string
      (HandlerMetadata.t V Result Ctx ClientT EndpointsT SecretManagerT)
}.
Arguments Make {V Result Ctx ClientT EndpointsT SecretManagerT} _ _ _ _.
Arguments config {V Result Ctx ClientT EndpointsT SecretManagerT} _.
Arguments client {V Result Ctx ClientT EndpointsT SecretManagerT} _.
Arguments endpoints {V Result Ctx ClientT EndpointsT SecretManagerT} _.
Arguments handlers {V Result Ctx ClientT EndpointsT SecretManagerT} _.
End SDK.

(* what ServeHTTP reads of an http.Request: the body is what io.ReadAll
   returns *)
Module Request.
Record t (Ctx : Type) : Type := Make {
  Method : string;
  Body : list byte + error;
  Header : gmap string (list string);
  Context : Ctx
}.
Arguments Make {Ctx} _ _ _ _.
Arguments Method {Ctx} _.
Arguments Body {Ctx} _.
Arguments Header {Ctx} _.
Arguments Context {Ctx} _.
End Request.

(* what ServeHTTP writes to the http.ResponseWriter *)
Module Response.
Record t : Type := Make {
  StatusCode : Z;
  Header : gmap string string;
  Body : list byte
}.
End Response.

Module http.

Definition StatusOK : Z := 200.
Definition StatusBadRequest : Z := 400.
Definition StatusUnauthorized : Z := 401.
Definition StatusMethodNotAllowed : Z := 405.
Definition StatusInternalServerError : Z := 500.
Definition MethodPost : string := "POST".

Definition newline : byte := byte_of_Z 10.

(* http.Error(w, error, code) on a writer without headers *)
Definition Error (error : string) (code : Z) : Response.t :=
  Response.Make code
    (<["X-Content-Type-Options" := "nosniff"%string]>
       (<["Content-Type" := "text/plain; charset=utf-8"%string]> ∅))
    (list_byte_of_string error ++ [newline]).

End http.

Section Webhook.

Variables V Result Ctx ClientT EndpointsT SecretManagerT : Type.
(* v.(string): the string held by a value, if it holds one *)
Variable asString : V -> option string.
(* json.Unmarshal(body, &payload) *)
Variable unmarshal : list byte -> gmap string V + error.
(* s.endpoints.Secrets *)
Variable endpointsSecrets : EndpointsT -> SecretManagerT.
(* json.Marshal of a handler's result *)
Variable encodeResult : Result -> option (list byte).

Let Handler := HandlerMetadata.t V Result Ctx ClientT EndpointsT SecretManagerT.
Let Sdk := SDK.t V Result Ctx ClientT EndpointsT SecretManagerT.

Definition handlerKey (event version : string) : string :=
  String.append event (String.append ":" version).

(* versions is the variadic parameter *)
Definition On (s : Sdk) (event : string)
    (handler : WebhookHandler V Result Ctx ClientT EndpointsT SecretManagerT)
    (versions : list string) : Sdk :=
  let version := match versions with
                 | v :: _ => v
                 | [] => "v1"%string
                 end in
  let key := handlerKey event version in
  SDK.Make (SDK.config s) (SDK.client s) (SDK.endpoints s)
    (<[key := HandlerMetadata.Make event version handler]> (SDK.handlers s)).

(* a nil *HandlerMetadata is None *)
Definition GetHandler (s : Sdk) (event version : string) : option Handler :=
  let key := handlerKey event version in
  SDK.handlers s !! key.

Definition eventStep (st : list string * gmap string bool) (h : Handler)
    : list string * gmap string bool :=
  let '(names, seen) := st in
  if negb (default false (seen !! HandlerMetadata.Event h))
  then (names ++ [HandlerMetadata.Event h],
        <[HandlerMetadata.Event h := true]> seen)
  else (names, seen).

(** [range] is the order in which [for _, h := range s.handlers] yields the
    handlers. *)
Definition EventNames (s : Sdk) (range : list Handler) : list string :=
  fst (fold_left eventStep range ([], ∅)).

(** The pair that HandleWebhook returns. The telemetry record that it sends
    after the handler has run is not part of the result. *)
Definition HandleWebhook (now : Z) (s : Sdk) (ctx : Ctx) (body : list byte)
    (headers : Headers) : option Result * option error :=
  match VerifySignature now (Config.WebhookSecret (SDK.config s)) body
          headers with
  | Some err => (None, Some err)
  | None =>
      match unmarshal body with
      | inr err =>
          (None,
           Some (wrapError
                   (String.append "failed to parse webhook payload: "
                                  (Error err)) err))
      | inl payload =>
          let event := match payload !! "event"%string with
                       | Some v => default EmptyString (asString v)
                       | None => EmptyString
                       end in
          let version := index headers "X-Kiket-Event-Version" in
          let version := if String.eqb version ""
                         then index headers "x-kiket-event-version"
                         else version in
          let version := if String.eqb version "" then "v1"%string
                         else version in
          match GetHandler s event version with
          | None =>
              (None,
               Some (errorString
                       (String.append "no handler registered for event "
                          (String.append event
                             (String.append " (version "
                                (String.append version ")"))))))
          | Some handler =>
              let handlerCtx :=
                HandlerContext.Make event version headers (SDK.client s)
                  (SDK.endpoints s) (Config.Settings (SDK.config s))
                  (Config.ExtensionID (SDK.config s))
                  (Config.ExtensionVersion (SDK.config s))
                  (endpointsSecrets (SDK.endpoints s)) in
              HandlerMetadata.Handler handler ctx payload handlerCtx
          end
      end
  end.

(* for k, v := range r.Header: headers[k] = v[0] when v is not empty *)
Definition convertHeaders (header : gmap string (list string)) : Headers :=
  omap (fun v => match v with
                 | x :: _ => Some x
                 | [] => None
                 end) header.

Definition jsonHeader : gmap string string :=
  <["Content-Type" := "application/json"%string]> ∅.

Definition ServeHTTP (now : Z) (s : Sdk) (r : Request.t Ctx) : Response.t :=
  if negb (String.eqb (Request.Method r) http.MethodPost) then
    http.Error "Method not allowed" http.StatusMethodNotAllowed
  else
    match Request.Body r with
    | inr _ => http.Error "Failed to read request body" http.StatusBadRequest
    | inl body =>
        let headers := convertHeaders (Request.Header r) in
        match HandleWebhook now s (Request.Context r) body headers with
        | (_, Some err) =>
            if IsAuthenticationError (Some err)
            then http.Error (Error err) http.StatusUnauthorized
            else http.Error (Error err) http.StatusInternalServerError
        | (Some result, None) =>
            (* json.NewEncoder(w).Encode(result): the encoding and a newline,
               or nothing when the encoding fails *)
            match encodeResult result with
            | Some js => Response.Make http.StatusOK jsonHeader
                           (js ++ [http.newline])
            | None => Response.Make http.StatusOK jsonHeader []
            end
        | (None, None) =>
            Response.Make http.StatusOK jsonHeader (list_byte_of_string "{}")
        end
    end.

End Webhook.

(* the string holds no ':' *)
Fixpoint noColon (s : string) : bool :=
  match s with
  | EmptyString => true
  | String c rest => negb (Ascii.eqb c ":") && noColon rest
  end.


Arguments On {V Result Ctx ClientT EndpointsT SecretManagerT} _ _ _ _.
Arguments GetHandler {V Result Ctx ClientT EndpointsT SecretManagerT} _ _ _.
Arguments EventNames {V Result Ctx ClientT EndpointsT SecretManagerT} _ _.
Arguments HandleWebhook {V Result Ctx ClientT EndpointsT SecretManagerT}
  _ _ _ _ _ _ _ _.
Arguments ServeHTTP {V Result Ctx ClientT EndpointsT SecretManagerT}
  _ _ _ _ _ _ _.

(* the version under which HandleWebhook looks the handler up *)
Definition eventVersion (headers : Headers) : string :=
  let version := headerValue headers "X-Kiket-Event-Version"
                   "x-kiket-event-version" in
  if String.eqb version "" then "v1"%string else version.

(* the event name under which HandleWebhook looks the handler up *)
Definition eventName {V : Type} (asString : V -> option string)
    (payload : gmap string V) : string :=
  match payload !! "event"%string with
  | Some v => default EmptyString (asString v)
  | None => EmptyString
  end.

(* the handlers held by the registry, in some order *)
Definition registered {V Result Ctx ClientT EndpointsT SecretManagerT : Type}
    (s : SDK.t V Result Ctx ClientT EndpointsT SecretManagerT)
    : list (HandlerMetadata.t V Result Ctx ClientT EndpointsT SecretManagerT) :=
  map snd (map_to_list (SDK.handlers s)).


(** An SDK over string values whose handlers answer with a string; the
    client, the endpoints and the secret manager carry nothing. *)
Definition exampleConfig : Config.t string :=
  Config.Make "s3cr3t" "" "" "" ∅ "ext" "1.0" "" false false "".

Definition exampleSDK : SDK.t string string unit unit unit unit :=
  SDK.Make exampleConfig tt tt ∅.

(* a handler that answers with the event of its context *)
Definition echoEvent : WebhookHandler string string unit unit unit unit :=
  fun _ _ handlerCtx => (Some (HandlerContext.Event handlerCtx), None).

Definition examplePayload : gmap string string :=
  <["event" := "issue.created"%string]> ∅.

Definition exampleUnmarshal (body : list byte) : gmap string string + error :=
  if bytes.Equal body (list_byte_of_string "{}") then inl examplePayload
  else inr (errorString "unexpected end of JSON input").

Definition exampleRequest : Request.t unit :=
  let generated := GenerateSignature 0 "s3cr3t" "{}" (Some 1700000000) in
  Request.Make "POST" (inl (list_byte_of_string "{}"))
    (<["X-Kiket-Signature" := [fst generated]]>
       (<["X-Kiket-Timestamp" := [snd generated; "0"%string]]> ∅)) tt.


(** ** net/url: escaping and the encoding of query values *)

Module url.

(* the two modes of escaping that this package reaches: url.PathEscape and,
   through Values.Encode, url.QueryEscape *)
Inductive encoding : Type :=
| encodePathSegment
| encodeQueryComponent.

Definition oneOf (c : ascii) (chars : string) : bool :=
  existsb (Ascii.eqb c) (list_ascii_of_string chars).

Definition shouldEscape (c : ascii) (mode : encoding) : bool :=
  let n := hex.code c in
  if ((97 <=? n) && (n <=? 122)) || ((65 <=? n) && (n <=? 90))
     || ((48 <=? n) && (n <=? 57))
  then false
  else if oneOf c "-_.~" then false
  else if oneOf c "$&+,/:;=?@" then
    match mode with
    | encodePathSegment => oneOf c "/;,?"
    | encodeQueryComponent => true
    end
  else true.

Definition upperhex : list ascii := list_ascii_of_string "0123456789ABCDEF".

(* what escape writes for one byte of its input *)
Definition escapeByte (c : ascii) (mode : encoding) : string :=
  if shouldEscape c mode then
    match mode with
    | encodeQueryComponent =>
        if Ascii.eqb c " " then "+"%string
        else String "%"
               (String (nth (Z.to_nat (Z.shiftr (hex.code c) 4)) upperhex "0"%char)
                  (String (nth (Z.to_nat (Z.land (hex.code c) 15)) upperhex
                             "0"%char) EmptyString))
    | encodePathSegment =>
        String "%"
          (String (nth (Z.to_nat (Z.shiftr (hex.code c) 4)) upperhex "0"%char)
             (String (nth (Z.to_nat (Z.land (hex.code c) 15)) upperhex
                        "0"%char) EmptyString))
    end
  else String c EmptyString.

(* escape returns its input when no byte needs escaping, which is what
   writing every byte as it stands gives *)
Fixpoint escape (s : string) (mode : encoding) : string :=
  match s with
  | EmptyString => EmptyString
  | String c rest => String.append (escapeByte c mode) (escape rest mode)
  end.

Definition QueryEscape (s : string) : string := escape s encodeQueryComponent.

Definition PathEscape (s : string) : string := escape s encodePathSegment.

Abbreviation Values := (gmap string (list string)).

Definition Set_ (v : Values) (key value : string) : Values :=
  <[key := [value]]> v.

(* one turn of the inner loop of Encode on the buffer *)
Definition writeValue (keyEscaped : string) (buf v : string) : string :=
  let buf := if (0 <? String.length buf)%nat then String.append buf "&"
             else buf in
  String.append buf
    (String.append keyEscaped (String.append "=" (QueryEscape v))).

(* Encode sorts the keys before it writes, so the order in which the map
   yields them does not show *)
Definition Encode (v : Values) : string :=
  if (size v =? 0)%nat then EmptyString
  else
    let keys := merge_sort String.le (map fst (map_to_list v)) in
    fold_left
      (fun buf k =>
         let vs := default [] (v !! k) in
         let keyEscaped := QueryEscape k in
         fold_left (writeValue keyEscaped) vs buf)
      keys EmptyString.

End url.

(** ** package kiket: client.go, the URL that doRequest asks for *)

Module RequestOptions.
Record t : Type := Make {
  Headers : gmap string string;
  Timeout : Z;
  Params : gmap string string
}.
End RequestOptions.

(* fullURL of doRequest; opts is a pointer, None when it is nil *)
Definition fullURL (baseURL path : string) (opts : option RequestOptions.t)
    : string :=
  let fullURL := String.append baseURL path in
  match opts with
  | Some o =>
      if (0 <? size (RequestOptions.Params o))%nat then
        let params :=
          map_fold (fun k v params => url.Set_ params k v) ∅
            (RequestOptions.Params o) in
        String.append fullURL (String.append "?" (url.Encode params))
      else fullURL
  | None => fullURL
  end.

(** ** package kiket: the audit client's requests *)

(* From and To are pointers to a time.Time, of type [Time] here *)
Module ListAnchorsOptions.
Record t (Time : Type) : Type := Make {
  Status : string;
  Network : string;
  From : option Time;
  To : option Time;
  Page : Z;
  PerPage : Z
}.
Arguments Make {Time} _ _ _ _ _ _.
Arguments Status {Time} _.
Arguments Network {Time} _.
Arguments From {Time} _.
Arguments To {Time} _.
Arguments Page {Time} _.
Arguments PerPage {Time} _.
End ListAnchorsOptions.

Section AuditRequests.

Variable Time : Type.
(* t.Format(time.RFC3339) *)
Variable formatRFC3339 : Time -> string.
Variable Result : Type.
(* c.client.Get(path) *)
Variable get : string -> list byte + error.
(* json.Unmarshal(resp, &result) *)
Variable unmarshal : list byte -> Result + error.

(* strconv.Itoa *)
Definition Itoa (i : Z) : string := strconv.FormatInt i.

Definition listAnchorsParams (opts : ListAnchorsOptions.t Time) : url.Values :=
  let params : url.Values := ∅ in
  let params :=
    if 0 <? ListAnchorsOptions.Page opts
    then url.Set_ params "page" (Itoa (ListAnchorsOptions.Page opts))
    else url.Set_ params "page" "1" in
  let params :=
    if 0 <? ListAnchorsOptions.PerPage opts
    then url.Set_ params "per_page" (Itoa (ListAnchorsOptions.PerPage opts))
    else url.Set_ params "per_page" "25" in
  let params :=
    if negb (String.eqb (ListAnchorsOptions.Status opts) "")
    then url.Set_ params "status" (ListAnchorsOptions.Status opts)
    else params in
  let params :=
    if negb (String.eqb (ListAnchorsOptions.Network opts) "")
    then url.Set_ params "network" (ListAnchorsOptions.Network opts)
    else params in
  let params :=
    match ListAnchorsOptions.From opts with
    | Some t => url.Set_ params "from" (formatRFC3339 t)
    | None => params
    end in
  match ListAnchorsOptions.To opts with
  | Some t => url.Set_ params "to" (formatRFC3339 t)
  | None => params
  end.

(* the path that ListAnchors hands to the client *)
Definition listAnchorsPath (opts : ListAnchorsOptions.t Time) : string :=
  String.append "/api/v1/audit/anchors?" (url.Encode (listAnchorsParams opts)).

Definition ListAnchors (opts : ListAnchorsOptions.t Time)
    : option Result * option error :=
  match get (listAnchorsPath opts) with
  | inr err => (None, Some err)
  | inl resp =>
      match unmarshal resp with
      | inr err =>
          (None,
           Some (wrapError
                   (String.append "failed to parse response: " (Error err))
                   err))
      | inl result => (Some result, None)
      end
  end.

End AuditRequests.

(** ** package kiket: the custom data client's paths *)

Definition apiPrefix : string := "/api/v1".

(* recordID is an interface{}: None is nil, and [formatV] is what the verb
   %v prints for a value *)
Definition buildPath {V : Type} (formatV : V -> string)
    (moduleKey table : string) (recordID : option V) : string :=
  let base :=
    String.append apiPrefix
      (String.append "/ext/custom_data/"
         (String.append (url.PathEscape moduleKey)
            (String.append "/" (url.PathEscape table)))) in
  match recordID with
  | Some id => String.append base (String.append "/" (formatV id))
  | None => base
  end.

(** ** Reading a URL back: what a server makes of a path and of a query *)

(* the string holds the byte *)
Fixpoint contains (c : ascii) (s : string) : bool :=
  match s with
  | EmptyString => false
  | String d rest => Ascii.eqb d c || contains c rest
  end.

(* the pieces between the occurrences of a separator *)
Fixpoint splitOn (sep : ascii) (s : string) : list string :=
  match s with
  | EmptyString => [EmptyString]
  | String c rest =>
      if Ascii.eqb c sep then EmptyString :: splitOn sep rest
      else match splitOn sep rest with
           | piece :: pieces => String c piece :: pieces
           | [] => [String c EmptyString]
           end
  end.

(* the parts before and after the first occurrence of a separator *)
Fixpoint cut (sep : ascii) (s : string) : string * string :=
  match s with
  | EmptyString => (EmptyString, EmptyString)
  | String c rest =>
      if Ascii.eqb c sep then (EmptyString, rest)
      else let '(before, after) := cut sep rest in (String c before, after)
  end.

(* percent-decoding; a plus sign is a space in a query component only *)
Fixpoint unescape (mode : url.encoding) (s : string) : option string :=
  match s with
  | EmptyString => Some EmptyString
  | String c rest =>
      if Ascii.eqb c "%" then
        match rest with
        | String h (String l rest') =>
            match hex.fromHexChar h, hex.fromHexChar l with
            | Some a, Some b =>
                option_map
                  (String (ascii_of_N (Z.to_N (Z.lor (Z.shiftl a 4) b))))
                  (unescape mode rest')
            | _, _ => None
            end
        | _ => None
        end
      else
        let c' := match mode with
                  | url.encodeQueryComponent =>
                      if Ascii.eqb c "+" then " "%char else c
                  | url.encodePathSegment => c
                  end in
        option_map (String c') (unescape mode rest)
  end.

(* one key=value piece of a query *)
Definition parsePiece (piece : string) : option (string * string) :=
  if contains ";" piece then None
  else
    let '(key, value) := cut "=" piece in
    match unescape url.encodeQueryComponent key,
          unescape url.encodeQueryComponent value with
    | Some key, Some value => Some (key, value)
    | _, _ => None
    end.

Fixpoint parsePieces (pieces : list string) : option (list (string * string)) :=
  match pieces with
  | [] => Some []
  | piece :: rest =>
      if String.eqb piece "" then parsePieces rest
      else match parsePiece piece, parsePieces rest with
           | Some kv, Some kvs => Some (kv :: kvs)
           | _, _ => None
           end
  end.

(* the keys and values of a query, in the order of the query *)
Definition parseQuery (query : string) : option (list (string * string)) :=
  parsePieces (splitOn "&" query).

(* the parameters that ListAnchors sends, in the order of their keys *)
Definition anchorParameters {Time : Type} (formatRFC3339 : Time -> string)
    (opts : ListAnchorsOptions.t Time) : list (string * string) :=
  match ListAnchorsOptions.From opts with
  | Some t => [("from"%string, formatRFC3339 t)]
  | None => []
  end
  ++ (if String.eqb (ListAnchorsOptions.Network opts) "" then []
      else [("network"%string, ListAnchorsOptions.Network opts)])
  ++ [("page"%string,
       if 0 <? ListAnchorsOptions.Page opts
       then strconv.FormatInt (ListAnchorsOptions.Page opts) else "1"%string);
      ("per_page"%string,
       if 0 <? ListAnchorsOptions.PerPage opts
       then strconv.FormatInt (ListAnchorsOptions.PerPage opts)
       else "25"%string)]
  ++ (if String.eqb (ListAnchorsOptions.Status opts) "" then []
      else [("status"%string, ListAnchorsOptions.Status opts)])
  ++ match ListAnchorsOptions.To opts with
     | Some t => [("to"%string, formatRFC3339 t)]
     | None => []
     end.


(* the piece that Encode writes for a key and a value *)
Definition queryPiece (kv : string * string) : string :=
  String.append (url.QueryEscape (fst kv))
    (String.append "=" (url.QueryEscape (snd kv))).

(* the buffer of Encode after the pairs of a list *)
Definition writePairs (pairs : list (string * string)) (buf : string)
    : string :=
  fold_left (fun buf kv => url.writeValue (url.QueryEscape (fst kv)) buf
                             (snd kv)) pairs buf.

(* the keys and values of a url.Values in the order of Encode *)
Definition sortedPairs (v : url.Values) : list (string * string) :=
  flat_map (fun k => map (pair k) (default [] (v !! k)))
    (merge_sort String.le (map fst (map_to_list v))).

Definition exampleOptions : RequestOptions.t :=
  RequestOptions.Make ∅ 0 (<["filter" := "a&b=c d"%string]> ∅).


(* HMAC-SHA256 under the secret of the timestamp, a dot and the body *)
Definition signedMAC (secret timestamp : string) (body : list byte)
    : list byte :=
  hmac.Sum
    (hmac.Write (hmac.New (list_byte_of_string secret))
       (list_byte_of_string
          (String.append timestamp
             (String.append "." (string_of_list_byte body))))).


Definition exampleAnchorsOptions : ListAnchorsOptions.t string :=
  ListAnchorsOptions.Make "confirmed&page=9" "" None None 0 50.

(** * Properties *)

(** The proofs below never look inside SHA-256. *)
Local Opaque sha256.Sum256.

(** ** Bytes *)

Lemma byte_to_Z_inj (x y : byte) : byte_to_Z x = byte_to_Z y -> x = y.
Proof.
  unfold byte_to_Z. intros H. apply N2Z.inj in H.
  assert (Hx := Byte.of_to_N x). rewrite H, Byte.of_to_N in Hx.
  congruence.
Qed.

Lemma byte_to_Z_range (x : byte) : 0 <= byte_to_Z x <= 255.
Proof.
  unfold byte_to_Z. pose proof (Byte.to_N_bounded x). lia.
Qed.

Lemma byte_of_to_Z (x : byte) : byte_of_Z (byte_to_Z x) = x.
Proof.
  unfold byte_of_Z. pose proof (byte_to_Z_range x) as Hr.
  rewrite Z.mod_small by lia. unfold byte_to_Z.
  rewrite N2Z.id, Byte.of_to_N. reflexivity.
Qed.

Lemma bytes_Equal_eq (a b : list byte) : bytes.Equal a b = true <-> a = b.
Proof.
  revert b. induction a as [|x a IH]; intros [|y b]; simpl;
    try (split; congruence).
  rewrite andb_true_iff, IH. split.
  - intros [Hxy ->]. apply Byte.byte_dec_bl in Hxy. congruence.
  - intros [= -> ->]. split; [apply Byte.byte_dec_lb|]; reflexivity.
Qed.

Lemma bytes_Equal_refl (a : list byte) : bytes.Equal a a = true.
Proof. apply bytes_Equal_eq. reflexivity. Qed.

Lemma bytes_Equal_neq (a b : list byte) : bytes.Equal a b = false <-> a <> b.
Proof.
  rewrite <- bytes_Equal_eq. destruct (bytes.Equal a b); split; congruence.
Qed.

Lemma Compare_antisym (a b : list byte) :
  bytes.Compare b a = - bytes.Compare a b.
Proof.
  revert b. induction a as [|x a IH]; intros [|y b]; simpl; try reflexivity.
  destruct (Z.ltb_spec (byte_to_Z x) (byte_to_Z y));
    destruct (Z.ltb_spec (byte_to_Z y) (byte_to_Z x)); try lia; auto.
Qed.

Lemma Compare_eq (a b : list byte) : bytes.Compare a b = 0 -> a = b.
Proof.
  revert b. induction a as [|x a IH]; intros [|y b]; simpl; try discriminate;
    auto.
  destruct (Z.ltb_spec (byte_to_Z x) (byte_to_Z y)); [discriminate|].
  destruct (Z.ltb_spec (byte_to_Z y) (byte_to_Z x)); [discriminate|].
  intros Hc. f_equal; [apply byte_to_Z_inj; lia | auto].
Qed.

(** ** The Merkle combine step *)

Lemma hashPair_sortedPair (a b : list byte) :
  hashPair a b = sha256.Sum256 (fst (sortedPair a b) ++ snd (sortedPair a b)).
Proof.
  unfold hashPair, sortedPair.
  destruct (Z.ltb_spec 0 (bytes.Compare a b));
    destruct (Z.leb_spec (bytes.Compare a b) 0); try lia; reflexivity.
Qed.

Lemma sortedPair_comm (a b : list byte) : sortedPair a b = sortedPair b a.
Proof.
  unfold sortedPair. rewrite (Compare_antisym a b).
  destruct (Z.leb_spec (bytes.Compare a b) 0);
    destruct (Z.leb_spec (- bytes.Compare a b) 0); try lia; try reflexivity.
  assert (a = b) by (apply Compare_eq; lia). subst. reflexivity.
Qed.

Lemma sortedPair_sorted (a b : list byte) :
  bytes.Compare (fst (sortedPair a b)) (snd (sortedPair a b)) <= 0.
Proof.
  unfold sortedPair. destruct (Z.leb_spec (bytes.Compare a b) 0); simpl.
  - assumption.
  - rewrite Compare_antisym. lia.
Qed.

Lemma hashPair_comm (a b : list byte) : hashPair a b = hashPair b a.
Proof. rewrite !hashPair_sortedPair, (sortedPair_comm a b). reflexivity. Qed.

Lemma proofStep_index (current : list byte) (i j : Z) (siblingHex : string) :
  fst (proofStep (current, i) siblingHex)
  = fst (proofStep (current, j) siblingHex).
Proof.
  unfold proofStep.
  destruct (Z.rem i 2 =? 0), (Z.rem j 2 =? 0); simpl;
    auto using hashPair_comm.
Qed.

Lemma proofStep_hashPair (current : list byte) (i : Z) (siblingHex : string) :
  proofStep (current, i) siblingHex
  = (hashPair current (normalizeHash siblingHex), Z.quot i 2).
Proof.
  unfold proofStep. destruct (Z.rem i 2 =? 0); [reflexivity|].
  rewrite hashPair_comm. reflexivity.
Qed.

Lemma proofPath_index (proofPath : list string) :
  forall (current : list byte) (i j : Z),
    fst (fold_left proofStep proofPath (current, i))
    = fst (fold_left proofStep proofPath (current, j)).
Proof.
  induction proofPath as [|s rest IH]; intros current i j; cbn [fold_left].
  - reflexivity.
  - rewrite !proofStep_hashPair. apply IH.
Qed.

(** C1. The combine step hashes its two operands in increasing byte order,
    so it is commutative; hence VerifyProofLocally gives the same answer for
    any two leaf indices. *)
Theorem VerifyProofLocally_index_irrelevant :
  (forall a b : list byte,
      hashPair a b
      = sha256.Sum256 (fst (sortedPair a b) ++ snd (sortedPair a b))
      /\ bytes.Compare (fst (sortedPair a b)) (snd (sortedPair a b)) <= 0
      /\ (sortedPair a b = (a, b) \/ sortedPair a b = (b, a))
      /\ hashPair a b = hashPair b a)
  /\ (forall (contentHash : string) (proofPath : list string)
             (merkleRoot : string) (i j : Z),
        VerifyProofLocally contentHash proofPath i merkleRoot
        = VerifyProofLocally contentHash proofPath j merkleRoot).
Proof.
  split.
  - intros a b. repeat split.
    + apply hashPair_sortedPair.
    + apply sortedPair_sorted.
    + unfold sortedPair. destruct (bytes.Compare a b <=? 0); auto.
    + apply hashPair_comm.
  - intros contentHash proofPath merkleRoot i j. unfold VerifyProofLocally.
    pose proof (proofPath_index proofPath (normalizeHash contentHash) i j)
      as Hfst.
    destruct (fold_left proofStep proofPath (normalizeHash contentHash, i)),
             (fold_left proofStep proofPath (normalizeHash contentHash, j)).
    simpl in Hfst. subst. reflexivity.
Qed.

(** ** encoding/hex *)

Lemma string_pair_ind (P : string -> Prop) :
  P EmptyString ->
  (forall a, P (String a EmptyString)) ->
  (forall a b s, P s -> P (String a (String b s))) ->
  forall s, P s.
Proof.
  intros H0 H1 H2. fix IH 1. intros [|a [|b s]].
  - exact H0.
  - apply H1.
  - apply H2, IH.
Qed.

Lemma append_nil_l (s : string) : String.append EmptyString s = s.
Proof. reflexivity. Qed.

Lemma append_cons (c : ascii) (s t : string) :
  String.append (String c s) t = String c (String.append s t).
Proof. reflexivity. Qed.

Lemma append_empty_r (s : string) : String.append s EmptyString = s.
Proof.
  induction s as [|c s IH]; [reflexivity|]. rewrite append_cons, IH.
  reflexivity.
Qed.

Lemma append_assoc (a b c : string) :
  String.append (String.append a b) c = String.append a (String.append b c).
Proof.
  induction a as [|x a IH]; [reflexivity|]. rewrite !append_cons, IH.
  reflexivity.
Qed.

Lemma length_append (a b : string) :
  String.length (String.append a b) = (String.length a + String.length b)%nat.
Proof.
  induction a as [|x a IH]; [reflexivity|]. rewrite append_cons. simpl.
  rewrite IH. reflexivity.
Qed.

Lemma encodeByte_spec (b : byte) :
  exists p q x y,
    hex.encodeByte b = String p (String q EmptyString) /\
    hex.fromHexChar p = Some x /\ hex.fromHexChar q = Some y /\
    byte_of_Z (Z.lor (Z.shiftl x 4) y) = b.
Proof.
  destruct b; do 4 eexists; (split; [reflexivity|]);
    (split; [reflexivity|]); (split; [reflexivity|]); reflexivity.
Qed.

Lemma Decode_encodeByte (b : byte) (s : string) :
  hex.Decode (String.append (hex.encodeByte b) s)
  = (b :: fst (hex.Decode s), snd (hex.Decode s)).
Proof.
  destruct (encodeByte_spec b) as (p & q & x & y & -> & Hp & Hq & Hb).
  change (String.append (String p (String q EmptyString)) s)
    with (String p (String q s)).
  cbn [hex.Decode]. rewrite Hp, Hq, Hb.
  destruct (hex.Decode s); reflexivity.
Qed.

Lemma Decode_EncodeToString_app (bs : list byte) (rest : string) :
  hex.Decode (String.append (hex.EncodeToString bs) rest)
  = (bs ++ fst (hex.Decode rest), snd (hex.Decode rest)).
Proof.
  induction bs as [|b bs IH]; cbn [hex.EncodeToString].
  - rewrite append_nil_l. destruct (hex.Decode rest); reflexivity.
  - rewrite append_assoc, Decode_encodeByte, IH. reflexivity.
Qed.

Lemma Decode_EncodeToString (bs : list byte) :
  hex.Decode (hex.EncodeToString bs) = (bs, None).
Proof.
  rewrite <- (append_empty_r (hex.EncodeToString bs)).
  rewrite Decode_EncodeToString_app. simpl. rewrite app_nil_r. reflexivity.
Qed.

Lemma Decode_noHexPair (s : string) : noHexPair s -> fst (hex.Decode s) = [].
Proof.
  destruct s as [|p [|q s]]; simpl; auto.
  - destruct (hex.fromHexChar p); reflexivity.
  - intros [-> | Hq]; [reflexivity|].
    rewrite Hq. destruct (hex.fromHexChar p); reflexivity.
Qed.

Lemma length_EncodeToString (bs : list byte) :
  String.length (hex.EncodeToString bs) = (2 * length bs)%nat.
Proof.
  induction bs as [|b bs IH]; [reflexivity|].
  cbn [hex.EncodeToString length]. rewrite length_append, IH.
  unfold hex.encodeByte. simpl. lia.
Qed.

Lemma isLowerHexDigit_hextable (c : ascii) :
  isLowerHexDigit c = true -> In c hex.hextable.
Proof.
  destruct c as [[] [] [] [] [] [] [] []]; intros H;
    try discriminate H; cbv; clear H;
    repeat (first [left; reflexivity | right]).
Qed.

Lemma encodeByte_lower (p q : ascii) :
  isLowerHexDigit p = true -> isLowerHexDigit q = true ->
  exists a b, hex.fromHexChar p = Some a /\ hex.fromHexChar q = Some b /\
              hex.encodeByte (byte_of_Z (Z.lor (Z.shiftl a 4) b))
              = String p (String q EmptyString).
Proof.
  intros Hp Hq.
  apply isLowerHexDigit_hextable in Hp, Hq.
  unfold hex.hextable in Hp, Hq. cbn [list_ascii_of_string In] in Hp, Hq.
  repeat (destruct Hp as [<- | Hp]; [|]); try contradiction;
    repeat (destruct Hq as [<- | Hq]; [|]); try contradiction;
    do 2 eexists; (split; [reflexivity | split; [reflexivity|]]);
    vm_compute; reflexivity.
Qed.

Lemma Encode_Decode_lower (t : string) :
  allLowerHex t = true -> Nat.even (String.length t) = true ->
  hex.EncodeToString (fst (hex.Decode t)) = t.
Proof.
  induction t as [| a | a b t IH] using string_pair_ind.
  - reflexivity.
  - simpl. discriminate.
  - cbn [allLowerHex String.length Nat.even].
    rewrite !andb_true_iff. intros (Ha & Hb & Ht) Hev.
    destruct (encodeByte_lower a b Ha Hb) as (x & y & Hx & Hy & Henc).
    cbn [hex.Decode]. rewrite Hx, Hy.
    destruct (hex.Decode t) as [d e] eqn:Hd. cbn [fst hex.EncodeToString].
    rewrite Henc, !append_cons, append_nil_l. do 2 f_equal.
    apply IH; assumption.
Qed.

(** ** normalizeHash *)

Lemma substring_0_length (s : string) :
  String.substring 0 (String.length s) s = s.
Proof. induction s; simpl; congruence. Qed.

Lemma substring_0_0 (s : string) : String.substring 0 0 s = EmptyString.
Proof. destruct s; reflexivity. Qed.

Lemma normalizeHash_0x (s : string) :
  normalizeHash (String.append "0x" s) = fst (hex.Decode s).
Proof.
  change (String.append "0x" s) with (String "0" (String "x" s)).
  unfold normalizeHash, hex.DecodeString.
  cbn [String.length Nat.leb String.substring Nat.sub andb].
  rewrite substring_0_0, Nat.sub_0_r, substring_0_length. reflexivity.
Qed.

Lemma normalizeHash_EncodeToString (bs : list byte) :
  normalizeHash (String.append "0x" (hex.EncodeToString bs)) = bs.
Proof. rewrite normalizeHash_0x, Decode_EncodeToString. reflexivity. Qed.

Lemma isHash_inv (s : string) :
  isHash s = true ->
  exists t, s = String.append "0x" t /\ String.length t = 64%nat /\
            allLowerHex t = true.
Proof.
  destruct s as [|c0 [|c1 t]]; try discriminate.
  - destruct c0 as [[] [] [] [] [] [] [] []]; discriminate.
  - unfold isHash.
    destruct (Ascii.eqb_spec c0 "0"), (Ascii.eqb_spec c1 "x"); subst.
    + rewrite andb_true_iff, Nat.eqb_eq. intros [Hl Ha]. eauto.
    + destruct c1 as [[] [] [] [] [] [] [] []]; try discriminate; congruence.
    + destruct c0 as [[] [] [] [] [] [] [] []]; try discriminate; congruence.
    + destruct c0 as [[] [] [] [] [] [] [] []]; try discriminate; congruence.
Qed.

Lemma isHash_canonical (s : string) :
  isHash s = true ->
  s = String.append "0x" (hex.EncodeToString (normalizeHash s)) /\
  length (normalizeHash s) = 32%nat.
Proof.
  intros (t & -> & Hlen & Hlow)%isHash_inv.
  rewrite normalizeHash_0x.
  assert (Henc : hex.EncodeToString (fst (hex.Decode t)) = t).
  { apply Encode_Decode_lower; [assumption|]. rewrite Hlen. reflexivity. }
  split; [congruence|].
  pose proof (length_EncodeToString (fst (hex.Decode t))) as Hl.
  rewrite Henc, Hlen in Hl. lia.
Qed.

Lemma isHash_normalizeHash_inj (h r : string) :
  isHash h = true -> isHash r = true ->
  normalizeHash h = normalizeHash r -> h = r.
Proof.
  intros [Hh _]%isHash_canonical [Hr _]%isHash_canonical Heq.
  rewrite Hh, Hr, Heq. reflexivity.
Qed.

Lemma normalizeHash_invalid (s : string) :
  invalidFromFirstByte s -> normalizeHash s = [].
Proof.
  destruct s as [|p rest]; [contradiction|]. intros Hp. simpl in Hp.
  unfold normalizeHash, hex.DecodeString.
  destruct ((2 <=? String.length (String p rest))%nat &&
            String.eqb (String.substring 0 2 (String p rest)) "0x") eqn:Hc.
  - apply andb_true_iff in Hc as [_ Hc].
    cbn [String.substring] in Hc. apply String.eqb_eq in Hc.
    injection Hc as -> _. discriminate Hp.
  - destruct rest as [|q rest]; cbn [hex.Decode]; rewrite Hp; reflexivity.
Qed.

(** ** VerifyProofLocally on short proofs *)

Lemma VerifyProofLocally_nil (h r : string) (i : Z) :
  VerifyProofLocally h [] i r
  = bytes.Equal (normalizeHash h) (normalizeHash r).
Proof. reflexivity. Qed.

Lemma VerifyProofLocally_one (L0 s r : string) (i : Z) :
  VerifyProofLocally L0 [s] i r
  = bytes.Equal (hashPair (normalizeHash L0) (normalizeHash s))
                (normalizeHash r).
Proof.
  unfold VerifyProofLocally. cbn [fold_left].
  rewrite proofStep_hashPair. reflexivity.
Qed.

Lemma normalizeHash_sortedPairRoot (L0 L1 : string) :
  normalizeHash (sortedPairRoot L0 L1)
  = hashPair (normalizeHash L0) (normalizeHash L1).
Proof.
  unfold sortedPairRoot. rewrite normalizeHash_EncodeToString.
  symmetry. apply hashPair_sortedPair.
Qed.


(** C6. Single-leaf tree: with an empty proof every hash verifies against
    itself, and a hash never verifies against a root that is a different
    hash, a hash being "0x" and 64 lowercase hex characters. The verifier
    compares the decoded values: a root is rejected exactly when it decodes
    to other bytes than the leaf hash. *)
Theorem single_leaf_proof (h r : string) :
  VerifyProofLocally h [] 0 h = true
  /\ (VerifyProofLocally h [] 0 r = false
      <-> normalizeHash r <> normalizeHash h)
  /\ (isHash h = true -> isHash r = true -> r <> h ->
      VerifyProofLocally h [] 0 r = false).
Proof.
  rewrite !VerifyProofLocally_nil. split; [apply bytes_Equal_refl|].
  rewrite bytes_Equal_neq. split.
  - split; intros H Heq; apply H; congruence.
  - intros Hh Hr Hne Heq. apply Hne. symmetry.
    apply isHash_normalizeHash_inj; assumption.
Qed.

Lemma single_leaf_proof_witness :
  let h := "0xe3b0c44298fc1c149afbf4c8996fb92427ae41e4649b934ca495991b7852b855"
  in
  let r := "0xba7816bf8f01cfea414140de5dae2223b00361a396177a9cb410ff61f20015ad"
  in
  isHash h = true /\ isHash r = true /\ r <> h
  /\ VerifyProofLocally h [] 0 r = false.
Proof.
  intros h r.
  assert (Hh : isHash h = true) by reflexivity.
  assert (Hr : isHash r = true) by reflexivity.
  assert (Hne : r <> h) by discriminate.
  split; [exact Hh | split; [exact Hr | split; [exact Hne|]]].
  exact (proj2 (proj2 (single_leaf_proof h r)) Hh Hr Hne).
Defined.




(** Sorted concatenation tells two pairs apart only when the operands have
    one length, as the decoded values of hashes have: for operands of
    different lengths two pairs with different second operands can
    concatenate to the same byte string, and then verify. *)
Example sortedConcat_not_injective :
  normalizeHash "0x0102" <> normalizeHash "0x0201"
  /\ sortedConcat (normalizeHash "0x010201") (normalizeHash "0x0102")
     = sortedConcat (normalizeHash "0x010201") (normalizeHash "0x0201")
  /\ VerifyProofLocally "0x010201" ["0x0102"] 0
       (sortedPairRoot "0x010201" "0x0201") = true.
Proof.
  split; [vm_compute; discriminate|].
  split; [vm_compute; reflexivity|].
  rewrite VerifyProofLocally_one, normalizeHash_sortedPairRoot.
  apply bytes_Equal_eq. rewrite !hashPair_sortedPair.
  reflexivity.
Qed.

Lemma normalizeHash_no_prefix (s : string) :
  (forall t, s <> String "0" (String "x" t)) ->
  normalizeHash s = fst (hex.Decode s).
Proof.
  intros Hs. unfold normalizeHash, hex.DecodeString.
  destruct ((2 <=? String.length s)%nat &&
            String.eqb (String.substring 0 2 s) "0x") eqn:Hc;
    [|reflexivity].
  apply andb_true_iff in Hc as [_ Hc]. apply String.eqb_eq in Hc.
  destruct s as [|a [|b t]]; try discriminate Hc.
  cbn [String.substring] in Hc. injection Hc as -> -> _.
  exfalso. eapply Hs. reflexivity.
Qed.

Lemma normalizeHash_EncodeToString_bare (bs : list byte) :
  normalizeHash (hex.EncodeToString bs) = bs.
Proof.
  rewrite normalizeHash_no_prefix, Decode_EncodeToString; [reflexivity|].
  intros t Ht. destruct bs as [|b bs]; [discriminate Ht|].
  cbn [hex.EncodeToString] in Ht.
  destruct (encodeByte_spec b) as (p & q & x & y & Hb & _ & Hq & _).
  rewrite Hb, !append_cons in Ht. injection Ht as _ -> _.
  discriminate Hq.
Qed.

(** C10. VerifyProofLocally has no error result: the decoding error of
    hex.DecodeString is dropped. The "0x" prefix is optional, only the bytes
    decoded before the first error are kept, and a string whose first byte is
    not a hex digit decodes to the empty byte string; so two such strings
    verify against each other with an empty proof, at every leaf index. *)
Theorem malformed_hashes_verify :
  (forall bs, normalizeHash (hex.EncodeToString bs) = bs
              /\ normalizeHash (String.append "0x" (hex.EncodeToString bs))
                 = bs)
  /\ (forall bs rest, noHexPair rest ->
        normalizeHash
          (String.append "0x" (String.append (hex.EncodeToString bs) rest))
        = bs)
  /\ (forall s, invalidFromFirstByte s -> normalizeHash s = [])
  /\ (forall contentHash merkleRoot i,
        normalizeHash contentHash = [] -> normalizeHash merkleRoot = [] ->
        VerifyProofLocally contentHash [] i merkleRoot = true)
  /\ (forall contentHash merkleRoot i,
        invalidFromFirstByte contentHash ->
        invalidFromFirstByte merkleRoot ->
        VerifyProofLocally contentHash [] i merkleRoot = true).
Proof.
  assert (Hempty : forall contentHash merkleRoot i,
        normalizeHash contentHash = [] -> normalizeHash merkleRoot = [] ->
        VerifyProofLocally contentHash [] i merkleRoot = true).
  { intros c r i Hc Hr. rewrite VerifyProofLocally_nil, Hc, Hr. reflexivity. }
  split.
  { intros bs. split.
    - apply normalizeHash_EncodeToString_bare.
    - apply normalizeHash_EncodeToString. }
  split; [|split; [exact normalizeHash_invalid|split; [exact Hempty|]]].
  - intros bs rest Hrest.
    rewrite normalizeHash_0x, Decode_EncodeToString_app. cbn [fst].
    rewrite Decode_noHexPair by assumption. apply app_nil_r.
  - intros c r i Hc Hr. apply Hempty; apply normalizeHash_invalid; assumption.
Qed.

Lemma malformed_hashes_verify_witness :
  invalidFromFirstByte "not a hash" /\ invalidFromFirstByte "zz"
  /\ normalizeHash "0xq" = [] /\ normalizeHash "0x1" = []
  /\ VerifyProofLocally "not a hash" [] 7 "zz" = true
  /\ VerifyProofLocally "0xq" [] 3 "0x1" = true.
Proof.
  assert (H1 : invalidFromFirstByte "not a hash") by reflexivity.
  assert (H2 : invalidFromFirstByte "zz") by reflexivity.
  assert (H3 : normalizeHash "0xq" = []) by reflexivity.
  assert (H4 : normalizeHash "0x1" = []) by reflexivity.
  destruct malformed_hashes_verify as (_ & _ & _ & Hempty & Hinvalid).
  split; [exact H1 | split; [exact H2 | split; [exact H3 | split; [exact H4|]]]].
  split.
  - exact (Hinvalid "not a hash" "zz" 7 H1 H2).
  - exact (Hempty "0xq" "0x1" 3 H3 H4).
Defined.

(** ** crypto/sha256, crypto/subtle *)

Lemma length_be32 (x : Z) : length (sha256.be32 x) = 4%nat.
Proof. reflexivity. Qed.

Lemma length_Sum256 (data : list byte) : length (sha256.Sum256 data) = 32%nat.
Proof.
  Local Transparent sha256.Sum256.
  unfold sha256.Sum256.
  destruct (sha256.blockGeneric _ _ _) as [a b c d e f g h].
  rewrite !length_app, !length_be32. reflexivity.
  Local Opaque sha256.Sum256.
Qed.

Lemma xor_acc_range (v x y : Z) :
  0 <= v < 2 ^ 8 -> 0 <= x < 2 ^ 8 -> 0 <= y < 2 ^ 8 ->
  0 <= Z.lor v (Z.lxor x y) < 2 ^ 8.
Proof.
  intros Hv Hx Hy.
  assert (Hnn : 0 <= Z.lor v (Z.lxor x y)).
  { apply Z.lor_nonneg. split; [lia|]. apply Z.lxor_nonneg. lia. }
  apply Z.bounded_iff_bits_nonneg'; [lia | exact Hnn |].
  intros l Hl. rewrite Z.lor_spec, Z.lxor_spec.
  rewrite (proj1 (Z.bounded_iff_bits_nonneg' 8 v ltac:(lia) ltac:(lia)) Hv l Hl).
  rewrite (proj1 (Z.bounded_iff_bits_nonneg' 8 x ltac:(lia) ltac:(lia)) Hx l Hl).
  rewrite (proj1 (Z.bounded_iff_bits_nonneg' 8 y ltac:(lia) ltac:(lia)) Hy l Hl).
  reflexivity.
Qed.

Lemma xor_fold_spec (x y : list byte) :
  length x = length y ->
  forall v, 0 <= v < 2 ^ 8 ->
    0 <= fold_left subtle.xor_acc (combine x y) v < 2 ^ 8
    /\ (fold_left subtle.xor_acc (combine x y) v = 0 <-> v = 0 /\ x = y).
Proof.
  revert y. induction x as [|a x IH]; intros [|b y] Hlen v Hv;
    try discriminate Hlen; cbn [combine fold_left].
  - split; [assumption|]. tauto.
  - injection Hlen as Hlen.
    pose proof (byte_to_Z_range a) as Ha. pose proof (byte_to_Z_range b) as Hb.
    assert (Hacc : 0 <= subtle.xor_acc v (a, b) < 2 ^ 8).
    { apply xor_acc_range; simpl; lia. }
    destruct (IH y Hlen _ Hacc) as [Hrange Hiff]. split; [exact Hrange|].
    rewrite Hiff. unfold subtle.xor_acc at 1. cbn [fst snd].
    rewrite Z.lor_eq_0_iff, Z.lxor_eq_0_iff. split.
    + intros [[-> Hab] ->]. apply byte_to_Z_inj in Hab. subst. auto.
    + intros [-> [= -> ->]]. auto.
Qed.

Lemma ConstantTimeByteEq_0 (v : Z) :
  0 <= v < 2 ^ 8 -> (subtle.ConstantTimeByteEq v 0 = 1 <-> v = 0).
Proof.
  intros Hv. unfold subtle.ConstantTimeByteEq.
  rewrite Z.lxor_0_r, Z.shiftr_div_pow2 by lia.
  destruct (Z.eq_dec v 0) as [->|Hne].
  - split; [reflexivity|]. intros _. reflexivity.
  - rewrite Z.mod_small by lia.
    rewrite Z.div_small by lia. split; [discriminate | contradiction].
Qed.

Lemma ConstantTimeCompare_eq (x y : list byte) :
  subtle.ConstantTimeCompare x y = 1 <-> x = y.
Proof.
  unfold subtle.ConstantTimeCompare.
  destruct (Nat.eqb_spec (length x) (length y)) as [Hlen|Hlen]; cbn [negb].
  - destruct (xor_fold_spec x y Hlen 0 ltac:(lia)) as [Hrange Hiff].
    rewrite ConstantTimeByteEq_0 by exact Hrange.
    rewrite Hiff. tauto.
  - split; [discriminate|]. intros ->. contradiction.
Qed.

Lemma list_byte_of_string_inj (a b : string) :
  list_byte_of_string a = list_byte_of_string b -> a = b.
Proof.
  intros H. rewrite <- (string_of_list_byte_of_string a), H.
  apply string_of_list_byte_of_string.
Qed.

(* the constant-time comparison of two strings decides their equality *)
Lemma ConstantTimeCompare_strings (a b : string) :
  negb (subtle.ConstantTimeCompare (list_byte_of_string a)
                                   (list_byte_of_string b) =? 1)
  = negb (String.eqb a b).
Proof.
  f_equal. destruct (String.eqb_spec a b) as [->|Hne].
  - apply Z.eqb_eq, ConstantTimeCompare_eq. reflexivity.
  - apply Z.eqb_neq. intros H. apply ConstantTimeCompare_eq in H.
    apply Hne, list_byte_of_string_inj, H.
Qed.

(** ** strconv *)

Lemma code_digit (d : Z) : 0 <= d <= 9 -> hex.code (strconv.digit d) = 48 + d.
Proof.
  intros Hd. unfold hex.code, strconv.digit.
  rewrite N_ascii_embedding by lia. lia.
Qed.

Lemma parseDigits_app (s1 s2 : string) (n : Z) :
  strconv.parseDigits (String.append s1 s2) n
  = match strconv.parseDigits s1 n with
    | inl n' => strconv.parseDigits s2 n'
    | inr e => inr e
    end.
Proof.
  revert n. induction s1 as [|c s1 IH]; intros n; [reflexivity|].
  rewrite append_cons. cbn [strconv.parseDigits].
  repeat match goal with |- context [if ?b then _ else _] => destruct b end;
    auto.
Qed.

Lemma parseDigits_digit (d n : Z) :
  0 <= d <= 9 -> 0 <= n -> n * 10 + d <= strconv.maxUint64 ->
  strconv.parseDigits (String (strconv.digit d) EmptyString) n
  = inl (n * 10 + d).
Proof.
  unfold strconv.maxUint64. intros Hd Hn Hmax. cbn [strconv.parseDigits].
  rewrite code_digit by assumption. unfold strconv.maxUint64.
  replace ((48 <=? 48 + d) && (48 + d <=? 57)) with true by lia.
  replace (48 + d - 48) with d by lia.
  destruct (Z.leb_spec ((2 ^ 64 - 1) / 10 + 1) n) as [Hc|Hc].
  - exfalso. change ((2 ^ 64 - 1) / 10 + 1) with 1844674407370955162 in Hc.
    lia.
  - rewrite (Z.mod_small (n * 10)) by lia.
    rewrite (Z.mod_small (n * 10 + d)) by lia.
    replace ((n * 10 + d <? n * 10) || (2 ^ 64 - 1 <? n * 10 + d))
      with false by lia.
    reflexivity.
Qed.

Lemma formatBits_acc (fuel : nat) :
  forall u acc,
    strconv.formatBits fuel u acc
    = String.append (strconv.formatBits fuel u EmptyString) acc.
Proof.
  induction fuel as [|fuel IH]; intros u acc; cbn [strconv.formatBits].
  - reflexivity.
  - destruct (u <? 10); [reflexivity|].
    rewrite (IH _ (String _ acc)), (IH _ (String _ EmptyString)).
    rewrite append_assoc. reflexivity.
Qed.

Lemma parseDigits_formatBits (fuel : nat) :
  forall u, 0 <= u < 10 ^ Z.of_nat fuel -> u <= strconv.maxUint64 ->
    strconv.parseDigits (strconv.formatBits fuel u EmptyString) 0 = inl u.
Proof.
  induction fuel as [|fuel IH]; intros u Hu Hmax.
  - cbn [strconv.formatBits strconv.parseDigits]. f_equal.
    change (10 ^ Z.of_nat 0) with 1 in Hu. lia.
  - cbn [strconv.formatBits]. destruct (Z.ltb_spec u 10) as [Hlt|Hge].
    + rewrite parseDigits_digit by lia. reflexivity.
    + rewrite formatBits_acc, parseDigits_app.
      rewrite Nat2Z.inj_succ, Z.pow_succ_r in Hu by lia.
      unfold strconv.maxUint64 in *.
      assert (Hq : 0 <= u / 10 < 10 ^ Z.of_nat fuel).
      { split; [apply Z.div_pos; lia|].
        apply Z.div_lt_upper_bound; lia. }
      assert (Hqm : u / 10 <= 2 ^ 64 - 1).
      { apply Z.div_le_upper_bound; lia. }
      rewrite IH by assumption.
      pose proof (Z.mod_pos_bound u 10 ltac:(lia)) as Hm.
      pose proof (Z.div_mod u 10 ltac:(lia)) as Hdm.
      rewrite parseDigits_digit by (unfold strconv.maxUint64; lia).
      f_equal. lia.
Qed.

Lemma formatBits_digit_acc (fuel : nat) :
  forall u acc, 0 <= u -> startsWithDigit acc ->
    startsWithDigit (strconv.formatBits fuel u acc).
Proof.
  induction fuel as [|fuel IH]; intros u acc Hu Hacc;
    cbn [strconv.formatBits]; [assumption|].
  destruct (Z.ltb_spec u 10).
  - exists u, acc. split; [lia | reflexivity].
  - apply IH; [apply Z.div_pos; lia|].
    exists (u mod 10), acc. split; [|reflexivity].
    pose proof (Z.mod_pos_bound u 10 ltac:(lia)). lia.
Qed.

Lemma formatBits_digit (fuel : nat) (u : Z) :
  0 <= u -> startsWithDigit (strconv.formatBits (S fuel) u EmptyString).
Proof.
  intros Hu. cbn [strconv.formatBits]. destruct (Z.ltb_spec u 10).
  - exists u, EmptyString. split; [lia | reflexivity].
  - apply formatBits_digit_acc; [apply Z.div_pos; lia|].
    exists (u mod 10), EmptyString. split; [|reflexivity].
    pose proof (Z.mod_pos_bound u 10 ltac:(lia)). lia.
Qed.

Lemma digit_not_sign (d : Z) :
  0 <= d <= 9 ->
  Ascii.eqb (strconv.digit d) "+" = false
  /\ Ascii.eqb (strconv.digit d) "-" = false.
Proof.
  intros Hd. pose proof (code_digit d Hd) as Hc.
  split; apply Ascii.eqb_neq; intros Heq; rewrite Heq in Hc.
  - change (hex.code "+") with 43 in Hc. lia.
  - change (hex.code "-") with 45 in Hc. lia.
Qed.

Lemma wrap64_small (z : Z) : - 2 ^ 63 <= z < 2 ^ 63 -> strconv.wrap64 z = z.
Proof.
  intros Hz. unfold strconv.wrap64. rewrite Z.mod_small by lia. lia.
Qed.

Lemma wrap64_range (z : Z) : - 2 ^ 63 <= strconv.wrap64 z < 2 ^ 63.
Proof.
  unfold strconv.wrap64.
  pose proof (Z.mod_pos_bound (z + 2 ^ 63) (2 ^ 64) ltac:(lia)). lia.
Qed.

Lemma ParseUint_formatBits (u : Z) :
  0 <= u <= 2 ^ 63 ->
  strconv.ParseUint (strconv.formatBits 20 u EmptyString) = inl u.
Proof.
  intros Hu.
  destruct (formatBits_digit 19 u ltac:(lia)) as (d & rest & _ & Hs).
  assert (Hp : strconv.parseDigits (strconv.formatBits 20 u EmptyString) 0
               = inl u).
  { apply parseDigits_formatBits; unfold strconv.maxUint64.
    - change (10 ^ Z.of_nat 20) with 100000000000000000000. lia.
    - lia. }
  unfold strconv.ParseUint. rewrite Hs in *. exact Hp.
Qed.

Lemma ParseInt_FormatInt (T : Z) :
  - 2 ^ 63 <= T < 2 ^ 63 -> strconv.ParseInt (strconv.FormatInt T) = inl T.
Proof.
  intros HT. unfold strconv.FormatInt.
  destruct (Z.ltb_spec T 0) as [Hneg|Hpos].
  - rewrite Z.mod_small by lia. unfold strconv.ParseInt.
    change (Ascii.eqb "-" "+") with false.
    change (Ascii.eqb "-" "-") with true. cbn iota.
    rewrite ParseUint_formatBits by lia. cbn [negb andb].
    replace (2 ^ 63 <? - T) with false by lia.
    f_equal. destruct (Z.eq_dec T (- 2 ^ 63)) as [->|Hne].
    + reflexivity.
    + rewrite (wrap64_small (- T)) by lia.
      rewrite wrap64_small; lia.
  - destruct (formatBits_digit 19 T Hpos) as (d & rest & Hd & Hs).
    pose proof (ParseUint_formatBits T ltac:(lia)) as Hparse.
    rewrite Hs in *. unfold strconv.ParseInt.
    destruct (digit_not_sign d Hd) as [-> ->].
    rewrite Hparse. cbn [negb andb].
    replace (2 ^ 63 <=? T) with false by lia.
    rewrite wrap64_small by lia. reflexivity.
Qed.

Lemma ParseInt_range (s : string) (T : Z) :
  strconv.ParseInt s = inl T -> - 2 ^ 63 <= T < 2 ^ 63.
Proof.
  unfold strconv.ParseInt. destruct s as [|c rest]; [discriminate|].
  destruct (if Ascii.eqb c "+" then _ else _) as [neg s'].
  destruct (strconv.ParseUint s') as [un|e]; [|discriminate].
  destruct (negb neg && _); [discriminate|].
  destruct (neg && _); [discriminate|].
  intros [= <-]. destruct neg; apply wrap64_range.
Qed.

(** ParseInt(s, 10, 64) succeeds exactly on the base-10 signed integers
    that fit 64 bits, and returns their value. *)

Lemma decimalValue_ge (s : string) :
  forall acc v, 0 <= acc -> decimalValue s acc = Some v -> acc <= v.
Proof.
  induction s as [|c s IH]; intros acc v Hacc; cbn [decimalValue].
  - intros [= <-]. lia.
  - unfold isDigit. destruct (Z.leb_spec 48 (hex.code c)); [|discriminate].
    destruct (Z.leb_spec (hex.code c) 57); [|discriminate]. cbn [andb].
    intros Hv. apply IH in Hv; lia.
Qed.

Lemma parseDigits_decimalValue (s : string) :
  forall n v, 0 <= n <= strconv.maxUint64 ->
    strconv.parseDigits s n = inl v
    <-> decimalValue s n = Some v /\ v <= strconv.maxUint64.
Proof.
  unfold strconv.maxUint64.
  induction s as [|c s IH]; intros n v Hn;
    cbn [strconv.parseDigits decimalValue].
  - split; [intros [= <-]; split; [reflexivity | lia]|].
    intros [[= <-] _]. reflexivity.
  - unfold isDigit, strconv.maxUint64.
    destruct ((48 <=? hex.code c) && (hex.code c <=? 57)) eqn:Hd;
      [|split; [discriminate | intros [Hv _]; discriminate Hv]].
    apply andb_true_iff in Hd as [Hlo%Z.leb_le Hhi%Z.leb_le].
    change ((2 ^ 64 - 1) / 10 + 1) with 1844674407370955162.
    destruct (Z.leb_spec 1844674407370955162 n) as [Hc|Hc].
    { split; [discriminate|]. intros [Hv Hmax].
      apply decimalValue_ge in Hv; lia. }
    rewrite (Z.mod_small (n * 10)) by lia.
    destruct (Z.lt_ge_cases (n * 10 + (hex.code c - 48)) (2 ^ 64))
      as [Hfit|Hover].
    + rewrite (Z.mod_small (n * 10 + _)) by lia.
      replace ((n * 10 + (hex.code c - 48) <? n * 10)
               || (2 ^ 64 - 1 <? n * 10 + (hex.code c - 48)))
        with false by lia.
      apply IH. lia.
    + assert (Hwrap : (n * 10 + (hex.code c - 48)) mod 2 ^ 64
                      = n * 10 + (hex.code c - 48) - 2 ^ 64).
      { replace (n * 10 + (hex.code c - 48))
          with (n * 10 + (hex.code c - 48) - 2 ^ 64 + 1 * 2 ^ 64) at 1
          by lia.
        rewrite Z.mod_add, Z.mod_small by lia. reflexivity. }
      rewrite Hwrap.
      replace (n * 10 + (hex.code c - 48) - 2 ^ 64 <? n * 10) with true
        by lia.
      cbn [orb]. split; [discriminate|]. intros [Hv Hmax].
      apply decimalValue_ge in Hv; lia.
Qed.

Lemma ParseUint_decimalValue (s : string) (v : Z) :
  s <> EmptyString ->
  strconv.ParseUint s = inl v
  <-> decimalValue s 0 = Some v /\ v <= strconv.maxUint64.
Proof.
  intros Hs. destruct s as [|c s]; [contradiction|].
  unfold strconv.ParseUint. apply parseDigits_decimalValue.
  unfold strconv.maxUint64. lia.
Qed.

Lemma ParseUint_empty : strconv.ParseUint EmptyString = inr strconv.ErrSyntax.
Proof. reflexivity. Qed.

Lemma decimalValue_nonneg (s : string) (v : Z) :
  decimalValue s 0 = Some v -> 0 <= v.
Proof. apply decimalValue_ge. lia. Qed.

Lemma ParseInt_parseTimestamp (s : string) (T : Z) :
  strconv.ParseInt s = inl T <-> parseTimestamp s = Some T.
Proof.
  unfold parseTimestamp, signedDecimal, strconv.ParseInt.
  destruct s as [|c rest]; [split; discriminate|].
  destruct (Ascii.eqb c "+") eqn:Hplus; [|destruct (Ascii.eqb c "-") eqn:Hminus].
  - (* "+" digits *)
    destruct rest as [|c' rest'];
      [rewrite ParseUint_empty; split; discriminate|].
    set (r := String c' rest').
    pose proof (ParseUint_decimalValue r) as Hspec.
    destruct (strconv.ParseUint r) as [un|e] eqn:Hpu.
    + destruct (proj1 (Hspec un ltac:(discriminate)) eq_refl) as [Hv Hmax].
      rewrite Hv. pose proof (decimalValue_nonneg _ _ Hv) as Hnn.
      cbn [negb andb].
      destruct (Z.leb_spec (2 ^ 63) un).
      * replace ((- 2 ^ 63 <=? un) && (un <? 2 ^ 63)) with false by lia.
        split; discriminate.
      * replace ((- 2 ^ 63 <=? un) && (un <? 2 ^ 63)) with true by lia.
        rewrite wrap64_small by lia. split; intros [= <-]; reflexivity.
    + split; [discriminate|].
      destruct (decimalValue r 0) as [v|] eqn:Hv; [|discriminate].
      destruct (Z.leb_spec (- 2 ^ 63) v), (Z.ltb_spec v (2 ^ 63));
        cbn [andb]; try discriminate.
      intros _. assert (Hu : inr e = inl v); [|discriminate Hu].
      apply Hspec; [discriminate|]. unfold strconv.maxUint64. split; [auto|lia].
  - (* "-" digits *)
    destruct rest as [|c' rest'];
      [rewrite ParseUint_empty; split; discriminate|].
    set (r := String c' rest').
    pose proof (ParseUint_decimalValue r) as Hspec.
    destruct (strconv.ParseUint r) as [un|e] eqn:Hpu.
    + destruct (proj1 (Hspec un ltac:(discriminate)) eq_refl) as [Hv Hmax].
      rewrite Hv. pose proof (decimalValue_nonneg _ _ Hv) as Hnn.
      cbn [negb andb option_map].
      destruct (Z.ltb_spec (2 ^ 63) un).
      * replace ((- 2 ^ 63 <=? - un) && (- un <? 2 ^ 63)) with false by lia.
        split; discriminate.
      * replace ((- 2 ^ 63 <=? - un) && (- un <? 2 ^ 63)) with true by lia.
        destruct (Z.eq_dec un (2 ^ 63)) as [->|Hne];
          [split; intros [= <-]; reflexivity|].
        rewrite (wrap64_small un) by lia. rewrite wrap64_small by lia.
        split; intros [= <-]; reflexivity.
    + split; [discriminate|].
      destruct (decimalValue r 0) as [v|] eqn:Hv; [|discriminate].
      cbn [option_map]. pose proof (decimalValue_nonneg _ _ Hv) as Hnn.
      destruct (Z.leb_spec (- 2 ^ 63) (- v)), (Z.ltb_spec (- v) (2 ^ 63));
        cbn [andb]; try discriminate.
      intros _. assert (Hu : inr e = inl v); [|discriminate Hu].
      apply Hspec; [discriminate|]. unfold strconv.maxUint64. split; [auto|lia].
  - (* digits *)
    set (r := String c rest).
    pose proof (ParseUint_decimalValue r) as Hspec.
    destruct (strconv.ParseUint r) as [un|e] eqn:Hpu.
    + destruct (proj1 (Hspec un ltac:(discriminate)) eq_refl) as [Hv Hmax].
      rewrite Hv. pose proof (decimalValue_nonneg _ _ Hv) as Hnn.
      cbn [negb andb].
      destruct (Z.leb_spec (2 ^ 63) un).
      * replace ((- 2 ^ 63 <=? un) && (un <? 2 ^ 63)) with false by lia.
        split; discriminate.
      * replace ((- 2 ^ 63 <=? un) && (un <? 2 ^ 63)) with true by lia.
        rewrite wrap64_small by lia. split; intros [= <-]; reflexivity.
    + split; [discriminate|].
      destruct (decimalValue r 0) as [v|] eqn:Hv; [|discriminate].
      pose proof (decimalValue_nonneg _ _ Hv) as Hnn.
      destruct (Z.leb_spec (- 2 ^ 63) v), (Z.ltb_spec v (2 ^ 63));
        cbn [andb]; try discriminate.
      intros _. assert (Hu : inr e = inl v); [|discriminate Hu].
      apply Hspec; [discriminate|]. unfold strconv.maxUint64. split; [auto|lia].
Qed.

Lemma parseTimestamp_ParseInt (s : string) :
  parseTimestamp s
  = match strconv.ParseInt s with
    | inl T => Some T
    | inr _ => None
    end.
Proof.
  destruct (strconv.ParseInt s) as [T|e] eqn:Hp.
  - apply ParseInt_parseTimestamp. exact Hp.
  - destruct (parseTimestamp s) as [T|] eqn:Ht; [|reflexivity].
    apply ParseInt_parseTimestamp in Ht. congruence.
Qed.

Lemma FormatInt_nonempty (T : Z) : strconv.FormatInt T <> EmptyString.
Proof.
  unfold strconv.FormatInt. destruct (Z.ltb_spec T 0); [discriminate|].
  destruct (formatBits_digit 19 T ltac:(lia)) as (d & rest & _ & ->).
  discriminate.
Qed.

(** ** The freshness arithmetic *)

Lemma of_int64_small (d : Z) :
  Z.abs d < 2 ^ 53 -> float64.of_int64 d = d.
Proof.
  intros Hd. unfold float64.of_int64.
  destruct (Z.ltb_spec (Z.abs d) (2 ^ 53)); [reflexivity | lia].
Qed.

Lemma of_int64_large (d : Z) :
  2 ^ 53 <= Z.abs d -> 2 ^ 52 <= Z.abs (float64.of_int64 d).
Proof.
  intros Hd. unfold float64.of_int64.
  destruct (Z.ltb_spec (Z.abs d) (2 ^ 53)) as [|_]; [lia|].
  set (m := Z.abs d) in *. set (e := Z.log2 m - 52).
  assert (He : 1 <= e).
  { unfold e. assert (53 <= Z.log2 m); [|lia].
    apply Z.log2_le_pow2; lia. }
  assert (Hq : 2 ^ 52 <= Z.shiftr m e).
  { rewrite Z.shiftr_div_pow2 by lia.
    apply Z.div_le_lower_bound; [apply Z.pow_pos_nonneg; lia|].
    rewrite <- Z.pow_add_r by lia.
    replace (e + 52) with (Z.log2 m) by (unfold e; lia).
    apply Z.log2_spec. lia. }
  set (q := Z.shiftr m e) in *.
  set (q' := if _ <? _ then q else _).
  assert (Hq' : q <= q').
  { unfold q'. repeat match goal with
                      | |- context [if ?b then _ else _] => destruct b
                      end; lia. }
  rewrite Z.shiftl_mul_pow2 by lia.
  assert (Hp : 1 <= 2 ^ e).
  { pose proof (Z.pow_pos_nonneg 2 e ltac:(lia) ltac:(lia)). lia. }
  assert (Hprod : 2 ^ 52 <= q' * 2 ^ e) by nia.
  rewrite Z.abs_mul.
  assert (Hs : Z.abs (Z.sgn d) = 1) by (subst m; lia).
  rewrite Hs. lia.
Qed.

(* on an int64 difference the float64 comparison is the integer one *)
Lemma float64_window (d : Z) :
  (300 <? float64.Abs (float64.of_int64 d)) = (300 <? Z.abs d).
Proof.
  unfold float64.Abs. destruct (Z.lt_ge_cases (Z.abs d) (2 ^ 53)) as [H|H].
  - rewrite of_int64_small by assumption. reflexivity.
  - pose proof (of_int64_large d H). 
    destruct (Z.ltb_spec 300 (Z.abs (float64.of_int64 d)));
      destruct (Z.ltb_spec 300 (Z.abs d)); try reflexivity; lia.
Qed.

Lemma now_minus_near (now T : Z) :
  Z.abs (now - T) <= 300 -> now_minus now T = now - T.
Proof. intros H. unfold now_minus. apply wrap64_small. lia. Qed.

Lemma now_minus_far (now T : Z) :
  clockInRange now -> - 2 ^ 63 <= T < 2 ^ 63 -> 300 < Z.abs (now - T) ->
  300 < Z.abs (now_minus now T).
Proof.
  unfold clockInRange, now_minus, strconv.wrap64. intros Hnow HT Hfar.
  destruct (Z.lt_ge_cases (now - T) (- 2 ^ 63)) as [Hlo|Hlo].
  - replace (now - T + 2 ^ 63) with ((now - T + 2 ^ 64 + 2 ^ 63)
                                     + (-1) * 2 ^ 64) by lia.
    rewrite Z.mod_add, Z.mod_small by lia. lia.
  - destruct (Z.lt_ge_cases (now - T) (2 ^ 63)) as [Hhi|Hhi].
    + rewrite Z.mod_small by lia. lia.
    + replace (now - T + 2 ^ 63) with ((now - T - 2 ^ 64 + 2 ^ 63)
                                       + 1 * 2 ^ 64) by lia.
      rewrite Z.mod_add, Z.mod_small by lia. lia.
Qed.

Lemma window_int64 (now T : Z) :
  clockInRange now -> - 2 ^ 63 <= T < 2 ^ 63 ->
  (300 <? Z.abs (now_minus now T)) = (300 <? Z.abs (now - T)).
Proof.
  intros Hnow HT. destruct (Z.ltb_spec 300 (Z.abs (now - T))) as [Hfar|Hnear].
  - apply Z.ltb_lt, now_minus_far; assumption.
  - rewrite now_minus_near by assumption. apply Z.ltb_ge. assumption.
Qed.

(* for a difference below 2^53 the message carries it exactly, in decimal *)
Lemma freshnessError_exact (now T : Z) :
  Z.abs (now - T) < 2 ^ 53 ->
  freshnessError now T
  = AuthenticationError
      (String.append "request timestamp too old or too far in future: "
         (String.append (strconv.FormatInt (Z.abs (now - T))) "s")).
Proof.
  intros Hd. unfold freshnessError, now_minus, float64.Abs, float64.format0.
  rewrite wrap64_small by lia. rewrite of_int64_small by assumption.
  unfold strconv.FormatInt.
  destruct (Z.ltb_spec (Z.abs (now - T)) 0); [lia | reflexivity].
Qed.

(** ** VerifySignature as a cascade of checks *)

Lemma VerifySignature_cascade (now : Z) (secret : string) (body : list byte)
    (headers : Headers) :
  VerifySignature now secret body headers
  = firstFailure
      [ checkSecret secret; checkSignaturePresent headers;
        checkTimestampPresent headers; checkTimestampParses headers;
        checkFreshInt64 now headers; checkSignature secret body headers ].
Proof.
  unfold VerifySignature, checkSecret, checkSignaturePresent,
    checkTimestampPresent, checkTimestampParses, checkFreshInt64,
    checkSignature.
  fold (headerValue headers "X-Kiket-Signature" "x-kiket-signature").
  fold (headerValue headers "X-Kiket-Timestamp" "x-kiket-timestamp").
  fold (signatureHeader headers). fold (timestampHeader headers).
  rewrite !parseTimestamp_ParseInt. cbn [firstFailure].
  destruct (String.eqb secret ""); [reflexivity|].
  destruct (String.eqb (signatureHeader headers) ""); [reflexivity|].
  destruct (String.eqb (timestampHeader headers) ""); [reflexivity|].
  destruct (strconv.ParseInt (timestampHeader headers)) as [T|e];
    [|reflexivity].
  destruct (300 <? _); [reflexivity|].
  fold (expectedSignature secret (timestampHeader headers) body).
  rewrite ConstantTimeCompare_strings.
  destruct (String.eqb _ _); reflexivity.
Qed.

Lemma checkFreshInt64_checkFresh (now : Z) (headers : Headers) :
  clockInRange now -> checkFreshInt64 now headers = checkFresh now headers.
Proof.
  intros Hnow. unfold checkFreshInt64, checkFresh.
  rewrite parseTimestamp_ParseInt.
  destruct (strconv.ParseInt (timestampHeader headers)) as [T|e] eqn:Hparse;
    [|reflexivity].
  rewrite float64_window, window_int64; eauto using ParseInt_range.
Qed.

Lemma firstFailure_None (checks : list (option error)) :
  firstFailure checks = None <-> Forall (fun c => c = None) checks.
Proof.
  induction checks as [|[e|] rest IH]; cbn [firstFailure].
  - split; auto.
  - split; [discriminate|]. intros H. inversion H; subst. discriminate.
  - rewrite IH. split; [auto | intros H; inversion H; subst; assumption].
Qed.

(** C5. VerifySignature returns the error of the first failing check, the
    checks taken in the order: secret empty, signature header missing,
    timestamp header missing, timestamp not a base-10 signed (64-bit)
    integer, timestamp outside the window, signature different from
    hex(HMAC-SHA256(secret, timestamp + "." + body)); it returns nil, with no
    payload, exactly when every check passes. *)
Theorem VerifySignature_check_order (now : Z) (secret : string)
    (body : list byte) (headers : Headers) :
  clockInRange now ->
  VerifySignature now secret body headers
  = firstFailure (checksInOrder now secret body headers)
  /\ (VerifySignature now secret body headers = None
      <-> Forall (fun c => c = None) (checksInOrder now secret body headers)).
Proof.
  intros Hnow.
  assert (Heq : VerifySignature now secret body headers
                = firstFailure (checksInOrder now secret body headers)).
  { rewrite VerifySignature_cascade, checkFreshInt64_checkFresh by assumption.
    reflexivity. }
  split; [exact Heq|]. rewrite Heq. apply firstFailure_None.
Qed.

Lemma VerifySignature_parsed (now : Z) (secret : string) (body : list byte)
    (headers : Headers) (T : Z) :
  secret <> EmptyString -> signatureHeader headers <> EmptyString ->
  strconv.ParseInt (timestampHeader headers) = inl T ->
  VerifySignature now secret body headers
  = if 300 <? Z.abs (now_minus now T) then Some (freshnessError now T)
    else checkSignature secret body headers.
Proof.
  intros Hsecret Hsig Hparse. rewrite VerifySignature_cascade.
  unfold checkSecret, checkSignaturePresent, checkTimestampPresent,
    checkTimestampParses, checkFreshInt64.
  rewrite !parseTimestamp_ParseInt.
  apply String.eqb_neq in Hsecret, Hsig. rewrite Hsecret, Hsig, Hparse.
  assert (Hts : String.eqb (timestampHeader headers) "" = false).
  { apply String.eqb_neq. intros Hempty. rewrite Hempty in Hparse.
    discriminate Hparse. }
  rewrite Hts, float64_window. cbn [firstFailure].
  destruct (300 <? _); [reflexivity|].
  destruct (checkSignature secret body headers); reflexivity.
Qed.

(** C3. Once the secret and both headers are present and the timestamp
    parses to T: when |now - T| <= 300 (the edge 300 included) the outcome is
    that of the signature check; when |now - T| > 300 (301 and above, stale
    or future-dated alike) the outcome is the freshness error, whatever the
    signature. *)
Theorem freshness_window (now : Z) (secret : string) (body : list byte)
    (headers : Headers) (T : Z) :
  secret <> EmptyString -> signatureHeader headers <> EmptyString ->
  strconv.ParseInt (timestampHeader headers) = inl T ->
  (Z.abs (now - T) <= 300 ->
   VerifySignature now secret body headers
   = checkSignature secret body headers)
  /\ (300 < Z.abs (now - T) < 2 ^ 63 ->
      VerifySignature now secret body headers = Some (freshnessError now T))
  /\ (clockInRange now -> 300 < Z.abs (now - T) ->
      VerifySignature now secret body headers = Some (freshnessError now T)).
Proof.
  intros Hsecret Hsig Hparse.
  rewrite (VerifySignature_parsed now secret body headers T) by assumption.
  split; [|split].
  - intros Hnear. rewrite now_minus_near by assumption.
    destruct (Z.ltb_spec 300 (Z.abs (now - T))); [lia | reflexivity].
  - intros Hfar. unfold now_minus. rewrite wrap64_small by lia.
    destruct (Z.ltb_spec 300 (Z.abs (now - T))); [reflexivity | lia].
  - intros Hnow Hfar.
    pose proof (now_minus_far now T Hnow (ParseInt_range _ _ Hparse) Hfar).
    destruct (Z.ltb_spec 300 (Z.abs (now_minus now T))); [reflexivity | lia].
Qed.

Lemma carries_headerValue (headers : Headers) (canonical lower value : string) :
  value <> EmptyString -> carries headers canonical lower value ->
  headerValue headers canonical lower = value.
Proof.
  intros Hne. apply String.eqb_neq in Hne.
  unfold carries, headerValue, index.
  intros [-> | [[-> | ->] ->]]; simpl; try rewrite Hne; reflexivity.
Qed.

Lemma EncodeToString_nonempty (bs : list byte) :
  bs <> [] -> hex.EncodeToString bs <> EmptyString.
Proof.
  intros Hbs Henc. pose proof (length_EncodeToString bs) as Hl.
  rewrite Henc in Hl. destruct bs; [contradiction | discriminate Hl].
Qed.

Lemma expectedSignature_nonempty (secret timestamp : string)
    (body : list byte) :
  expectedSignature secret timestamp body <> EmptyString.
Proof.
  unfold expectedSignature, hmac.Sum. apply EncodeToString_nonempty.
  intros Hnil. pose proof (length_Sum256
    (hmac.opad (hmac.Write (hmac.New (list_byte_of_string secret))
       (list_byte_of_string
          (String.append timestamp
             (String.append "." (string_of_list_byte body)))))
     ++ sha256.Sum256 (hmac.inner (hmac.Write
          (hmac.New (list_byte_of_string secret))
          (list_byte_of_string
             (String.append timestamp
                (String.append "." (string_of_list_byte body)))))))) as Hl.
  rewrite Hnil in Hl. discriminate Hl.
Qed.

Lemma GenerateSignature_expected (genNow : Z) (secret body : string)
    (timestamp : option Z) :
  GenerateSignature genNow secret body timestamp
  = (expectedSignature secret
       (strconv.FormatInt (default genNow timestamp))
       (list_byte_of_string body),
     strconv.FormatInt (default genNow timestamp)).
Proof.
  unfold GenerateSignature, expectedSignature.
  rewrite string_of_list_byte_of_string. destruct timestamp; reflexivity.
Qed.

(** C2, as amended. For every non-empty secret, body and int64 timestamp T
    with |now - T| <= 300, VerifySignature returns nil on headers that carry
    the signature and the timestamp string of GenerateSignature; T is the
    timestamp given to GenerateSignature or, when none is given, its clock. *)
Theorem generate_verify_roundtrip (now genNow : Z) (secret body : string)
    (timestamp : option Z) (headers : Headers) :
  let T := default genNow timestamp in
  let generated := GenerateSignature genNow secret body timestamp in
  secret <> EmptyString ->
  - 2 ^ 63 <= T < 2 ^ 63 ->
  Z.abs (now - T) <= 300 ->
  carries headers "X-Kiket-Signature" "x-kiket-signature" (fst generated) ->
  carries headers "X-Kiket-Timestamp" "x-kiket-timestamp" (snd generated) ->
  VerifySignature now secret (list_byte_of_string body) headers = None.
Proof.
  intros T generated Hsecret HT Hwin Hsig Hts. subst generated.
  rewrite GenerateSignature_expected in Hsig, Hts. cbn [fst snd] in Hsig, Hts.
  fold T in Hsig, Hts.
  apply carries_headerValue in Hsig; [|apply expectedSignature_nonempty].
  apply carries_headerValue in Hts; [|apply FormatInt_nonempty].
  fold (signatureHeader headers) in Hsig.
  fold (timestampHeader headers) in Hts.
  assert (Hparse : strconv.ParseInt (timestampHeader headers) = inl T).
  { rewrite Hts. apply ParseInt_FormatInt. assumption. }
  rewrite (VerifySignature_parsed now _ _ headers T); try assumption.
  - rewrite now_minus_near by assumption.
    destruct (Z.ltb_spec 300 (Z.abs (now - T))); [lia|].
    unfold checkSignature. rewrite Hsig, Hts, String.eqb_refl. reflexivity.
  - rewrite Hsig. apply expectedSignature_nonempty.
Qed.

Lemma generate_verify_roundtrip_witness :
  let generated := GenerateSignature 0 "s3cr3t" "{}" (Some 1700000000) in
  let headers : Headers :=
    <["X-Kiket-Signature" := fst generated]>
      (<["x-kiket-timestamp" := snd generated]> ∅) in
  VerifySignature 1700000300 "s3cr3t" (list_byte_of_string "{}") headers
  = None.
Proof.
  intros generated headers.
  apply (generate_verify_roundtrip 1700000300 0 "s3cr3t" "{}"
           (Some 1700000000) headers).
  - discriminate.
  - simpl. lia.
  - simpl. lia.
  - left. vm_compute. reflexivity.
  - right. split; [left|]; vm_compute; reflexivity.
Defined.

(** C2, as stated, fails for the empty secret: GenerateSignature signs with
    it, VerifySignature refuses it before looking at the headers. *)
Lemma generate_verify_roundtrip_counterexample :
  let generated := GenerateSignature 0 "" "{}" (Some 1700000000) in
  let headers : Headers :=
    <["X-Kiket-Signature" := fst generated]>
      (<["X-Kiket-Timestamp" := snd generated]> ∅) in
  carries headers "X-Kiket-Signature" "x-kiket-signature" (fst generated)
  /\ carries headers "X-Kiket-Timestamp" "x-kiket-timestamp" (snd generated)
  /\ Z.abs (1700000000 - 1700000000) <= 300
  /\ VerifySignature 1700000000 "" (list_byte_of_string "{}") headers
     = Some (AuthenticationError "webhook secret not configured").
Proof.
  intros generated headers.
  split; [left; vm_compute; reflexivity|].
  split; [left; vm_compute; reflexivity|].
  split; [simpl; lia | reflexivity].
Qed.

Lemma freshness_window_witness :
  let generated := GenerateSignature 0 "s3cr3t" "{}" (Some 1700000000) in
  let headers : Headers :=
    <["X-Kiket-Signature" := fst generated]>
      (<["X-Kiket-Timestamp" := snd generated]> ∅) in
  let body := list_byte_of_string "{}" in
  VerifySignature 1700000300 "s3cr3t" body headers
  = checkSignature "s3cr3t" body headers
  /\ VerifySignature 1699999700 "s3cr3t" body headers
     = checkSignature "s3cr3t" body headers
  /\ VerifySignature 1700000301 "s3cr3t" body headers
     = Some (freshnessError 1700000301 1700000000)
  /\ VerifySignature 1699999699 "s3cr3t" body headers
     = Some (freshnessError 1699999699 1700000000).
Proof.
  intros generated headers body.
  assert (Hsecret : "s3cr3t"%string <> EmptyString) by discriminate.
  assert (Hsig : signatureHeader headers <> EmptyString).
  { intros H. vm_compute in H. discriminate H. }
  assert (Hparse : strconv.ParseInt (timestampHeader headers)
                   = inl 1700000000) by (vm_compute; reflexivity).
  split; [|split; [|split]].
  - destruct (freshness_window 1700000300 _ body headers 1700000000 Hsecret
                Hsig Hparse) as (Hnear & _ & _).
    apply Hnear. simpl. lia.
  - destruct (freshness_window 1699999700 _ body headers 1700000000 Hsecret
                Hsig Hparse) as (Hnear & _ & _).
    apply Hnear. simpl. lia.
  - destruct (freshness_window 1700000301 _ body headers 1700000000 Hsecret
                Hsig Hparse) as (_ & Hfar & _).
    apply Hfar. simpl. lia.
  - destruct (freshness_window 1699999699 _ body headers 1700000000 Hsecret
                Hsig Hparse) as (_ & _ & Hfar).
    apply Hfar; [unfold clockInRange|]; simpl; lia.
Defined.

Lemma VerifySignature_check_order_witness :
  let headers : Headers :=
    <["X-Kiket-Signature" := "00"%string]>
      (<["X-Kiket-Timestamp" := "1700000000"%string]> ∅) in
  let body := list_byte_of_string "{}" in
  clockInRange 1700000000
  /\ VerifySignature 1700000000 "s3cr3t" body headers
     = firstFailure (checksInOrder 1700000000 "s3cr3t" body headers).
Proof.
  intros headers body.
  assert (Hnow : clockInRange 1700000000) by (unfold clockInRange; lia).
  split; [exact Hnow|].
  exact (proj1 (VerifySignature_check_order _ "s3cr3t" body headers Hnow)).
Defined.

(** ** The errors of VerifySignature *)

Lemma prefix_append (p x : string) : String.prefix p (String.append p x) = true.
Proof.
  induction p as [|c p IH].
  - destruct x; reflexivity.
  - rewrite append_cons. cbn [String.prefix].
    destruct (ascii_dec c c); [exact IH | contradiction].
Qed.

Lemma kindOfMessage_freshness (now T : Z) :
  exists m, freshnessError now T = AuthenticationError m
            /\ kindOfMessage m = Some FreshnessError.
Proof.
  unfold freshnessError. eexists. split; [reflexivity|].
  unfold kindOfMessage. rewrite prefix_append. reflexivity.
Qed.

Ltac check_outcome :=
  first [ left; reflexivity
        | right; eexists; split; reflexivity ].

(* what a failing check returns, and the kind its message spells *)
Lemma checks_kinds (now : Z) (secret : string) (body : list byte)
    (headers : Headers) :
  Forall2 (fun c k => c = None \/ exists m, c = Some (AuthenticationError m)
                                            /\ kindOfMessage m = Some k)
          (checksInOrder now secret body headers) kindsInOrder.
Proof.
  unfold checksInOrder, kindsInOrder, checkSecret, checkSignaturePresent,
    checkTimestampPresent, checkTimestampParses, checkFresh, checkSignature.
  rewrite !parseTimestamp_ParseInt.
  repeat apply List.Forall2_cons; try apply List.Forall2_nil.
  - destruct (String.eqb secret ""); check_outcome.
  - destruct (String.eqb (signatureHeader headers) ""); check_outcome.
  - destruct (String.eqb (timestampHeader headers) ""); check_outcome.
  - destruct (strconv.ParseInt _); check_outcome.
  - destruct (strconv.ParseInt _) as [T|]; [|check_outcome].
    destruct (300 <? _); [right | check_outcome].
    destruct (kindOfMessage_freshness now T) as (m & -> & Hm). eauto.
  - destruct (String.eqb _ _); check_outcome.
Qed.

Lemma firstFailure_kind (checks : list (option error))
    (kinds : list FailureKind) :
  Forall2 (fun c k => c = None \/ exists m, c = Some (AuthenticationError m)
                                            /\ kindOfMessage m = Some k)
          checks kinds ->
  (firstFailure checks = None /\ firstFailureKind checks kinds = None)
  \/ exists m k, firstFailure checks = Some (AuthenticationError m)
                 /\ firstFailureKind checks kinds = Some k
                 /\ kindOfMessage m = Some k.
Proof.
  induction 1 as [|c k checks kinds Hc _ IH]; [left; split; reflexivity|].
  destruct Hc as [-> | (m & -> & Hk)]; cbn [firstFailure firstFailureKind].
  - exact IH.
  - right. eauto.
Qed.

(** C4, as amended. Every failure of VerifySignature is a value of the one
    type *AuthenticationError, for which IsAuthenticationError holds, and
    nothing else comes with it; the kind of the check that failed
    (configuration, protocol, freshness, integrity) is spelled by the
    Message string and can be read from it. *)
Theorem VerifySignature_failures (now : Z) (secret : string)
    (body : list byte) (headers : Headers) :
  clockInRange now ->
  let checks := checksInOrder now secret body headers in
  (VerifySignature now secret body headers = None
   /\ firstFailureKind checks kindsInOrder = None)
  \/ exists m k,
       VerifySignature now secret body headers = Some (AuthenticationError m)
       /\ IsAuthenticationError (VerifySignature now secret body headers)
          = true
       /\ firstFailureKind checks kindsInOrder = Some k
       /\ kindOfMessage m = Some k.
Proof.
  intros Hnow checks.
  rewrite VerifySignature_cascade, checkFreshInt64_checkFresh by assumption.
  fold (checksInOrder now secret body headers). fold checks.
  destruct (firstFailure_kind checks kindsInOrder
              (checks_kinds now secret body headers))
    as [[Hnone Hk] | (m & k & Hsome & Hk & Hm)].
  - left. split; assumption.
  - right. exists m, k. rewrite Hsome. repeat split; assumption.
Qed.

Lemma VerifySignature_failures_witness :
  let headers : Headers :=
    <["X-Kiket-Signature" := "00"%string]>
      (<["X-Kiket-Timestamp" := "1700000000"%string]> ∅) in
  let body := list_byte_of_string "{}" in
  exists m k,
    VerifySignature 1700000000 "s3cr3t" body headers
    = Some (AuthenticationError m)
    /\ kindOfMessage m = Some k.
Proof.
  intros headers body.
  assert (Hnow : clockInRange 1700000000) by (unfold clockInRange; lia).
  destruct (VerifySignature_failures 1700000000 "s3cr3t" body headers Hnow)
    as [[Hnone _] | (m & k & Hsome & _ & _ & Hm)].
  - vm_compute in Hnone. discriminate Hnone.
  - exists m, k. split; assumption.
Defined.

(** C4, as stated, fails: a failure of the configuration check and a failure
    of the signature check are two values of the same type that differ in the
    message string only, so an observation that does not read the message
    cannot tell them apart. *)
Lemma VerifySignature_failures_counterexample :
  let headers : Headers :=
    <["X-Kiket-Signature" := "00"%string]>
      (<["X-Kiket-Timestamp" := "1700000000"%string]> ∅) in
  let body := list_byte_of_string "{}" in
  let unconfigured := VerifySignature 1700000000 "" body headers in
  let tampered := VerifySignature 1700000000 "s3cr3t" body headers in
  unconfigured = Some (AuthenticationError "webhook secret not configured")
  /\ tampered = Some (AuthenticationError "invalid signature")
  /\ IsAuthenticationError unconfigured = IsAuthenticationError tampered
  /\ forall (A : Type) (f : error -> A),
       ignoresMessage f -> option_map f unconfigured = option_map f tampered.
Proof.
  intros headers body unconfigured tampered.
  assert (H1 : unconfigured
               = Some (AuthenticationError "webhook secret not configured"))
    by reflexivity.
  assert (H2 : tampered = Some (AuthenticationError "invalid signature"))
    by (vm_compute; reflexivity).
  rewrite H1, H2. repeat split.
  intros A f Hf. simpl. f_equal. apply Hf.
Qed.

(** ** Header lookup *)

Lemma index_insert_ne (headers : Headers) (k v name : string) :
  k <> name -> index (<[k := v]> headers) name = index headers name.
Proof. intros Hne. unfold index. rewrite lookup_insert_ne; auto. Qed.

Lemma headerValue_empty (headers : Headers) (canonical lower : string) :
  headerValue headers canonical lower = EmptyString
  <-> index headers canonical = EmptyString
      /\ index headers lower = EmptyString.
Proof.
  unfold headerValue.
  destruct (String.eqb_spec (index headers canonical) "") as [->|Hne];
    tauto.
Qed.

Lemma VerifySignature_insert_other (now : Z) (secret : string)
    (body : list byte) (headers : Headers) (k v : string) :
  ~ In k readKeys ->
  VerifySignature now secret body (<[k := v]> headers)
  = VerifySignature now secret body headers.
Proof.
  intros Hk. unfold VerifySignature.
  rewrite !index_insert_ne; [reflexivity|..];
    intros ->; apply Hk; cbn; tauto.
Qed.

Lemma freshnessError_not (now T : Z) (m : string) :
  kindOfMessage m = Some ProtocolError ->
  freshnessError now T <> AuthenticationError m.
Proof.
  intros Hm Heq. destruct (kindOfMessage_freshness now T) as (m' & Hm' & Hk).
  rewrite Hm' in Heq. injection Heq as ->. congruence.
Qed.

(* the goal is [r = Some e <-> P] where r is visibly another outcome and P
   contradicts a hypothesis *)
Ltac other_outcome :=
  split;
  [ first [ discriminate
          | intros [= Heq]; exfalso; revert Heq;
            apply freshnessError_not; reflexivity ]
  | tauto ].

Lemma VerifySignature_missing_signature (now : Z) (secret : string)
    (body : list byte) (headers : Headers) :
  VerifySignature now secret body headers
  = Some (AuthenticationError "missing X-Kiket-Signature header")
  <-> secret <> EmptyString /\ signatureHeader headers = EmptyString.
Proof.
  rewrite VerifySignature_cascade.
  unfold checkSecret, checkSignaturePresent, checkTimestampPresent,
    checkTimestampParses, checkFreshInt64, checkSignature.
  rewrite !parseTimestamp_ParseInt.
  destruct (String.eqb_spec secret "") as [Hs|Hs]; cbn [firstFailure];
    [other_outcome|].
  destruct (String.eqb_spec (signatureHeader headers) "") as [Hsig|Hsig];
    cbn [firstFailure]; [tauto|].
  destruct (String.eqb_spec (timestampHeader headers) "") as [Hts|Hts];
    cbn [firstFailure]; [other_outcome|].
  destruct (strconv.ParseInt (timestampHeader headers)) as [T|e];
    cbn [firstFailure]; [|other_outcome].
  destruct (300 <? _); cbn [firstFailure]; [other_outcome|].
  destruct (String.eqb _ _); cbn [firstFailure]; other_outcome.
Qed.

Lemma VerifySignature_missing_timestamp (now : Z) (secret : string)
    (body : list byte) (headers : Headers) :
  VerifySignature now secret body headers
  = Some (AuthenticationError "missing X-Kiket-Timestamp header")
  <-> secret <> EmptyString /\ signatureHeader headers <> EmptyString
      /\ timestampHeader headers = EmptyString.
Proof.
  rewrite VerifySignature_cascade.
  unfold checkSecret, checkSignaturePresent, checkTimestampPresent,
    checkTimestampParses, checkFreshInt64, checkSignature.
  rewrite !parseTimestamp_ParseInt.
  destruct (String.eqb_spec secret "") as [Hs|Hs]; cbn [firstFailure];
    [other_outcome|].
  destruct (String.eqb_spec (signatureHeader headers) "") as [Hsig|Hsig];
    cbn [firstFailure]; [other_outcome|].
  destruct (String.eqb_spec (timestampHeader headers) "") as [Hts|Hts];
    cbn [firstFailure]; [tauto|].
  destruct (strconv.ParseInt (timestampHeader headers)) as [T|e];
    cbn [firstFailure]; [|other_outcome].
  destruct (300 <? _); cbn [firstFailure]; [other_outcome|].
  destruct (String.eqb _ _); cbn [firstFailure]; other_outcome.
Qed.

(** C9, as amended. The two header names are looked up by exact key, under
    two spellings each: the canonical one and the all-lowercase one. The
    missing-header error is returned exactly when the value under both
    spellings is absent or empty (and the earlier checks pass); an entry
    under any other key, another casing of the name included, is never
    read. *)
Theorem header_lookup_exact (now : Z) (secret : string) (body : list byte)
    (headers : Headers) :
  (VerifySignature now secret body headers
   = Some (AuthenticationError "missing X-Kiket-Signature header")
   <-> secret <> EmptyString
       /\ index headers "X-Kiket-Signature" = EmptyString
       /\ index headers "x-kiket-signature" = EmptyString)
  /\ (VerifySignature now secret body headers
      = Some (AuthenticationError "missing X-Kiket-Timestamp header")
      <-> secret <> EmptyString
          /\ signatureHeader headers <> EmptyString
          /\ index headers "X-Kiket-Timestamp" = EmptyString
          /\ index headers "x-kiket-timestamp" = EmptyString)
  /\ (forall k v, ~ In k readKeys ->
        VerifySignature now secret body (<[k := v]> headers)
        = VerifySignature now secret body headers).
Proof.
  split; [|split].
  - rewrite VerifySignature_missing_signature. unfold signatureHeader.
    rewrite headerValue_empty. reflexivity.
  - rewrite VerifySignature_missing_timestamp. unfold timestampHeader.
    rewrite headerValue_empty. reflexivity.
  - intros k v. apply VerifySignature_insert_other.
Qed.

Lemma header_lookup_exact_witness :
  let headers : Headers := <["X-Kiket-Timestamp" := "1700000000"%string]> ∅ in
  let body := list_byte_of_string "{}" in
  ~ In "X-KIKET-SIGNATURE"%string readKeys
  /\ VerifySignature 1700000000 "s3cr3t" body
       (<["X-KIKET-SIGNATURE" := "00"%string]> headers)
     = VerifySignature 1700000000 "s3cr3t" body headers.
Proof.
  intros headers body.
  assert (Hk : ~ In "X-KIKET-SIGNATURE"%string readKeys).
  { cbn. intros [H | [H | [H | [H | []]]]]; discriminate H. }
  split; [exact Hk|].
  exact (proj2 (proj2 (header_lookup_exact 1700000000 "s3cr3t" body headers))
           "X-KIKET-SIGNATURE"%string "00"%string Hk).
Defined.

(** C9, as stated, fails: a signature header sent under another casing of
    its name is present under case-insensitive matching, yet VerifySignature
    reports the header as missing. *)
Lemma header_lookup_exact_counterexample :
  let generated := GenerateSignature 0 "s3cr3t" "{}" (Some 1700000000) in
  let headers : Headers :=
    <["X-KIKET-SIGNATURE" := fst generated]>
      (<["X-Kiket-Timestamp" := snd generated]> ∅) in
  presentIgnoringCase headers "X-Kiket-Signature"
  /\ VerifySignature 1700000000 "s3cr3t" (list_byte_of_string "{}") headers
     = Some (AuthenticationError "missing X-Kiket-Signature header").
Proof.
  intros generated headers. split.
  - exists "X-KIKET-SIGNATURE"%string, (fst generated).
    split; [vm_compute; reflexivity|].
    split; [vm_compute; discriminate | vm_compute; reflexivity].
  - vm_compute. reflexivity.
Qed.

(** ** ComputeContentHash *)

Section ContentHashFacts.

Context {V : Type} (nil : V) (encodeValue : V -> option (list byte))
        (appendString : string -> list byte).

Lemma rebuild_lookup (data : gmap string V) (keys : list string) :
  forall (acc : gmap string V) (k : string),
    fold_left (fun sorted k => <[k := index_data V nil data k]> sorted)
              keys acc !! k
    = if decide (k ∈ keys) then Some (index_data V nil data k)
      else acc !! k.
Proof.
  induction keys as [|k0 keys IH]; intros acc k; cbn [fold_left].
  - rewrite decide_False by apply not_elem_of_nil. reflexivity.
  - rewrite IH. destruct (decide (k ∈ keys)) as [Hin|Hnin].
    + rewrite decide_True by (right; exact Hin). reflexivity.
    + destruct (decide (k = k0)) as [->|Hne].
      * rewrite decide_True by left. apply lookup_insert_eq.
      * rewrite decide_False by (rewrite elem_of_cons; tauto).
        apply lookup_insert_ne. congruence.
Qed.

(* the map rebuilt from the sorted keys is the map itself *)
Lemma rebuild_data (data : gmap string V) (range : list string) :
  range_of V data range ->
  fold_left (fun sorted k => <[k := index_data V nil data k]> sorted)
            (merge_sort String.le range) ∅
  = data.
Proof.
  unfold range_of. intros Hrange. apply map_eq. intros k.
  rewrite rebuild_lookup, lookup_empty.
  assert (Hin : k ∈ merge_sort String.le range <-> is_Some (data !! k)).
  { rewrite merge_sort_Permutation, Hrange, list_elem_of_fmap. split.
    - intros ([k' v] & -> & Hkv%elem_of_map_to_list). eauto.
    - intros [v Hv]. exists (k, v). split; [reflexivity|].
      apply elem_of_map_to_list. exact Hv. }
  destruct (decide (k ∈ merge_sort String.le range)) as [Hk|Hk].
  - apply Hin in Hk as [v Hv]. unfold index_data. rewrite Hv. reflexivity.
  - destruct (data !! k) eqn:Hd; [|reflexivity].
    exfalso. apply Hk, Hin. eauto.
Qed.

Lemma ComputeContentHash_canonical (data : gmap string V)
    (range : list string) :
  range_of V data range ->
  ComputeContentHash V nil encodeValue appendString data range
  = String.append "0x"
      (hex.EncodeToString
         (sha256.Sum256
            (default [] (json_Marshal V encodeValue appendString data)))).
Proof.
  intros Hrange. unfold ComputeContentHash.
  rewrite rebuild_data by assumption. reflexivity.
Qed.

Global Instance key_le_total : Total (key_le V).
Proof. intros a b. unfold key_le. apply total, _. Qed.

Lemma marshal_order_sorted (data : gmap string V) :
  Sorted String.le (map fst (merge_sort (key_le V) (map_to_list data))).
Proof.
  pose proof (Sorted_merge_sort (key_le V) (map_to_list data)) as Hs.
  induction Hs as [|a l _ IH Hhd]; [constructor|].
  cbn [map]. constructor; [exact IH|].
  destruct Hhd; constructor. assumption.
Qed.

End ContentHashFacts.

Lemma allLowerHex_append (a b : string) :
  allLowerHex (String.append a b) = allLowerHex a && allLowerHex b.
Proof.
  induction a as [|c a IH]; [reflexivity|].
  rewrite append_cons. cbn [allLowerHex]. rewrite IH, andb_assoc.
  reflexivity.
Qed.

Lemma allLowerHex_EncodeToString (bs : list byte) :
  allLowerHex (hex.EncodeToString bs) = true.
Proof.
  induction bs as [|b bs IH]; [reflexivity|].
  cbn [hex.EncodeToString]. rewrite allLowerHex_append, IH, andb_true_r.
  destruct b; reflexivity.
Qed.

Lemma isHash_Sum256 (data : list byte) :
  isHash (String.append "0x" (hex.EncodeToString (sha256.Sum256 data)))
  = true.
Proof.
  change (String.append "0x" ?s) with (String "0" (String "x" s)).
  cbn [isHash].
  rewrite length_EncodeToString, length_Sum256, allLowerHex_EncodeToString.
  reflexivity.
Qed.

(** C8. ComputeContentHash depends on the key-value pairs only: the same
    pairs presented in any order, and ranged over in any order, give the
    same hash string. The string is "0x" and the lowercase hex of the SHA-256
    of the serialization of the map, whose entries are written in increasing
    byte order of their keys. *)
Theorem ComputeContentHash_key_order {V : Type} (nil : V)
    (encodeValue : V -> option (list byte))
    (appendString : string -> list byte)
    (pairs1 pairs2 : list (string * V)) (range1 range2 : list string) :
  let data1 : gmap string V := list_to_map pairs1 in
  let data2 : gmap string V := list_to_map pairs2 in
  NoDup (map fst pairs1) -> Permutation pairs1 pairs2 ->
  range_of V data1 range1 -> range_of V data2 range2 ->
  ComputeContentHash V nil encodeValue appendString data1 range1
  = ComputeContentHash V nil encodeValue appendString data2 range2
  /\ ComputeContentHash V nil encodeValue appendString data1 range1
     = String.append "0x"
         (hex.EncodeToString
            (sha256.Sum256
               (default [] (json_Marshal V encodeValue appendString data1))))
  /\ isHash (ComputeContentHash V nil encodeValue appendString data1 range1)
     = true
  /\ Sorted String.le
       (map fst (merge_sort (key_le V) (map_to_list data1))).
Proof.
  intros data1 data2 Hnodup Hperm Hr1 Hr2.
  assert (Hdata : data1 = data2).
  { apply list_to_map_proper; assumption. }
  rewrite !ComputeContentHash_canonical by assumption.
  rewrite <- Hdata. split; [reflexivity|]. split; [reflexivity|].
  split; [apply isHash_Sum256 | apply marshal_order_sorted].
Qed.

Lemma ComputeContentHash_key_order_witness :
  let ab := [("a", 1); ("b", 2)]%string in
  let ba := [("b", 2); ("a", 1)]%string in
  ComputeContentHash Z 0 encodeInt quoteKey (list_to_map ab) ["a"; "b"]%string
  = ComputeContentHash Z 0 encodeInt quoteKey (list_to_map ba)
      ["b"; "a"]%string.
Proof.
  intros ab ba.
  refine (proj1 (ComputeContentHash_key_order 0 encodeInt quoteKey ab ba
                   ["a"; "b"]%string ["b"; "a"]%string _ _ _ _)).
  - unfold ab. cbn [map fst].
    apply NoDup_cons_2.
    + apply not_elem_of_cons. split; [discriminate | apply not_elem_of_nil].
    + apply NoDup_cons_2; [apply not_elem_of_nil | apply NoDup_nil_2].
  - apply perm_swap.
  - unfold range_of. vm_compute.
    first [reflexivity | apply perm_swap].
  - unfold range_of. vm_compute.
    first [apply perm_swap | reflexivity].
Defined.

(** The hash of the record {a: 1, b: 2}, whose serialization is
    {"a":1,"b":2}. *)
Example ComputeContentHash_ab :
  ComputeContentHash Z 0 encodeInt quoteKey
    (list_to_map [("b", 2); ("a", 1)]%string) ["b"; "a"]%string
  = "0x43258cff783fe7036d8a43033f830adfc60ec037382473548ac742b888292777"%string.
Proof. vm_compute. reflexivity. Qed.

(** ** Test vectors for the models of crypto/sha256 and crypto/hmac *)

Example K_ends :
  length sha256._K = 64%nat
  /\ nth 0 sha256._K 0 = 0x428a2f98 /\ nth 63 sha256._K 0 = 0xc67178f2.
Proof. repeat split. Qed.

(* FIPS 180-4: the digests of the empty string and of "abc" *)
Example Sum256_empty :
  hex.EncodeToString (sha256.Sum256 [])
  = "e3b0c44298fc1c149afbf4c8996fb92427ae41e4649b934ca495991b7852b855"%string.
Proof. vm_compute. reflexivity. Qed.

Example Sum256_abc :
  hex.EncodeToString (sha256.Sum256 (list_byte_of_string "abc"))
  = "ba7816bf8f01cfea414140de5dae2223b00361a396177a9cb410ff61f20015ad"%string.
Proof. vm_compute. reflexivity. Qed.

(* a message longer than one block *)
Example Sum256_two_blocks :
  hex.EncodeToString
    (sha256.Sum256 (list_byte_of_string
       "abcdbcdecdefdefgefghfghighijhijkijkljklmklmnlmnomnopnopq"))
  = "248d6a61d20638b8e5c026930c3e6039a33ce45964ff2167f6ecedd419db06c1"%string.
Proof. vm_compute. reflexivity. Qed.

(* RFC 4231, test case 2 *)
Example hmac_rfc4231_2 :
  hex.EncodeToString
    (hmac.Sum (hmac.Write (hmac.New (list_byte_of_string "Jefe"))
                 (list_byte_of_string "what do ya want for nothing?")))
  = "5bdcc146bf60754e6a042426089575c75a003f089d2739839dec58b964ec3843"%string.
Proof. vm_compute. reflexivity. Qed.

(** The scenario of the specification: secret "s3cr3t", body "{}",
    timestamp 1700000000, the clock fixed at 1700000000. *)
Example scenario :
  let generated := GenerateSignature 0 "s3cr3t" "{}" (Some 1700000000) in
  let headers (sig : string) : Headers :=
    <["X-Kiket-Signature" := sig]>
      (<["X-Kiket-Timestamp" := snd generated]> ∅) in
  let body := list_byte_of_string "{}" in
  generated
  = ("dd8508e44d9a9f82f2690fb7dff1da8a6ae99700d98a23a4e7e1c307af3cb6cb",
     "1700000000")%string
  /\ VerifySignature 1700000000 "s3cr3t" body (headers (fst generated)) = None
  /\ VerifySignature 1700000000 "s3cr3t" body
       (headers
          "ed8508e44d9a9f82f2690fb7dff1da8a6ae99700d98a23a4e7e1c307af3cb6cb")
     = Some (AuthenticationError "invalid signature").
Proof. vm_compute. repeat split. Qed.

(** * Further properties *)

(** ** Merkle proofs *)

Lemma fold_proofStep (path : list string) :
  forall (current : list byte) (i : Z),
    fst (fold_left proofStep path (current, i)) = climb current path.
Proof.
  unfold climb.
  induction path as [|s path IH]; intros current i; cbn [fold_left].
  - reflexivity.
  - rewrite proofStep_hashPair. apply IH.
Qed.

Lemma VerifyProofLocally_climb (h : string) (path : list string) (i : Z)
    (r : string) :
  VerifyProofLocally h path i r
  = bytes.Equal (climb (normalizeHash h) path) (normalizeHash r).
Proof.
  unfold VerifyProofLocally.
  pose proof (fold_proofStep path (normalizeHash h) i) as Hfst.
  destruct (fold_left proofStep path (normalizeHash h, i)) as [cur idx].
  cbn [fst] in Hfst. subst cur. reflexivity.
Qed.

Lemma climb_app (current : list byte) (p q : list string) :
  climb current (p ++ q) = climb (climb current p) q.
Proof. unfold climb. apply fold_left_app. Qed.

Lemma normalizeHash_hashString (h : list byte) :
  normalizeHash (hashString h) = h.
Proof. apply normalizeHash_EncodeToString. Qed.

(** X1. A proof can be checked in two stages: verifying along p ++ q is the
    same as verifying, along q, the node that the path p leads to. *)
Theorem VerifyProofLocally_app (h : string) (p q : list string) (i j : Z)
    (r : string) :
  VerifyProofLocally h (p ++ q) i r
  = VerifyProofLocally (hashString (climb (normalizeHash h) p)) q j r.
Proof.
  rewrite !VerifyProofLocally_climb, climb_app, normalizeHash_hashString.
  reflexivity.
Qed.

Lemma climb_inclusion (t : tree) (h : list byte) (path : list (list byte)) :
  inclusion t h path -> climb h (map hashString path) = treeRoot t.
Proof.
  induction 1 as [h | l r h path _ IH | l r h path _ IH]; cbn [treeRoot].
  - reflexivity.
  - rewrite map_app, climb_app, IH. cbn [map climb fold_left].
    rewrite normalizeHash_hashString. reflexivity.
  - rewrite map_app, climb_app, IH. cbn [map climb fold_left].
    rewrite normalizeHash_hashString. apply hashPair_comm.
Qed.

(** X2. Completeness: in any binary tree whose inner nodes are the sorted-pair
    SHA-256 combine of their children, the inclusion path of every leaf
    verifies against the root, at any leaf index. *)
Theorem VerifyProofLocally_complete (t : tree) (h : list byte)
    (path : list (list byte)) (i : Z) :
  inclusion t h path ->
  VerifyProofLocally (hashString h) (map hashString path) i
    (hashString (treeRoot t))
  = true.
Proof.
  intros Hincl.
  rewrite VerifyProofLocally_climb, !normalizeHash_hashString.
  rewrite (climb_inclusion t h path Hincl). apply bytes_Equal_refl.
Qed.

Lemma VerifyProofLocally_complete_witness :
  let a := sha256.Sum256 (list_byte_of_string "a") in
  let b := sha256.Sum256 (list_byte_of_string "b") in
  let c := sha256.Sum256 (list_byte_of_string "c") in
  let t := Node (Node (Leaf a) (Leaf b)) (Leaf c) in
  VerifyProofLocally (hashString b) (map hashString [a; c]) 1
    (hashString (treeRoot t))
  = true.
Proof.
  intros a b c t.
  apply (VerifyProofLocally_complete t b [a; c] 1).
  apply (inclusion_left (Node (Leaf a) (Leaf b)) (Leaf c) b [a]).
  apply (inclusion_right (Leaf a) (Leaf b) b []).
  apply inclusion_leaf.
Defined.

(** X3. The verifier cannot tell a leaf from its sibling: exchanging the
    content hash with the first sibling of the proof, at any leaf indices,
    gives the same answer. *)
Theorem VerifyProofLocally_leaf_sibling (a b : string) (path : list string)
    (i j : Z) (r : string) :
  VerifyProofLocally a (b :: path) i r = VerifyProofLocally b (a :: path) j r.
Proof.
  rewrite !VerifyProofLocally_climb. unfold climb. cbn [fold_left].
  rewrite (hashPair_comm (normalizeHash a)). reflexivity.
Qed.

(** ** Letter case of hashes *)

Lemma fromHexChar_upperHexChar (c : ascii) :
  hex.fromHexChar (upperHexChar c) = hex.fromHexChar c.
Proof. destruct c as [[] [] [] [] [] [] [] []]; reflexivity. Qed.

Lemma upperHexChar_not_hex (c : ascii) :
  hex.fromHexChar c = None -> upperHexChar c = c.
Proof. destruct c as [[] [] [] [] [] [] [] []]; intros H; try reflexivity;
  discriminate H. Qed.

Lemma Decode_upperHex (s : string) :
  hex.Decode (upperHex s) = hex.Decode s.
Proof.
  induction s as [| a | a b s IH] using string_pair_ind;
    cbn [upperHex hex.Decode].
  - reflexivity.
  - rewrite fromHexChar_upperHexChar.
    destruct (hex.fromHexChar a) eqn:Ha; [reflexivity|].
    rewrite upperHexChar_not_hex by assumption. reflexivity.
  - rewrite !fromHexChar_upperHexChar.
    destruct (hex.fromHexChar a) eqn:Ha.
    + destruct (hex.fromHexChar b) eqn:Hb.
      * change (upperHex s) with (upperHex s). rewrite IH. reflexivity.
      * rewrite (upperHexChar_not_hex b) by assumption. reflexivity.
    + rewrite (upperHexChar_not_hex a) by assumption. reflexivity.
Qed.

Lemma length_upperHex (s : string) :
  String.length (upperHex s) = String.length s.
Proof. induction s as [|c s IH]; simpl; congruence. Qed.

Lemma substring_upperHex (s : string) :
  forall n m, String.substring n m (upperHex s)
              = upperHex (String.substring n m s).
Proof.
  induction s as [|c s IH]; intros [|n] [|m]; cbn [upperHex String.substring];
    try reflexivity; rewrite ?IH; reflexivity.
Qed.

Lemma upperHexChar_eqb_0 (c : ascii) :
  Ascii.eqb (upperHexChar c) "0" = Ascii.eqb c "0".
Proof. destruct c as [[] [] [] [] [] [] [] []]; reflexivity. Qed.

Lemma upperHexChar_eqb_x (c : ascii) :
  Ascii.eqb (upperHexChar c) "x" = Ascii.eqb c "x".
Proof. destruct c as [[] [] [] [] [] [] [] []]; reflexivity. Qed.

Lemma upperHex_0x (s : string) :
  String.eqb (upperHex s) "0x" = String.eqb s "0x".
Proof.
  destruct s as [|a [|b s]]; cbn [upperHex String.eqb]; try reflexivity.
  - rewrite upperHexChar_eqb_0. reflexivity.
  - rewrite upperHexChar_eqb_0, upperHexChar_eqb_x.
    destruct s; reflexivity.
Qed.

Lemma normalizeHash_upperHex (s : string) :
  normalizeHash (upperHex s) = normalizeHash s.
Proof.
  unfold normalizeHash, hex.DecodeString.
  rewrite length_upperHex, !substring_upperHex, upperHex_0x.
  destruct (_ && _); rewrite Decode_upperHex; reflexivity.
Qed.

Lemma climb_upperHex (path : list string) :
  forall current, climb current (map upperHex path) = climb current path.
Proof.
  unfold climb. induction path as [|s path IH]; intros current;
    cbn [map fold_left]; [reflexivity|].
  rewrite normalizeHash_upperHex. apply IH.
Qed.

(** X4. Hex digits are read in either case, the prefix only in lower case:
    writing the digits a-f of the content hash, of the siblings and of the
    root in upper case does not change the answer, while a value written with
    the prefix 0X decodes to the empty byte string, so that any two such
    values verify against each other with an empty proof. *)
Theorem VerifyProofLocally_letter_case (h : string) (path : list string)
    (i : Z) (r : string) :
  VerifyProofLocally (upperHex h) (map upperHex path) i (upperHex r)
  = VerifyProofLocally h path i r
  /\ (forall t u : string,
        normalizeHash (String "0" (String "X" t)) = []
        /\ VerifyProofLocally (String "0" (String "X" t)) [] i
             (String "0" (String "X" u))
           = true).
Proof.
  split.
  - rewrite !VerifyProofLocally_climb, !normalizeHash_upperHex.
    rewrite climb_upperHex. reflexivity.
  - assert (HX : forall t, normalizeHash (String "0" (String "X" t)) = []).
    { intros t. unfold normalizeHash, hex.DecodeString.
      cbn [String.length Nat.leb String.substring andb].
      rewrite substring_0_0. reflexivity. }
    intros t u. split; [apply HX|].
    rewrite VerifyProofLocally_nil, !HX. reflexivity.
Qed.

(** ** ComputeContentHash when json.Marshal fails *)

Section ContentHashFailure.

Context {V : Type} (nil : V) (encodeValue : V -> option (list byte))
        (appendString : string -> list byte).

Lemma encodeEntries_fails (sv : list (string * V)) (k : string) (v : V) :
  (k, v) ∈ sv -> encodeValue v = None ->
  forall first, encodeEntries V encodeValue appendString first sv = None.
Proof.
  intros Hin Hv. induction sv as [|[k0 v0] sv IH]; intros first.
  - apply elem_of_nil in Hin. contradiction.
  - cbn [encodeEntries]. apply elem_of_cons in Hin as [[= <- <-] | Hin].
    + rewrite Hv. reflexivity.
    + rewrite (IH Hin false). destruct (encodeValue v0); reflexivity.
Qed.

Lemma encodeEntries_None_inv (sv : list (string * V)) :
  forall first,
    encodeEntries V encodeValue appendString first sv = None ->
    exists k v, (k, v) ∈ sv /\ encodeValue v = None.
Proof.
  induction sv as [|[k0 v0] sv IH]; intros first; cbn [encodeEntries].
  - discriminate.
  - destruct (encodeValue v0) eqn:Hv0.
    + destruct (encodeEntries V encodeValue appendString false sv) eqn:Hrest;
        [discriminate|].
      intros _. destruct (IH false Hrest) as (k & v & Hin & Hv).
      exists k, v. split; [right; exact Hin | exact Hv].
    + intros _. exists k0, v0. split; [left | exact Hv0].
Qed.

Lemma json_Marshal_fails (data : gmap string V) :
  json_Marshal V encodeValue appendString data = None
  <-> exists k v, data !! k = Some v /\ encodeValue v = None.
Proof.
  unfold json_Marshal. split.
  - destruct (encodeEntries V encodeValue appendString true
                (merge_sort (key_le V) (map_to_list data))) eqn:Henc;
      [discriminate|].
    intros _. apply encodeEntries_None_inv in Henc as (k & v & Hin & Hv).
    exists k, v. split; [|exact Hv].
    rewrite merge_sort_Permutation in Hin.
    apply elem_of_map_to_list. exact Hin.
  - intros (k & v & Hkv & Hv).
    rewrite (encodeEntries_fails _ k v); [reflexivity| |exact Hv].
    rewrite merge_sort_Permutation. apply elem_of_map_to_list. exact Hkv.
Qed.

(** X5. json.Marshal's error is dropped: every record holding a value that
    cannot be encoded gets the hash of the empty input, the same for all of
    them; a record whose values all encode gets the hash of its own
    serialization. *)
Theorem ComputeContentHash_marshal_failure (data : gmap string V)
    (range : list string) :
  range_of V data range ->
  ((exists k v, data !! k = Some v /\ encodeValue v = None) ->
   ComputeContentHash V nil encodeValue appendString data range
   = emptyInputHash)
  /\ ((forall k v, data !! k = Some v -> encodeValue v <> None) ->
      exists canonical,
        json_Marshal V encodeValue appendString data = Some canonical
        /\ ComputeContentHash V nil encodeValue appendString data range
           = hashString (sha256.Sum256 canonical)).
Proof.
  intros Hrange.
  rewrite (ComputeContentHash_canonical nil encodeValue appendString data
             range Hrange).
  split.
  - intros Hfail. apply json_Marshal_fails in Hfail. rewrite Hfail.
    vm_compute. reflexivity.
  - intros Hall.
    destruct (json_Marshal V encodeValue appendString data) as [canonical|]
      eqn:Hm.
    + exists canonical. split; reflexivity.
    + apply json_Marshal_fails in Hm as (k & v & Hkv & Hv).
      exfalso. exact (Hall k v Hkv Hv).
Qed.

End ContentHashFailure.

(* an encoder of Go ints that, for the example, rejects negative numbers *)
Lemma ComputeContentHash_marshal_failure_witness :
  let enc (v : Z) := if v <? 0 then None else encodeInt v in
  ComputeContentHash Z 0 enc quoteKey
    (list_to_map [("a", 1); ("b", -2)]%string) ["b"; "a"]%string
  = emptyInputHash.
Proof.
  intros enc.
  refine (proj1 (ComputeContentHash_marshal_failure 0 enc quoteKey
                   (list_to_map [("a", 1); ("b", -2)]%string)
                   ["b"; "a"]%string _) _).
  - unfold range_of. vm_compute.
    first [apply perm_swap | reflexivity].
  - exists "b"%string, (-2). split; reflexivity.
Defined.

(** ** GenerateSignature *)

(** X6. GenerateSignature returns a signature of exactly 64 lowercase hex
    characters and the timestamp in decimal; for an int64 timestamp the
    string is read back as that timestamp by strconv.ParseInt, and as a
    base-10 signed integer. *)
Theorem GenerateSignature_format (genNow : Z) (secret body : string)
    (timestamp : option Z) :
  let T := default genNow timestamp in
  let generated := GenerateSignature genNow secret body timestamp in
  - 2 ^ 63 <= T < 2 ^ 63 ->
  String.length (fst generated) = 64%nat
  /\ allLowerHex (fst generated) = true
  /\ snd generated = strconv.FormatInt T
  /\ strconv.ParseInt (snd generated) = inl T
  /\ parseTimestamp (snd generated) = Some T.
Proof.
  intros T generated HT. subst generated.
  rewrite GenerateSignature_expected. cbn [fst snd]. fold T.
  unfold expectedSignature, hmac.Sum.
  rewrite length_EncodeToString, length_Sum256, allLowerHex_EncodeToString.
  pose proof (ParseInt_FormatInt T HT) as Hparse.
  repeat split; try assumption.
  apply ParseInt_parseTimestamp. exact Hparse.
Qed.

Lemma GenerateSignature_format_witness :
  let generated := GenerateSignature 1700000000 "s3cr3t" "{}" None in
  String.length (fst generated) = 64%nat
  /\ strconv.ParseInt (snd generated) = inl 1700000000.
Proof.
  intros generated.
  destruct (GenerateSignature_format 1700000000 "s3cr3t" "{}" None)
    as (Hlen & _ & _ & Hparse & _).
  - simpl. lia.
  - split; [exact Hlen | exact Hparse].
Defined.

(** ** The message of the freshness error *)

(** X7. When the timestamp is outside the window by less than 2^53 seconds,
    the error message of VerifySignature carries the absolute difference
    between the clock and the timestamp, exactly, in decimal, followed by
    "s". *)
Theorem VerifySignature_freshness_message (now : Z) (secret : string)
    (body : list byte) (headers : Headers) (T : Z) :
  secret <> EmptyString -> signatureHeader headers <> EmptyString ->
  strconv.ParseInt (timestampHeader headers) = inl T ->
  300 < Z.abs (now - T) < 2 ^ 53 ->
  VerifySignature now secret body headers
  = Some (AuthenticationError
            (String.append
               "request timestamp too old or too far in future: "
               (String.append (strconv.FormatInt (Z.abs (now - T))) "s"))).
Proof.
  intros Hsecret Hsig Hparse Hfar.
  rewrite (VerifySignature_parsed now secret body headers T) by assumption.
  unfold now_minus. rewrite wrap64_small by lia.
  destruct (Z.ltb_spec 300 (Z.abs (now - T))); [|lia].
  rewrite freshnessError_exact by lia. reflexivity.
Qed.

Lemma VerifySignature_freshness_message_witness :
  let headers : Headers :=
    <["X-Kiket-Signature" := "00"%string]>
      (<["X-Kiket-Timestamp" := "1700000000"%string]> ∅) in
  VerifySignature 1700000999 "s3cr3t" (list_byte_of_string "{}") headers
  = Some (AuthenticationError
            "request timestamp too old or too far in future: 999s").
Proof.
  intros headers.
  apply (VerifySignature_freshness_message 1700000999 "s3cr3t" _ headers
           1700000000).
  - discriminate.
  - intros H. vm_compute in H. discriminate H.
  - vm_compute. reflexivity.
  - simpl. lia.
Defined.

(** ** manifest.go: toUpperSnake *)

Lemma byte_to_of_Z (z : Z) : byte_to_Z (byte_of_Z z) = z mod 256.
Proof.
  unfold byte_to_Z, byte_of_Z.
  pose proof (Z.mod_pos_bound z 256 ltac:(lia)) as Hm.
  destruct (Byte.of_N (Z.to_N (z mod 256))) as [b|] eqn:Hb.
  - apply Byte.to_of_N in Hb. rewrite Hb. lia.
  - apply Byte.of_N_None_iff in Hb. lia.
Qed.

Lemma code_range (c : ascii) : 0 <= hex.code c < 256.
Proof.
  unfold hex.code. pose proof (N_ascii_bounded c). lia.
Qed.

Lemma rangeFrom_ascii_app (s t : string) :
  isAscii s = true ->
  forall (n : nat) (i : Z),
    utf8.rangeFrom (String.length s + n) i (String.append s t)
    = asciiPairs i s ++ utf8.rangeFrom n (i + Z.of_nat (String.length s)) t.
Proof.
  induction s as [|c s IH]; intros Hs n i.
  - cbn [String.length asciiPairs app Nat.add]. rewrite append_nil_l.
    f_equal. cbn. lia.
  - cbn [isAscii] in Hs. apply andb_true_iff in Hs as [Hc Hs].
    rewrite append_cons.
    cbn [String.length Nat.add utf8.rangeFrom asciiPairs app].
    rewrite Hc. cbn [Nat.sub utf8.dropString].
    rewrite (IH Hs). do 3 f_equal. lia.
Qed.

Lemma range_ascii (s : string) :
  isAscii s = true -> utf8.range s = asciiPairs 0 s.
Proof.
  intros Hs. unfold utf8.range.
  pose proof (rangeFrom_ascii_app s EmptyString Hs 0 0) as H.
  rewrite Nat.add_0_r, append_empty_r in H. rewrite H.
  destruct (String.length s); cbn [utf8.rangeFrom]; apply app_nil_r.
Qed.

Lemma snakeStep_out (result : list byte) (ic : Z * Z) :
  snakeStep result ic = result ++ snakeOut ic.
Proof.
  unfold snakeOut, snakeStep. destruct ic as [i c].
  repeat match goal with |- context [if ?b then _ else _] => destruct b end;
    cbn [app]; rewrite <- ?app_assoc; reflexivity.
Qed.

Lemma fold_snakeStep (pairs : list (Z * Z)) :
  forall result,
    fold_left snakeStep pairs result = result ++ flat_map snakeOut pairs.
Proof.
  induction pairs as [|ic pairs IH]; intros result; cbn [fold_left flat_map].
  - rewrite app_nil_r. reflexivity.
  - rewrite IH, snakeStep_out, app_assoc. reflexivity.
Qed.

Lemma toUpperSnake_bytes (s : string) :
  list_byte_of_string (toUpperSnake s) = flat_map snakeOut (utf8.range s).
Proof.
  unfold toUpperSnake.
  rewrite list_byte_of_string_of_list_byte, fold_snakeStep. reflexivity.
Qed.

Lemma snakeOut_ascii (i c : Z) :
  0 <= c < 128 ->
  Forall (fun b => isEnvByte b = true) (snakeOut (i, c))
  /\ (1 <= length (snakeOut (i, c)) <= 2)%nat.
Proof.
  intros Hc. unfold snakeOut, snakeStep, isEnvByte, underscore.
  destruct ((65 <=? c) && (c <=? 90)) eqn:Hup.
  - destruct (0 <? i); cbn [app length]; (split; [|lia]);
      repeat constructor; rewrite byte_to_of_Z, Z.mod_small by lia; lia.
  - destruct ((97 <=? c) && (c <=? 122)) eqn:Hlow;
      [|destruct ((c =? 45) || (c =? 46)) eqn:Hsep];
      cbn [app length]; (split; [|lia]); repeat constructor;
      rewrite byte_to_of_Z, Z.mod_small by lia; lia.
Qed.

Lemma asciiPairs_out (s : string) :
  isAscii s = true ->
  forall i,
    Forall (fun b => isEnvByte b = true) (flat_map snakeOut (asciiPairs i s))
    /\ (String.length s <= length (flat_map snakeOut (asciiPairs i s))
        <= 2 * String.length s)%nat.
Proof.
  induction s as [|c s IH]; intros Hs i; cbn [asciiPairs flat_map].
  - split; [constructor | simpl; lia].
  - cbn [isAscii] in Hs. apply andb_true_iff in Hs as [Hc%Z.ltb_lt Hs].
    pose proof (code_range c) as Hr.
    destruct (snakeOut_ascii i (hex.code c) ltac:(lia)) as [Hout Hlen].
    destruct (IH Hs (i + 1)) as [Hrest Hlenr].
    split; [apply Forall_app; split; assumption|].
    rewrite length_app. cbn [String.length]. lia.
Qed.

(** X8. For a key of ASCII characters, the name built by toUpperSnake holds
    only ASCII bytes, none of them a lowercase letter, '-' or '.'; it is at
    least as long as the key and at most twice as long. *)
Theorem toUpperSnake_ascii (s : string) :
  isAscii s = true ->
  Forall (fun b => isEnvByte b = true) (list_byte_of_string (toUpperSnake s))
  /\ (String.length s <= length (list_byte_of_string (toUpperSnake s))
      <= 2 * String.length s)%nat.
Proof.
  intros Hs. rewrite toUpperSnake_bytes, range_ascii by assumption.
  apply asciiPairs_out. assumption.
Qed.

Lemma toUpperSnake_ascii_witness :
  Forall (fun b => isEnvByte b = true)
         (list_byte_of_string (toUpperSnake "apiKey.v2-beta")).
Proof.
  exact (proj1 (toUpperSnake_ascii "apiKey.v2-beta" eq_refl)).
Defined.

Lemma snakeOut_index (i j c : Z) :
  0 < i -> 0 < j -> snakeOut (i, c) = snakeOut (j, c).
Proof.
  intros Hi Hj. unfold snakeOut, snakeStep.
  destruct (Z.ltb_spec 0 i), (Z.ltb_spec 0 j); try lia. reflexivity.
Qed.

Lemma rangeFrom_index (n : nat) :
  forall (i j : Z) (t : string),
    0 < i -> 0 < j ->
    flat_map snakeOut (utf8.rangeFrom n i t)
    = flat_map snakeOut (utf8.rangeFrom n j t).
Proof.
  induction n as [|n IH]; intros i j t Hi Hj; [reflexivity|].
  destruct t as [|c0 rest]; [reflexivity|]. cbn [utf8.rangeFrom].
  destruct (if hex.code c0 <? 128 then _ else _) as [r size].
  cbn [flat_map]. rewrite (snakeOut_index i j r Hi Hj).
  f_equal. apply IH; lia.
Qed.

(* the name of s followed by t, for an ASCII s: the bytes for s, then those
   for t read from the index after s *)
Lemma toUpperSnake_app (s t : string) :
  isAscii s = true ->
  list_byte_of_string (toUpperSnake (String.append s t))
  = flat_map snakeOut (asciiPairs 0 s)
    ++ flat_map snakeOut
         (utf8.rangeFrom (String.length t) (Z.of_nat (String.length s)) t).
Proof.
  intros Hs. rewrite toUpperSnake_bytes. unfold utf8.range.
  rewrite length_append, (rangeFrom_ascii_app s t Hs), flat_map_app.
  reflexivity.
Qed.

Lemma rangeFrom_ascii_cons (c : ascii) (t : string) (i : Z) :
  (hex.code c <? 128) = true ->
  utf8.rangeFrom (String.length (String c t)) i (String c t)
  = (i, hex.code c) :: utf8.rangeFrom (String.length t) (i + 1) t.
Proof.
  intros Hc. cbn [String.length utf8.rangeFrom]. rewrite Hc.
  cbn [Nat.sub utf8.dropString]. reflexivity.
Qed.

(** X9. Distinct keys share a name: for an ASCII prefix s, the keys s-t, s.t
    and s_t have the same name, and so have, when s is not empty, the key
    that continues s with an upper case letter and the key that continues it
    with '_' and the lower case letter (apiKey and api_key). *)
Theorem toUpperSnake_collisions (s t : string) :
  isAscii s = true ->
  toUpperSnake (String.append s (String "-" t))
  = toUpperSnake (String.append s (String "_" t))
  /\ toUpperSnake (String.append s (String "." t))
     = toUpperSnake (String.append s (String "_" t))
  /\ (s <> EmptyString ->
      forall u : Z, 65 <= u <= 90 ->
        toUpperSnake (String.append s (String (ascii_of_N (Z.to_N u)) t))
        = toUpperSnake
            (String.append s
               (String "_" (String (ascii_of_N (Z.to_N (u + 32))) t)))).
Proof.
  intros Hs.
  assert (Hsep : forall (c : ascii) (t : string),
             (hex.code c <? 128) = true ->
             list_byte_of_string (toUpperSnake (String.append s (String c t)))
             = flat_map snakeOut (asciiPairs 0 s)
               ++ snakeOut (Z.of_nat (String.length s), hex.code c)
               ++ flat_map snakeOut
                    (utf8.rangeFrom (String.length t)
                       (Z.of_nat (String.length s) + 1) t)).
  { intros c t' Hc. rewrite toUpperSnake_app by assumption.
    rewrite rangeFrom_ascii_cons by assumption. reflexivity. }
  split; [|split].
  - apply list_byte_of_string_inj.
    rewrite (Hsep "-"%char t eq_refl), (Hsep "_"%char t eq_refl).
    reflexivity.
  - apply list_byte_of_string_inj.
    rewrite (Hsep "."%char t eq_refl), (Hsep "_"%char t eq_refl).
    reflexivity.
  - intros Hne u Hu. apply list_byte_of_string_inj.
    assert (Hlen : 0 < Z.of_nat (String.length s)).
    { destruct s; [contradiction | cbn [String.length]; lia]. }
    assert (Hcu : hex.code (ascii_of_N (Z.to_N u)) = u).
    { unfold hex.code. rewrite N_ascii_embedding by lia. lia. }
    assert (Hcl : hex.code (ascii_of_N (Z.to_N (u + 32))) = u + 32).
    { unfold hex.code. rewrite N_ascii_embedding by lia. lia. }
    rewrite Hsep by (rewrite Hcu; lia).
    rewrite (Hsep "_"%char _ eq_refl).
    rewrite rangeFrom_ascii_cons by (rewrite Hcl; lia).
    cbn [flat_map]. rewrite Hcu, Hcl.
    rewrite (rangeFrom_index (String.length t)
               (Z.of_nat (String.length s) + 1 + 1)
               (Z.of_nat (String.length s) + 1)) by lia.
    set (L := Z.of_nat (String.length s)) in *.
    assert (Hupper : snakeOut (L, u) = [underscore; byte_of_Z u]).
    { unfold snakeOut, snakeStep.
      replace ((65 <=? u) && (u <=? 90)) with true by lia.
      replace (0 <? L) with true by lia. reflexivity. }
    assert (Hunder : snakeOut (L, hex.code "_") = [underscore])
      by reflexivity.
    assert (Hlower : snakeOut (L + 1, u + 32) = [byte_of_Z u]).
    { unfold snakeOut, snakeStep.
      replace ((65 <=? u + 32) && (u + 32 <=? 90)) with false by lia.
      replace ((97 <=? u + 32) && (u + 32 <=? 122)) with true by lia.
      replace (u + 32 - 32) with u by lia. reflexivity. }
    rewrite Hupper, Hunder, Hlower. reflexivity.
Qed.

Lemma toUpperSnake_collisions_witness :
  toUpperSnake "api-key" = toUpperSnake "api_key"
  /\ toUpperSnake "apiKey" = toUpperSnake "api_key".
Proof.
  destruct (toUpperSnake_collisions "api" "key" eq_refl) as (Hdash & _ & _).
  destruct (toUpperSnake_collisions "api" "ey" eq_refl) as (_ & _ & Hcamel).
  split; [exact Hdash|].
  exact (Hcamel ltac:(discriminate) 75 ltac:(lia)).
Defined.

(** ** manifest.go: SettingsDefaults, SecretKeys, ApplySecretEnvOverrides *)

Section ManifestFacts.

Context {V : Type} (ofString : string -> V) (getenv : string -> string).

Lemma copy_settings (settings : gmap string V) (range : list (string * V)) :
  range ≡ₚ map_to_list settings ->
  fold_left (fun u kv => <[fst kv := snd kv]> u) range ∅ = settings.
Proof.
  intros Hrange. rewrite <- fold_left_rev_right.
  change (fold_right (fun kv u => <[fst kv := snd kv]> u) ∅ (rev range))
    with (list_to_map (rev range) : gmap string V).
  transitivity (list_to_map (map_to_list settings) : gmap string V);
    [|apply list_to_map_to_list].
  assert (Hrev : rev range ≡ₚ map_to_list settings).
  { rewrite <- Hrange. symmetry. apply Permutation_rev. }
  apply list_to_map_proper; [|exact Hrev].
  rewrite Hrev. apply NoDup_fst_map_to_list.
Qed.

Lemma overrides_lookup (secrets : list string) :
  forall (u : gmap string V) (k : string),
    (k ∈ secrets -> getenv (envKey k) <> EmptyString ->
     fold_left (overrideStep V ofString getenv) secrets u !! k
     = Some (ofString (getenv (envKey k))))
    /\ (k ∉ secrets \/ getenv (envKey k) = EmptyString ->
        fold_left (overrideStep V ofString getenv) secrets u !! k = u !! k).
Proof.
  induction secrets as [|key secrets IH]; intros u k; cbn [fold_left].
  - split; [intros Hin; apply elem_of_nil in Hin; contradiction|].
    reflexivity.
  - destruct (IH (overrideStep V ofString getenv u key) k) as [IHset IHkeep].
    assert (Hstep_other :
              key <> k \/ getenv (envKey k) = EmptyString ->
              overrideStep V ofString getenv u key !! k = u !! k).
    { unfold overrideStep. fold (envKey key).
      destruct (String.eqb_spec (getenv (envKey key)) "") as [He|He];
        cbn [negb]; [reflexivity|].
      intros [Hne | Hempty]; [apply lookup_insert_ne; exact Hne|].
      destruct (decide (key = k)) as [->|Hne]; [contradiction|].
      apply lookup_insert_ne. exact Hne. }
    split.
    + intros Hin Henv.
      destruct (decide (k ∈ secrets)) as [Hrest|Hrest];
        [apply IHset; assumption|].
      apply elem_of_cons in Hin as [->|Hin]; [|contradiction].
      rewrite IHkeep by (left; exact Hrest).
      unfold overrideStep. fold (envKey key).
      apply String.eqb_neq in Henv. rewrite Henv. cbn [negb].
      apply lookup_insert_eq.
    + intros Hkeep. rewrite IHkeep.
      * apply Hstep_other. destruct Hkeep as [Hnin | Hempty]; [|right; auto].
        left. intros ->. apply Hnin. left.
      * destruct Hkeep as [Hnin | Hempty]; [|right; auto].
        left. intros Hin. apply Hnin. right. exact Hin.
Qed.

Lemma ApplySecretEnvOverrides_lookup_aux (settings : gmap string V)
    (range : list (string * V)) (secrets : list string) (k : string) :
  range ≡ₚ map_to_list settings ->
  (k ∈ secrets -> getenv (envKey k) <> EmptyString ->
   ApplySecretEnvOverrides V ofString getenv settings range secrets !! k
   = Some (ofString (getenv (envKey k))))
  /\ (k ∉ secrets \/ getenv (envKey k) = EmptyString ->
      ApplySecretEnvOverrides V ofString getenv settings range secrets !! k
      = settings !! k).
Proof.
  intros Hrange. unfold ApplySecretEnvOverrides.
  rewrite (copy_settings settings range Hrange). apply overrides_lookup.
Qed.

(** X10. ApplySecretEnvOverrides returns the settings with, for each listed
    secret key whose variable KIKET_SECRET_<NAME> is set and not empty, that
    value in place of (or in addition to) what the settings hold; every other
    key keeps its value, and a variable that is empty counts as not set. *)
Theorem ApplySecretEnvOverrides_lookup (settings : gmap string V)
    (range : list (string * V)) (secrets : list string) (k : string) :
  range ≡ₚ map_to_list settings ->
  (k ∈ secrets -> getenv (envKey k) <> EmptyString ->
   ApplySecretEnvOverrides V ofString getenv settings range secrets !! k
   = Some (ofString (getenv (envKey k))))
  /\ (k ∉ secrets \/ getenv (envKey k) = EmptyString ->
      ApplySecretEnvOverrides V ofString getenv settings range secrets !! k
      = settings !! k).
Proof.
  exact (ApplySecretEnvOverrides_lookup_aux settings range secrets k).
Qed.

Lemma fold_secretStep (l : list (ManifestSetting.t V)) :
  forall acc,
    fold_left (secretStep V) l acc
    = acc ++ map ManifestSetting.Key
               (filter (fun st => ManifestSetting.Secret st = true) l).
Proof.
  induction l as [|st l IH]; intros acc; cbn [fold_left].
  - rewrite filter_nil. cbn [map]. rewrite app_nil_r. reflexivity.
  - rewrite IH. unfold secretStep.
    destruct (ManifestSetting.Secret st) eqn:Hs.
    + rewrite filter_cons_True by assumption. cbn [map].
      rewrite <- app_assoc. reflexivity.
    + rewrite filter_cons_False by congruence. reflexivity.
Qed.

Lemma SecretKeys_filter (m : Manifest.t V) :
  SecretKeys V (Some m)
  = map ManifestSetting.Key
        (filter (fun st => ManifestSetting.Secret st = true)
                (Manifest.Settings m)).
Proof.
  unfold SecretKeys. destruct (Manifest.Settings m) as [|st l] eqn:Hl.
  - reflexivity.
  - cbn [length Nat.eqb]. rewrite fold_secretStep. reflexivity.
Qed.

Lemma elem_of_SecretKeys (m : Manifest.t V) (k : string) :
  k ∈ SecretKeys V (Some m)
  <-> exists st, st ∈ Manifest.Settings m /\ ManifestSetting.Key st = k
                 /\ ManifestSetting.Secret st = true.
Proof.
  rewrite SecretKeys_filter, list_elem_of_fmap. split.
  - intros (st & -> & Hin). apply list_elem_of_filter in Hin as [Hs Hin].
    eauto.
  - intros (st & Hin & <- & Hs). exists st. split; [reflexivity|].
    apply list_elem_of_filter. split; assumption.
Qed.

Lemma fold_defaultStep_origin (l : list (ManifestSetting.t V)) :
  forall (acc : gmap string V) (k : string) (d : V),
    fold_left (defaultStep V) l acc !! k = Some d ->
    acc !! k = Some d
    \/ exists st, st ∈ l /\ ManifestSetting.Key st = k
                  /\ ManifestSetting.Default st = Some d.
Proof.
  induction l as [|st l IH]; intros acc k d; cbn [fold_left]; [auto|].
  intros Hk. apply IH in Hk as [Hk | (st' & Hin & Hkey & Hd)].
  - unfold defaultStep in Hk.
    destruct (ManifestSetting.Default st) as [d0|] eqn:Hd0; [|auto].
    destruct (decide (ManifestSetting.Key st = k)) as [Hkey|Hne].
    + subst k. rewrite lookup_insert_eq in Hk. injection Hk as ->.
      right. exists st. split; [left|auto].
    + rewrite lookup_insert_ne in Hk by exact Hne. auto.
  - right. exists st'. split; [right; exact Hin | auto].
Qed.

Lemma fold_defaultStep_keep (l : list (ManifestSetting.t V)) :
  forall (acc : gmap string V) (k : string),
    (forall st, st ∈ l -> ManifestSetting.Key st = k ->
                ManifestSetting.Default st = None) ->
    fold_left (defaultStep V) l acc !! k = acc !! k.
Proof.
  induction l as [|st l IH]; intros acc k Hnil; cbn [fold_left];
    [reflexivity|].
  rewrite IH by (intros st' Hin; apply Hnil; right; exact Hin).
  unfold defaultStep.
  destruct (ManifestSetting.Default st) as [d0|] eqn:Hd0; [|reflexivity].
  apply lookup_insert_ne. intros Hkey.
  rewrite (Hnil st ltac:(left) Hkey) in Hd0. discriminate Hd0.
Qed.

(** X11. SettingsDefaults holds exactly defaults written in the manifest: a
    value found under a key is the non-nil default of a setting with that
    key, and of several settings with one key the last one with a non-nil
    default wins (a nil default neither removes nor replaces an earlier
    one); for a nil manifest the result is empty. *)
Theorem SettingsDefaults_lookup (m : Manifest.t V) :
  SettingsDefaults V None = ∅
  /\ (forall k d,
        SettingsDefaults V (Some m) !! k = Some d ->
        exists st, st ∈ Manifest.Settings m /\ ManifestSetting.Key st = k
                   /\ ManifestSetting.Default st = Some d)
  /\ (forall l1 st l2 d,
        Manifest.Settings m = l1 ++ st :: l2 ->
        ManifestSetting.Default st = Some d ->
        (forall st', st' ∈ l2 ->
                     ManifestSetting.Key st' = ManifestSetting.Key st ->
                     ManifestSetting.Default st' = None) ->
        SettingsDefaults V (Some m) !! ManifestSetting.Key st = Some d).
Proof.
  split; [reflexivity|]. split.
  - intros k d. unfold SettingsDefaults.
    destruct (Nat.eqb (length (Manifest.Settings m)) 0).
    + rewrite lookup_empty. discriminate.
    + intros Hk. apply fold_defaultStep_origin in Hk as [Hk | Hk];
        [|exact Hk].
      rewrite lookup_empty in Hk. discriminate Hk.
  - intros l1 st l2 d Hl Hd Hlast. unfold SettingsDefaults. rewrite Hl.
    rewrite length_app. cbn [length].
    replace (Nat.eqb (length l1 + S (length l2)) 0) with false
      by (symmetry; apply Nat.eqb_neq; lia).
    rewrite fold_left_app. cbn [fold_left].
    rewrite fold_defaultStep_keep by assumption.
    unfold defaultStep. rewrite Hd. apply lookup_insert_eq.
Qed.

(** X12. In the settings that New builds from a manifest (its defaults, then
    the environment overrides for its secret keys), a key that no setting
    marks as secret keeps its manifest default whatever the environment
    holds, and a key marked as secret takes the value of its variable when
    that is set and not empty, also when it has no default. *)
Theorem manifest_settings_overrides (m : Manifest.t V)
    (range : list (string * V)) (k : string) :
  let defaults := SettingsDefaults V (Some m) in
  let final := ApplySecretEnvOverrides V ofString getenv defaults range
                 (SecretKeys V (Some m)) in
  range ≡ₚ map_to_list defaults ->
  ((forall st, st ∈ Manifest.Settings m -> ManifestSetting.Key st = k ->
               ManifestSetting.Secret st = false) ->
   final !! k = defaults !! k)
  /\ (forall st, st ∈ Manifest.Settings m -> ManifestSetting.Key st = k ->
                 ManifestSetting.Secret st = true ->
                 getenv (envKey k) <> EmptyString ->
                 final !! k = Some (ofString (getenv (envKey k)))).
Proof.
  intros defaults final Hrange. subst final.
  destruct (ApplySecretEnvOverrides_lookup_aux defaults range
              (SecretKeys V (Some m)) k Hrange) as [Hset Hkeep].
  split.
  - intros Hns. apply Hkeep. left. intros Hin.
    apply elem_of_SecretKeys in Hin as (st & Hst & Hkey & Hs).
    rewrite (Hns st Hst Hkey) in Hs. discriminate Hs.
  - intros st Hst Hkey Hs Henv. apply Hset; [|exact Henv].
    apply elem_of_SecretKeys. eauto.
Qed.

End ManifestFacts.

Lemma ApplySecretEnvOverrides_lookup_witness :
  let settings : gmap string string :=
    <["apiKey" := "default"%string]> (<["region" := "eu"%string]> ∅) in
  let updated :=
    ApplySecretEnvOverrides string id exampleEnv settings
      (map_to_list settings) ["apiKey"%string] in
  updated !! "apiKey"%string = Some "sekret"%string
  /\ updated !! "region"%string = Some "eu"%string.
Proof.
  intros settings updated. split.
  - refine (proj1 (ApplySecretEnvOverrides_lookup id exampleEnv settings
                     (map_to_list settings) ["apiKey"%string]
                     "apiKey"%string _) _ _).
    + reflexivity.
    + apply list_elem_of_here.
    + vm_compute. discriminate.
  - refine (proj2 (ApplySecretEnvOverrides_lookup id exampleEnv settings
                     (map_to_list settings) ["apiKey"%string]
                     "region"%string _) _).
    + reflexivity.
    + right. reflexivity.
Defined.

Lemma SettingsDefaults_lookup_witness :
  SettingsDefaults string (Some exampleManifest) !! "region"%string
  = Some "us"%string.
Proof.
  refine (proj2 (proj2 (SettingsDefaults_lookup exampleManifest))
            [ManifestSetting.Make "apiKey" None true;
             ManifestSetting.Make "region" (Some "eu"%string) false]
            (ManifestSetting.Make "region" (Some "us"%string) false)
            [ManifestSetting.Make "region" None false]
            "us"%string _ _ _).
  - reflexivity.
  - reflexivity.
  - intros st' Hin _. apply list_elem_of_singleton in Hin. subst st'.
    reflexivity.
Defined.

Lemma manifest_settings_overrides_witness :
  let defaults := SettingsDefaults string (Some exampleManifest) in
  let final := ApplySecretEnvOverrides string id exampleEnv defaults
                 (map_to_list defaults)
                 (SecretKeys string (Some exampleManifest)) in
  final !! "apiKey"%string = Some "sekret"%string.
Proof.
  intros defaults final.
  refine (proj2 (manifest_settings_overrides id exampleEnv exampleManifest
                   (map_to_list defaults) "apiKey"%string _)
            (ManifestSetting.Make "apiKey" None true) _ _ _ _).
  - reflexivity.
  - apply list_elem_of_here.
  - reflexivity.
  - reflexivity.
  - vm_compute. discriminate.
Defined.

(** ** The telemetry endpoint *)

Lemma substring_0_app (p s : string) :
  String.substring 0 (String.length p) (String.append p s) = p.
Proof.
  induction p as [|c p IH]; [apply substring_0_0|].
  rewrite append_cons. cbn [String.length String.substring]. rewrite IH.
  reflexivity.
Qed.

Lemma substring_skip_app (p s : string) (m : nat) :
  String.substring (String.length p) m (String.append p s)
  = String.substring 0 m s.
Proof.
  induction p as [|c p IH]; [reflexivity|].
  rewrite append_cons. cbn [String.length String.substring]. exact IH.
Qed.

Lemma substring_split (s : string) :
  forall n, (n <= String.length s)%nat ->
    s = String.append (String.substring 0 n s)
                      (String.substring n (String.length s - n) s).
Proof.
  induction s as [|c s IH]; intros n Hn.
  - destruct n; reflexivity.
  - destruct n as [|n].
    + cbn [String.substring]. rewrite append_nil_l.
      cbn [String.length Nat.sub]. rewrite substring_0_length. reflexivity.
    + cbn [String.length] in Hn. cbn [String.substring String.length Nat.sub].
      rewrite append_cons. f_equal. apply IH. lia.
Qed.

Lemma HasSuffix_spec (s suffix : string) :
  strings.HasSuffix s suffix = true
  <-> exists p, s = String.append p suffix.
Proof.
  unfold strings.HasSuffix. rewrite andb_true_iff, Nat.leb_le, String.eqb_eq.
  split.
  - intros [Hlen Hsub].
    exists (String.substring 0 (String.length s - String.length suffix) s).
    pose proof (substring_split s (String.length s - String.length suffix)
                  ltac:(lia)) as Hsplit.
    replace (String.length s - (String.length s - String.length suffix))%nat
      with (String.length suffix) in Hsplit by lia.
    rewrite Hsub in Hsplit. exact Hsplit.
  - intros [p ->]. rewrite length_append. split; [lia|].
    replace (String.length p + String.length suffix - String.length suffix)%nat
      with (String.length p) by lia.
    rewrite substring_skip_app. apply substring_0_length.
Qed.

Lemma TrimSuffix_app (p suffix : string) :
  strings.TrimSuffix (String.append p suffix) suffix = p.
Proof.
  unfold strings.TrimSuffix.
  rewrite (proj2 (HasSuffix_spec _ suffix)) by eauto.
  rewrite length_append.
  replace (String.length p + String.length suffix - String.length suffix)%nat
    with (String.length p) by lia.
  apply substring_0_app.
Qed.

Lemma list_ascii_of_string_append (a b : string) :
  list_ascii_of_string (String.append a b)
  = list_ascii_of_string a ++ list_ascii_of_string b.
Proof.
  induction a as [|c a IH]; [reflexivity|].
  rewrite append_cons. cbn [list_ascii_of_string app]. rewrite IH.
  reflexivity.
Qed.

(* two strings that are equal end with the same character *)
Lemma append_last_char (p q : string) (c d : ascii) :
  String.append p (String c EmptyString)
  = String.append q (String d EmptyString) -> c = d.
Proof.
  intros H. apply (f_equal list_ascii_of_string) in H.
  rewrite !list_ascii_of_string_append in H. cbn [list_ascii_of_string] in H.
  apply app_inj_tail in H as [_ H]. exact H.
Qed.

Lemma telemetry_suffix_no_slash (p : string) :
  strings.HasSuffix (String.append p "/telemetry") "/" = false.
Proof.
  destruct (strings.HasSuffix _ "/") eqn:H; [|reflexivity].
  apply HasSuffix_spec in H as [q Hq].
  change "/telemetry"%string
    with (String.append "/telemetr" (String "y" EmptyString)) in Hq.
  rewrite <- append_assoc in Hq. apply append_last_char in Hq.
  discriminate Hq.
Qed.

Lemma WithTelemetryEndpoint_endpoint (url : string) (r : TelemetryReporter.t) :
  url <> EmptyString ->
  exists p,
    TelemetryReporter.endpoint (WithTelemetryEndpoint url r)
    = String.append p "/telemetry".
Proof.
  intros Hurl. unfold WithTelemetryEndpoint.
  apply String.eqb_neq in Hurl. rewrite Hurl. cbn [negb].
  cbn [TelemetryReporter.endpoint].
  destruct (strings.HasSuffix (strings.TrimSuffix url "/") "/telemetry")
    eqn:Hs; cbn [negb].
  - apply HasSuffix_spec in Hs. exact Hs.
  - eauto.
Qed.

(** X13. WithTelemetryEndpoint changes nothing but the endpoint: the
    reporter it returns is the one it was given with, at most, another
    endpoint, so enabled, the extension id and version and the timeout are
    kept. The empty URL leaves the reporter as it is. For a non-empty URL
    the endpoint set ends with "/telemetry"; applying the option again with
    the endpoint it produced changes nothing; one trailing "/" of the URL
    makes no difference. *)
Theorem WithTelemetryEndpoint_normalizes (url : string)
    (r : TelemetryReporter.t) :
  WithTelemetryEndpoint EmptyString r = r
  /\ WithTelemetryEndpoint url r
     = TelemetryReporter.Make
         (TelemetryReporter.endpoint (WithTelemetryEndpoint url r))
         (TelemetryReporter.enabled r) (TelemetryReporter.extensionID r)
         (TelemetryReporter.extensionVersion r)
         (TelemetryReporter.httpClientTimeout r)
  /\ TelemetryReporter.enabled (WithTelemetryEndpoint url r)
     = TelemetryReporter.enabled r
  /\ TelemetryReporter.extensionID (WithTelemetryEndpoint url r)
     = TelemetryReporter.extensionID r
  /\ TelemetryReporter.extensionVersion (WithTelemetryEndpoint url r)
     = TelemetryReporter.extensionVersion r
  /\ TelemetryReporter.httpClientTimeout (WithTelemetryEndpoint url r)
     = TelemetryReporter.httpClientTimeout r
  /\ (url <> EmptyString ->
      strings.HasSuffix
        (TelemetryReporter.endpoint (WithTelemetryEndpoint url r))
        "/telemetry" = true
      /\ WithTelemetryEndpoint
           (TelemetryReporter.endpoint (WithTelemetryEndpoint url r))
           (WithTelemetryEndpoint url r)
         = WithTelemetryEndpoint url r
      /\ (strings.HasSuffix url "/" = false ->
          WithTelemetryEndpoint (String.append url "/") r
          = WithTelemetryEndpoint url r)).
Proof.
  split; [reflexivity|].
  assert (Hkept : WithTelemetryEndpoint url r
     = TelemetryReporter.Make
         (TelemetryReporter.endpoint (WithTelemetryEndpoint url r))
         (TelemetryReporter.enabled r) (TelemetryReporter.extensionID r)
         (TelemetryReporter.extensionVersion r)
         (TelemetryReporter.httpClientTimeout r)).
  { unfold WithTelemetryEndpoint.
    destruct (negb (String.eqb url "")); [reflexivity|].
    destruct r; reflexivity. }
  split; [exact Hkept|].
  split; [rewrite Hkept; reflexivity|].
  split; [rewrite Hkept; reflexivity|].
  split; [rewrite Hkept; reflexivity|].
  split; [rewrite Hkept; reflexivity|].
  intros Hurl.
  destruct (WithTelemetryEndpoint_endpoint url r Hurl) as [p Hp].
  split; [|split].
  - rewrite Hp. apply HasSuffix_spec. eauto.
  - rewrite Hp. unfold WithTelemetryEndpoint at 1.
    assert (Hne : String.eqb (String.append p "/telemetry") "" = false).
    { apply String.eqb_neq. intros H.
      apply (f_equal String.length) in H. rewrite length_append in H.
      cbn in H. lia. }
    rewrite Hne. cbn [negb]. unfold strings.TrimSuffix.
    rewrite telemetry_suffix_no_slash.
    rewrite (proj2 (HasSuffix_spec _ "/telemetry")) by eauto. cbn [negb].
    rewrite <- Hp. unfold WithTelemetryEndpoint.
    apply String.eqb_neq in Hurl. rewrite Hurl. reflexivity.
  - intros Hslash. unfold WithTelemetryEndpoint.
    assert (Hne : String.eqb (String.append url "/") "" = false).
    { apply String.eqb_neq. intros H.
      apply (f_equal String.length) in H. rewrite length_append in H.
      cbn in H. lia. }
    apply String.eqb_neq in Hurl. rewrite Hne, Hurl. cbn [negb].
    rewrite TrimSuffix_app. unfold strings.TrimSuffix.
    rewrite Hslash. reflexivity.
Qed.

Lemma WithTelemetryEndpoint_normalizes_witness :
  let r := TelemetryReporter.Make "" true "ext" "1.0" 5000000000 in
  TelemetryReporter.endpoint
    (WithTelemetryEndpoint "https://t.example/api/" r)
  = "https://t.example/api/telemetry"%string
  /\ WithTelemetryEndpoint "https://t.example/api/" r
     = WithTelemetryEndpoint "https://t.example/api" r.
Proof.
  intros r. split; [reflexivity|].
  destruct (WithTelemetryEndpoint_normalizes "https://t.example/api" r)
    as (_ & _ & _ & _ & _ & _ & H).
  destruct (H ltac:(discriminate)) as (_ & _ & Hslash).
  exact (Hslash eq_refl).
Defined.


(** ** The handler registry and the webhook entry points *)

Lemma handlerKey_inj (e1 v1 e2 v2 : string) :
  noColon e1 = true -> noColon e2 = true ->
  handlerKey e1 v1 = handlerKey e2 v2 -> e1 = e2 /\ v1 = v2.
Proof.
  unfold handlerKey. revert e2.
  induction e1 as [|c1 e1 IH]; intros [|c2 e2] H1 H2 Hkey;
    rewrite ?append_cons, ?append_nil_l in Hkey.
  - injection Hkey as ->. split; reflexivity.
  - injection Hkey as <- _. discriminate H2.
  - injection Hkey as -> _. discriminate H1.
  - injection Hkey as -> Hkey. simpl in H1, H2.
    apply andb_true_iff in H1 as [_ H1], H2 as [_ H2].
    destruct (IH e2 H1 H2 Hkey) as [-> ->]. split; reflexivity.
Qed.

Lemma VerifySignature_AuthenticationError (now : Z) (secret : string)
    (body : list byte) (headers : Headers) (e : error) :
  VerifySignature now secret body headers = Some e ->
  exists m, e = AuthenticationError m.
Proof.
  unfold VerifySignature.
  repeat match goal with
         | |- context [if ?b then _ else _] => destruct b
         | |- context [match ?x with inl _ => _ | inr _ => _ end] => destruct x
         end;
    intros [= <-] || discriminate; eexists; reflexivity.
Qed.

(* the headers of GenerateSignature pass VerifySignature within the window *)
Lemma VerifySignature_generated (now genNow : Z) (secret body : string)
    (timestamp : option Z) (headers : Headers) :
  secret <> EmptyString ->
  - 2 ^ 63 <= default genNow timestamp < 2 ^ 63 ->
  Z.abs (now - default genNow timestamp) <= 300 ->
  carries headers "X-Kiket-Signature" "x-kiket-signature"
    (fst (GenerateSignature genNow secret body timestamp)) ->
  carries headers "X-Kiket-Timestamp" "x-kiket-timestamp"
    (snd (GenerateSignature genNow secret body timestamp)) ->
  VerifySignature now secret (list_byte_of_string body) headers = None.
Proof.
  intros Hsecret HT Hwin Hsig Hts.
  rewrite GenerateSignature_expected in Hsig, Hts. cbn [fst snd] in Hsig, Hts.
  apply carries_headerValue in Hsig; [|apply expectedSignature_nonempty].
  apply carries_headerValue in Hts; [|apply FormatInt_nonempty].
  fold (signatureHeader headers) in Hsig.
  fold (timestampHeader headers) in Hts.
  assert (Hparse : strconv.ParseInt (timestampHeader headers)
                   = inl (default genNow timestamp)).
  { rewrite Hts. apply ParseInt_FormatInt. assumption. }
  rewrite (VerifySignature_parsed now _ _ headers (default genNow timestamp));
    try assumption.
  - rewrite now_minus_near by assumption.
    destruct (Z.ltb_spec 300 (Z.abs (now - default genNow timestamp)));
      [lia|].
    unfold checkSignature. rewrite Hsig, Hts, String.eqb_refl. reflexivity.
  - rewrite Hsig. apply expectedSignature_nonempty.
Qed.


Section WebhookFacts.

Context {V Result Ctx ClientT EndpointsT SecretManagerT : Type}.
Context (asString : V -> option string).
Context (unmarshal : list byte -> gmap string V + error).
Context (endpointsSecrets : EndpointsT -> SecretManagerT).
Context (encodeResult : Result -> option (list byte)).

Implicit Types s : SDK.t V Result Ctx ClientT EndpointsT SecretManagerT.
Implicit Types range : list
  (HandlerMetadata.t V Result Ctx ClientT EndpointsT SecretManagerT).

(** X14. On followed by GetHandler: the handler is found under the event
    and the first of the versions given (v1 when none is given); when
    neither event name holds a colon, every other pair of event and version
    is answered as before; an event name with a colon is also found under
    the name up to the colon, with the rest as part of the version. *)
Theorem On_GetHandler s (event : string)
    (handler : WebhookHandler V Result Ctx ClientT EndpointsT SecretManagerT)
    (versions : list string) :
  let version := hd "v1"%string versions in
  GetHandler (On s event handler versions) event version
  = Some (HandlerMetadata.Make event version handler)
  /\ (forall event' version',
        noColon event = true -> noColon event' = true ->
        (event', version') <> (event, version) ->
        GetHandler (On s event handler versions) event' version'
        = GetHandler s event' version')
  /\ (forall x,
        GetHandler
          (On s (String.append event (String.append ":" x)) handler versions)
          event (String.append x (String.append ":" version))
        = Some (HandlerMetadata.Make
                  (String.append event (String.append ":" x)) version
                  handler)).
Proof.
  intros version.
  assert (Hv : match versions with v :: _ => v | [] => "v1"%string end
               = version) by (destruct versions; reflexivity).
  unfold GetHandler, On. cbn [SDK.handlers]. rewrite !Hv.
  split; [apply lookup_insert_eq|]. split.
  - intros event' version' Hc Hc' Hne. apply lookup_insert_ne.
    intros Hkey. apply handlerKey_inj in Hkey as [-> ->]; try assumption.
    apply Hne. reflexivity.
  - intros x.
    replace (handlerKey event (String.append x (String.append ":" version)))
      with (handlerKey (String.append event (String.append ":" x)) version).
    + apply lookup_insert_eq.
    + unfold handlerKey. rewrite !append_assoc. reflexivity.
Qed.

Lemma eventStep_fold range (names : list string)
    (seen : gmap string bool) :
  NoDup names ->
  (forall x, default false (seen !! x) = true <-> x ∈ names) ->
  let st := fold_left (eventStep V Result Ctx ClientT EndpointsT
                         SecretManagerT) range (names, seen) in
  NoDup (fst st)
  /\ (forall x, x ∈ fst st <->
        x ∈ names \/ exists h, h ∈ range /\ HandlerMetadata.Event h = x).
Proof.
  revert names seen.
  induction range as [|h range IH]; intros names seen Hnd Hseen; cbn.
  - split; [assumption|]. intros x. split; [tauto|].
    intros [Hx | (h & Hh & _)]; [assumption|]. inversion Hh.
  - destruct (default false (seen !! HandlerMetadata.Event h)) eqn:Hs; cbn.
    + destruct (IH names seen Hnd Hseen) as [Hn Hm]. split; [exact Hn|].
      intros x. rewrite (Hm x). split.
      * intros [Hx | (h' & Hh' & He)]; [left; assumption|].
        right. exists h'. split; [right; assumption | assumption].
      * intros [Hx | (h' & Hh' & He)]; [left; assumption|].
        apply elem_of_cons in Hh' as [-> | Hh'].
        -- left. subst x. apply Hseen. assumption.
        -- right. exists h'. split; assumption.
    + assert (Hnew : HandlerMetadata.Event h ∉ names).
      { intros Hin. apply Hseen in Hin. congruence. }
      destruct (IH (names ++ [HandlerMetadata.Event h])
                  (<[HandlerMetadata.Event h := true]> seen)) as [Hn Hm].
      * apply NoDup_app. split; [assumption|]. split.
        -- intros x Hx Hx'. apply list_elem_of_singleton in Hx'. subst x.
           contradiction.
        -- apply NoDup_singleton.
      * intros x. rewrite elem_of_app, list_elem_of_singleton.
        destruct (decide (x = HandlerMetadata.Event h)) as [-> | Hne].
        -- rewrite lookup_insert_eq. cbn. tauto.
        -- rewrite lookup_insert_ne by congruence. rewrite (Hseen x). tauto.
      * split; [exact Hn|]. intros x. rewrite (Hm x).
        rewrite elem_of_app, list_elem_of_singleton. split.
        -- intros [[Hx | ->] | (h' & Hh' & He)].
           ++ left. assumption.
           ++ right. exists h. split; [left | reflexivity].
           ++ right. exists h'. split; [right; assumption | assumption].
        -- intros [Hx | (h' & Hh' & He)]; [left; left; assumption|].
           apply elem_of_cons in Hh' as [-> | Hh'].
           ++ left. right. symmetry. assumption.
           ++ right. exists h'. split; assumption.
Qed.

Lemma EventNames_spec s range :
  NoDup (EventNames s range)
  /\ (forall x, x ∈ EventNames s range <->
        exists h, h ∈ range /\ HandlerMetadata.Event h = x).
Proof.
  unfold EventNames.
  destruct (eventStep_fold range [] ∅) as [Hn Hm].
  - apply NoDup_nil_2.
  - intros x. rewrite lookup_empty. cbn. split; [discriminate|].
    intros Hx. inversion Hx.
  - split; [exact Hn|]. intros x. rewrite (Hm x). split.
    + intros [Hx | Hx]; [inversion Hx | exact Hx].
    + intros Hx. right. exact Hx.
Qed.

(** X15. EventNames returns no name twice, whatever the order in which the
    map of handlers is ranged over; a name is returned exactly when some
    registered handler carries it as its event; two orders of iteration give
    the same names up to their order. *)
Theorem EventNames_distinct s range (range' : list
      (HandlerMetadata.t V Result Ctx ClientT EndpointsT SecretManagerT)) :
  range ≡ₚ registered s -> range' ≡ₚ registered s ->
  NoDup (EventNames s range)
  /\ (forall x, x ∈ EventNames s range <->
        exists key h, SDK.handlers s !! key = Some h
                      /\ HandlerMetadata.Event h = x)
  /\ EventNames s range ≡ₚ EventNames s range'.
Proof.
  intros Hr Hr'.
  destruct (EventNames_spec s range) as [Hn Hm].
  destruct (EventNames_spec s range') as [Hn' Hm'].
  split; [exact Hn|]. split.
  - intros x. rewrite (Hm x). split.
    + intros (h & Hh & He). rewrite Hr in Hh. unfold registered in Hh.
      apply list_elem_of_fmap in Hh as ([key h'] & -> & Hin).
      apply elem_of_map_to_list in Hin. exists key, h'. split; assumption.
    + intros (key & h & Hl & He). exists h. split; [|assumption].
      rewrite Hr. unfold registered. apply list_elem_of_fmap.
      exists (key, h). split; [reflexivity|].
      apply elem_of_map_to_list. assumption.
  - apply NoDup_Permutation; try assumption.
    intros x. rewrite (Hm x), (Hm' x).
    split; intros (h & Hh & He); exists h; (split; [|assumption]).
    + rewrite Hr'. rewrite <- Hr. assumption.
    + rewrite Hr. rewrite <- Hr'. assumption.
Qed.

Lemma HandleWebhook_verified (now : Z) s (ctx : Ctx)
    (body : list byte) (headers : Headers) (payload : gmap string V) :
  VerifySignature now (Config.WebhookSecret (SDK.config s)) body headers
  = None ->
  unmarshal body = inl payload ->
  HandleWebhook asString unmarshal endpointsSecrets now s ctx body headers
  = match GetHandler s (eventName asString payload) (eventVersion headers)
    with
    | None =>
        (None,
         Some (errorString
                 (String.append "no handler registered for event "
                    (String.append (eventName asString payload)
                       (String.append " (version "
                          (String.append (eventVersion headers) ")"))))))
    | Some handler =>
        HandlerMetadata.Handler handler ctx payload
          (HandlerContext.Make (eventName asString payload)
             (eventVersion headers) headers (SDK.client s) (SDK.endpoints s)
             (Config.Settings (SDK.config s))
             (Config.ExtensionID (SDK.config s))
             (Config.ExtensionVersion (SDK.config s))
             (endpointsSecrets (SDK.endpoints s)))
    end.
Proof.
  intros Hverify Hparse. unfold HandleWebhook.
  rewrite Hverify, Hparse. reflexivity.
Qed.

Lemma GetHandler_On s (event : string)
    (handler : WebhookHandler V Result Ctx ClientT EndpointsT SecretManagerT)
    (versions : list string) :
  GetHandler (On s event handler versions) event (hd "v1"%string versions)
  = Some (HandlerMetadata.Make event (hd "v1"%string versions) handler).
Proof.
  unfold GetHandler, On. cbn [SDK.handlers].
  destruct versions; apply lookup_insert_eq.
Qed.

(** X16. A webhook signed by GenerateSignature reaches the handler that On
    registered: with a non-empty webhook secret, a timestamp T within 300
    seconds of the clock, headers that carry the generated signature and
    timestamp, a body that parses to a payload, and a handler registered for
    the payload's event under the version that the headers name (v1 when
    they name none), HandleWebhook returns what that handler returns on the
    payload and on a context holding the event, the version, the headers and
    the SDK's client, endpoints, settings and extension identity. *)
Theorem HandleWebhook_dispatch (now genNow : Z) s (ctx : Ctx)
    (body : string) (timestamp : option Z) (headers : Headers)
    (payload : gmap string V)
    (handler : WebhookHandler V Result Ctx ClientT EndpointsT SecretManagerT)
    (versions : list string) :
  let secret := Config.WebhookSecret (SDK.config s) in
  let generated := GenerateSignature genNow secret body timestamp in
  let T := default genNow timestamp in
  let event := eventName asString payload in
  let version := hd "v1"%string versions in
  secret <> EmptyString ->
  - 2 ^ 63 <= T < 2 ^ 63 ->
  Z.abs (now - T) <= 300 ->
  carries headers "X-Kiket-Signature" "x-kiket-signature" (fst generated) ->
  carries headers "X-Kiket-Timestamp" "x-kiket-timestamp" (snd generated) ->
  unmarshal (list_byte_of_string body) = inl payload ->
  eventVersion headers = version ->
  HandleWebhook asString unmarshal endpointsSecrets now
    (On s event handler versions) ctx (list_byte_of_string body) headers
  = handler ctx payload
      (HandlerContext.Make event version headers (SDK.client s)
         (SDK.endpoints s) (Config.Settings (SDK.config s))
         (Config.ExtensionID (SDK.config s))
         (Config.ExtensionVersion (SDK.config s))
         (endpointsSecrets (SDK.endpoints s))).
Proof.
  intros secret generated T event version Hsecret HT Hwin Hsig Hts Hparse
    Hversion.
  rewrite (HandleWebhook_verified now _ ctx _ headers payload).
  - fold event. rewrite Hversion. unfold version.
    rewrite GetHandler_On. reflexivity.
  - apply (VerifySignature_generated now genNow secret body timestamp);
      assumption.
  - assumption.
Qed.

(** X17. What ServeHTTP answers to a POST request whose body could be read
    and that no handler serves. When VerifySignature refuses the request,
    the answer is 401 with the error's message and a newline as a plain
    text body, whatever the handlers and the body's content. When the
    signature verifies and the body parses, but no handler is registered
    for the payload's event and version, the answer is 500 and names both.
    When the signature verifies and the body does not parse, the answer is
    500 unless the parse error itself holds an AuthenticationError. *)
Theorem ServeHTTP_rejects (now : Z) s (r : Request.t Ctx)
    (body : list byte) :
  let headers := convertHeaders (Request.Header r) in
  let verified :=
    VerifySignature now (Config.WebhookSecret (SDK.config s)) body headers in
  let serve := ServeHTTP asString unmarshal endpointsSecrets encodeResult in
  Request.Method r = "POST"%string ->
  Request.Body r = inl body ->
  (forall e, verified = Some e ->
     serve now s r = http.Error (Error e) 401
     /\ Response.Header (serve now s r) !! "Content-Type"%string
        = Some "text/plain; charset=utf-8"%string)
  /\ (forall payload,
        verified = None -> unmarshal body = inl payload ->
        GetHandler s (eventName asString payload) (eventVersion headers)
        = None ->
        serve now s r
        = http.Error
            (String.append "no handler registered for event "
               (String.append (eventName asString payload)
                  (String.append " (version "
                     (String.append (eventVersion headers) ")")))) 500)
  /\ (forall err,
        verified = None -> unmarshal body = inr err ->
        IsAuthenticationError (Some err) = false ->
        serve now s r
        = http.Error
            (String.append "failed to parse webhook payload: " (Error err))
            500).
Proof.
  intros headers verified serve Hmethod Hbody.
  unfold serve, ServeHTTP. rewrite Hmethod, Hbody. cbn [negb String.eqb].
  change (String.eqb "POST" http.MethodPost) with true. cbn [negb].
  fold headers. split; [|split].
  - intros e He. unfold HandleWebhook. fold verified. rewrite He.
    destruct (VerifySignature_AuthenticationError _ _ _ _ _ He) as [m ->].
    split; reflexivity.
  - intros payload Hv Hparse Hnone.
    rewrite (HandleWebhook_verified now s _ body headers payload Hv Hparse).
    rewrite Hnone. reflexivity.
  - intros err Hv Hparse Hauth. unfold HandleWebhook. fold verified.
    rewrite Hv, Hparse. cbn in Hauth |- *. rewrite Hauth. reflexivity.
Qed.

Lemma convertHeaders_first (header : gmap string (list string))
    (k v : string) (vs : list string) :
  header !! k = Some (v :: vs) -> convertHeaders header !! k = Some v.
Proof.
  intros H. unfold convertHeaders. rewrite lookup_omap, H. reflexivity.
Qed.

(** X18. A signed POST request is served with 200 by the registered
    handler. The request carries the signature and the timestamp of
    GenerateSignature as the first values of X-Kiket-Signature and
    X-Kiket-Timestamp (further values are ignored), T is within 300 seconds
    of the clock, the body parses, and the handler is registered for the
    payload's event and the version that the headers name. Then a result of
    the handler is answered as its JSON encoding and a newline, and a nil
    result as the two bytes of an empty object, both as application/json;
    an error of the handler is answered with 401 when an AuthenticationError
    is in its chain and with 500 otherwise. *)
Theorem ServeHTTP_roundtrip (now genNow : Z) s (r : Request.t Ctx)
    (body : string) (timestamp : option Z) (sigs tss : list string)
    (payload : gmap string V)
    (handler : WebhookHandler V Result Ctx ClientT EndpointsT SecretManagerT)
    (versions : list string) :
  let secret := Config.WebhookSecret (SDK.config s) in
  let generated := GenerateSignature genNow secret body timestamp in
  let T := default genNow timestamp in
  let headers := convertHeaders (Request.Header r) in
  let event := eventName asString payload in
  let version := hd "v1"%string versions in
  let outcome :=
    handler (Request.Context r) payload
      (HandlerContext.Make event version headers (SDK.client s)
         (SDK.endpoints s) (Config.Settings (SDK.config s))
         (Config.ExtensionID (SDK.config s))
         (Config.ExtensionVersion (SDK.config s))
         (endpointsSecrets (SDK.endpoints s))) in
  let response :=
    ServeHTTP asString unmarshal endpointsSecrets encodeResult now
      (On s event handler versions) r in
  Request.Method r = "POST"%string ->
  Request.Body r = inl (list_byte_of_string body) ->
  Request.Header r !! "X-Kiket-Signature"%string
  = Some (fst generated :: sigs) ->
  Request.Header r !! "X-Kiket-Timestamp"%string
  = Some (snd generated :: tss) ->
  secret <> EmptyString ->
  - 2 ^ 63 <= T < 2 ^ 63 ->
  Z.abs (now - T) <= 300 ->
  unmarshal (list_byte_of_string body) = inl payload ->
  eventVersion headers = version ->
  (forall result js,
     outcome = (Some result, None) -> encodeResult result = Some js ->
     response = Response.Make 200 jsonHeader (js ++ [http.newline]))
  /\ (outcome = (None, None) ->
      response = Response.Make 200 jsonHeader (list_byte_of_string "{}"))
  /\ (forall result err,
        outcome = (result, Some err) ->
        response
        = http.Error (Error err)
            (if IsAuthenticationError (Some err) then 401 else 500)).
Proof.
  intros secret generated T headers event version outcome response
    Hmethod Hbody Hsig Hts Hsecret HT Hwin Hparse Hversion.
  assert (Hhandle :
    HandleWebhook asString unmarshal endpointsSecrets now
      (On s event handler versions) (Request.Context r)
      (list_byte_of_string body) headers = outcome).
  { rewrite (HandleWebhook_verified now _ _ _ headers payload).
    - fold event. rewrite Hversion. unfold version.
      rewrite GetHandler_On. reflexivity.
    - apply (VerifySignature_generated now genNow secret body timestamp);
        try assumption.
      + left. apply (convertHeaders_first _ _ _ sigs). assumption.
      + left. apply (convertHeaders_first _ _ _ tss). assumption.
    - assumption. }
  unfold response, ServeHTTP. rewrite Hmethod, Hbody.
  change (String.eqb "POST" http.MethodPost) with true. cbn [negb].
  fold headers. rewrite Hhandle.
  split; [|split].
  - intros result js -> Hjs. rewrite Hjs. reflexivity.
  - intros ->. reflexivity.
  - intros result err ->.
    destruct (IsAuthenticationError (Some err)); destruct result; reflexivity.
Qed.

End WebhookFacts.


Lemma On_GetHandler_witness :
  GetHandler (On exampleSDK "issue.created" echoEvent ["v2"%string])
    "issue.updated" "v2"
  = GetHandler exampleSDK "issue.updated" "v2".
Proof.
  destruct (On_GetHandler exampleSDK "issue.created" echoEvent
              ["v2"%string]) as (_ & H & _).
  apply (H "issue.updated"%string "v2"%string).
  - reflexivity.
  - reflexivity.
  - discriminate.
Defined.

Lemma EventNames_distinct_witness :
  let s := On (On exampleSDK "issue.created" echoEvent [])
             "issue.created" echoEvent ["v2"%string] in
  NoDup (EventNames s (registered s))
  /\ EventNames s (registered s) ≡ₚ EventNames s (List.rev (registered s)).
Proof.
  intros s.
  destruct (EventNames_distinct s (registered s) (List.rev (registered s)))
    as (Hn & _ & Hp).
  - reflexivity.
  - symmetry. apply Permutation_rev.
  - split; [exact Hn | exact Hp].
Defined.

Lemma HandleWebhook_dispatch_witness :
  let generated := GenerateSignature 0 "s3cr3t" "{}" (Some 1700000000) in
  let headers : Headers :=
    <["X-Kiket-Signature" := fst generated]>
      (<["x-kiket-timestamp" := snd generated]> ∅) in
  HandleWebhook Some exampleUnmarshal (fun _ => tt) 1700000300
    (On exampleSDK "issue.created" echoEvent []) tt
    (list_byte_of_string "{}") headers
  = (Some "issue.created"%string, None).
Proof.
  intros generated headers.
  apply (HandleWebhook_dispatch Some exampleUnmarshal (fun _ => tt)
           1700000300 0 exampleSDK tt "{}" (Some 1700000000) headers
           examplePayload echoEvent []).
  - discriminate.
  - simpl. lia.
  - simpl. lia.
  - left. vm_compute. reflexivity.
  - right. split; [left|]; vm_compute; reflexivity.
  - reflexivity.
  - vm_compute. reflexivity.
Defined.

Lemma ServeHTTP_rejects_witness :
  let r : Request.t unit :=
    Request.Make "POST" (inl (list_byte_of_string "{}")) ∅ tt in
  ServeHTTP Some exampleUnmarshal (fun _ => tt)
    (fun result => Some (list_byte_of_string result)) 0 exampleSDK r
  = http.Error "missing X-Kiket-Signature header" 401.
Proof.
  intros r.
  destruct (ServeHTTP_rejects Some exampleUnmarshal (fun _ => tt)
              (fun result => Some (list_byte_of_string result)) 0
              exampleSDK r (list_byte_of_string "{}"))
    as (H & _ & _).
  - reflexivity.
  - reflexivity.
  - destruct (H (AuthenticationError "missing X-Kiket-Signature header"))
      as [Hserve _].
    + vm_compute. reflexivity.
    + exact Hserve.
Defined.

Lemma ServeHTTP_roundtrip_witness :
  ServeHTTP Some exampleUnmarshal (fun _ => tt)
    (fun result => Some (list_byte_of_string result)) 1700000300
    (On exampleSDK "issue.created" echoEvent []) exampleRequest
  = Response.Make 200 jsonHeader
      (list_byte_of_string "issue.created" ++ [http.newline]).
Proof.
  destruct (ServeHTTP_roundtrip Some exampleUnmarshal (fun _ => tt)
              (fun result => Some (list_byte_of_string result))
              1700000300 0 exampleSDK exampleRequest "{}"
              (Some 1700000000) [] ["0"%string] examplePayload echoEvent [])
    as (H & _ & _).
  - reflexivity.
  - reflexivity.
  - vm_compute. reflexivity.
  - vm_compute. reflexivity.
  - discriminate.
  - simpl. lia.
  - simpl. lia.
  - reflexivity.
  - vm_compute. reflexivity.
  - apply (H "issue.created"%string); reflexivity.
Defined.


(** ** Escaping and the requests of the clients *)

Lemma unescape_escapeByte (mode : url.encoding) (c : ascii) (rest : string) :
  unescape mode (String.append (url.escapeByte c mode) rest)
  = option_map (String c) (unescape mode rest).
Proof.
  destruct mode; destruct c as [[] [] [] [] [] [] [] []]; reflexivity.
Qed.

Lemma unescape_escape (mode : url.encoding) (s : string) :
  unescape mode (url.escape s mode) = Some s.
Proof.
  induction s as [|c s IH]; [reflexivity|].
  cbn [url.escape]. rewrite unescape_escapeByte, IH. reflexivity.
Qed.

Lemma contains_app (c : ascii) (a b : string) :
  contains c (String.append a b) = contains c a || contains c b.
Proof.
  induction a as [|d a IH]; [reflexivity|].
  rewrite append_cons. cbn [contains]. rewrite IH, orb_assoc. reflexivity.
Qed.

Lemma escapeByte_query_safe (c : ascii) :
  contains "&" (url.escapeByte c url.encodeQueryComponent) = false
  /\ contains "=" (url.escapeByte c url.encodeQueryComponent) = false
  /\ contains ";" (url.escapeByte c url.encodeQueryComponent) = false
  /\ contains "?" (url.escapeByte c url.encodeQueryComponent) = false
  /\ contains "#" (url.escapeByte c url.encodeQueryComponent) = false.
Proof.
  destruct c as [[] [] [] [] [] [] [] []]; repeat split; reflexivity.
Qed.

Lemma QueryEscape_safe (s : string) :
  contains "&" (url.QueryEscape s) = false
  /\ contains "=" (url.QueryEscape s) = false
  /\ contains ";" (url.QueryEscape s) = false
  /\ contains "?" (url.QueryEscape s) = false
  /\ contains "#" (url.QueryEscape s) = false.
Proof.
  unfold url.QueryEscape.
  induction s as [|c s (H1 & H2 & H3 & H4 & H5)];
    [repeat split; reflexivity|].
  cbn [url.escape]. rewrite !contains_app, H1, H2, H3, H4, H5.
  destruct (escapeByte_query_safe c) as (-> & -> & -> & -> & ->).
  repeat split; reflexivity.
Qed.

Lemma escapeByte_path_safe (c : ascii) :
  contains "/" (url.escapeByte c url.encodePathSegment) = false
  /\ contains "?" (url.escapeByte c url.encodePathSegment) = false
  /\ contains "#" (url.escapeByte c url.encodePathSegment) = false.
Proof.
  destruct c as [[] [] [] [] [] [] [] []]; repeat split; reflexivity.
Qed.

Lemma PathEscape_safe (s : string) :
  contains "/" (url.PathEscape s) = false
  /\ contains "?" (url.PathEscape s) = false
  /\ contains "#" (url.PathEscape s) = false.
Proof.
  unfold url.PathEscape.
  induction s as [|c s (H1 & H2 & H3)]; [repeat split; reflexivity|].
  cbn [url.escape]. rewrite !contains_app, H1, H2, H3.
  destruct (escapeByte_path_safe c) as (-> & -> & ->).
  repeat split; reflexivity.
Qed.

Lemma splitOn_nonempty (sep : ascii) (s : string) : splitOn sep s <> [].
Proof.
  destruct s as [|c s]; [discriminate|]. cbn [splitOn].
  destruct (Ascii.eqb c sep); [discriminate|].
  destruct (splitOn sep s); discriminate.
Qed.

Lemma splitOn_none (sep : ascii) (s : string) :
  contains sep s = false -> splitOn sep s = [s].
Proof.
  induction s as [|c s IH]; [reflexivity|]. cbn [contains splitOn].
  intros H. apply orb_false_iff in H as [Hc Hs].
  rewrite Hc, (IH Hs). reflexivity.
Qed.

Lemma splitOn_app (sep : ascii) (a b : string) :
  splitOn sep (String.append a (String sep b))
  = splitOn sep a ++ splitOn sep b.
Proof.
  induction a as [|c a IH].
  - rewrite append_nil_l. cbn [splitOn]. rewrite Ascii.eqb_refl. reflexivity.
  - rewrite append_cons. cbn [splitOn]. rewrite IH.
    destruct (Ascii.eqb c sep); [reflexivity|].
    pose proof (splitOn_nonempty sep a) as Hne.
    destruct (splitOn sep a); [contradiction | reflexivity].
Qed.

Lemma cut_app (sep : ascii) (a b : string) :
  contains sep a = false ->
  cut sep (String.append a (String sep b)) = (a, b).
Proof.
  induction a as [|c a IH]; intros H.
  - rewrite append_nil_l. cbn [cut]. rewrite Ascii.eqb_refl. reflexivity.
  - cbn [contains] in H. apply orb_false_iff in H as [Hc Hs].
    rewrite append_cons. cbn [cut]. rewrite Hc, (IH Hs). reflexivity.
Qed.

Lemma parsePiece_queryPiece (kv : string * string) :
  parsePiece (queryPiece kv) = Some kv.
Proof.
  destruct kv as [k v]. unfold parsePiece, queryPiece. cbn [fst snd].
  destruct (QueryEscape_safe k) as (_ & Hk & Hk' & _).
  destruct (QueryEscape_safe v) as (_ & _ & Hv' & _).
  rewrite contains_app, Hk'. rewrite append_cons, append_nil_l.
  cbn [contains]. rewrite Hv'. cbn [orb Ascii.eqb Bool.eqb].
  rewrite (cut_app "=" _ _ Hk).
  unfold url.QueryEscape. rewrite !unescape_escape. reflexivity.
Qed.

Lemma queryPiece_nonempty (kv : string * string) :
  String.eqb (queryPiece kv) "" = false.
Proof.
  apply String.eqb_neq. unfold queryPiece. intros H.
  apply (f_equal (contains "=")) in H. rewrite contains_app in H.
  rewrite append_cons in H. cbn in H. rewrite orb_true_r in H.
  discriminate H.
Qed.

Lemma queryPiece_no_amp (kv : string * string) :
  contains "&" (queryPiece kv) = false.
Proof.
  unfold queryPiece. rewrite contains_app, append_cons, append_nil_l.
  cbn [contains].
  destruct (QueryEscape_safe (fst kv)) as (-> & _).
  destruct (QueryEscape_safe (snd kv)) as (-> & _). reflexivity.
Qed.

Lemma parsePieces_app (l1 l2 : list string) :
  parsePieces (l1 ++ l2)
  = match parsePieces l1, parsePieces l2 with
    | Some a, Some b => Some (a ++ b)
    | _, _ => None
    end.
Proof.
  induction l1 as [|p l1 IH]; cbn [parsePieces app].
  - destruct (parsePieces l2); reflexivity.
  - destruct (String.eqb p ""); [exact IH|]. rewrite IH.
    destruct (parsePiece p), (parsePieces l1), (parsePieces l2); reflexivity.
Qed.

Lemma writeValue_piece (k buf v : string) :
  url.writeValue (url.QueryEscape k) buf v
  = if String.eqb buf "" then queryPiece (k, v)
    else String.append buf (String "&" (queryPiece (k, v))).
Proof.
  unfold url.writeValue, queryPiece. cbn [fst snd].
  destruct buf as [|c buf]; [reflexivity|].
  change (0 <? String.length (String c buf))%nat with true.
  change (String.eqb (String c buf) "") with false. cbv iota.
  rewrite append_assoc. reflexivity.
Qed.

Lemma parseQuery_writePairs (pairs : list (string * string)) :
  parseQuery (writePairs pairs "") = Some pairs
  /\ (String.eqb (writePairs pairs "") "" = true -> pairs = []).
Proof.
  induction pairs as [|[k v] pairs [IH Hempty]] using rev_ind.
  - split; reflexivity.
  - unfold writePairs in *. rewrite fold_left_app. cbn [fold_left fst snd].
    rewrite writeValue_piece.
    destruct (String.eqb (fold_left _ pairs "") "") eqn:Hbuf.
    + rewrite (Hempty eq_refl). split.
      * unfold parseQuery.
        rewrite (splitOn_none _ _ (queryPiece_no_amp (k, v))).
        cbn [parsePieces]. rewrite queryPiece_nonempty, parsePiece_queryPiece.
        reflexivity.
      * rewrite queryPiece_nonempty. discriminate.
    + split.
      * unfold parseQuery in *. rewrite splitOn_app, parsePieces_app, IH.
        rewrite (splitOn_none _ _ (queryPiece_no_amp (k, v))).
        cbn [parsePieces]. rewrite queryPiece_nonempty, parsePiece_queryPiece.
        reflexivity.
      * intros H. apply String.eqb_eq in H.
        apply (f_equal String.length) in H. rewrite length_append in H.
        cbn in H. lia.
Qed.

Lemma Encode_writePairs (v : url.Values) :
  url.Encode v = writePairs (sortedPairs v) "".
Proof.
  unfold url.Encode, sortedPairs.
  destruct (size v =? 0)%nat eqn:Hsize.
  - apply Nat.eqb_eq in Hsize. apply map_size_empty_iff in Hsize. subst v.
    rewrite map_to_list_empty. reflexivity.
  - generalize (merge_sort String.le (map fst (map_to_list v))) as keys.
    generalize EmptyString as buf.
    intros buf keys. revert buf.
    induction keys as [|k keys IH]; intros buf; [reflexivity|].
    cbn [fold_left flat_map]. unfold writePairs in *.
    rewrite fold_left_app, <- IH. f_equal.
    generalize (default [] (v !! k)) as vs. intros vs. revert buf.
    induction vs as [|x vs IHvs]; intros buf; [reflexivity|].
    cbn [fold_left map fst snd]. apply IHvs.
Qed.

Lemma parseQuery_Encode (v : url.Values) :
  parseQuery (url.Encode v) = Some (sortedPairs v).
Proof. rewrite Encode_writePairs. apply parseQuery_writePairs. Qed.

Lemma contains_writePairs (c : ascii) (pairs : list (string * string))
    (buf : string) :
  c <> "&"%char -> c <> "="%char ->
  contains c buf = false ->
  (forall s, contains c (url.QueryEscape s) = false) ->
  contains c (writePairs pairs buf) = false.
Proof.
  intros Hamp Heq Hbuf Hesc. revert buf Hbuf. unfold writePairs.
  induction pairs as [|[k v] pairs IH]; intros buf Hbuf; [exact Hbuf|].
  cbn [fold_left fst snd]. apply IH.
  rewrite writeValue_piece. unfold queryPiece. cbn [fst snd].
  assert (Hpiece : contains c
            (String.append (url.QueryEscape k)
               (String.append "=" (url.QueryEscape v))) = false).
  { rewrite contains_app, append_cons, append_nil_l. cbn [contains].
    rewrite !Hesc. apply Ascii.eqb_neq in Heq.
    rewrite Ascii.eqb_sym, Heq. reflexivity. }
  destruct (String.eqb buf ""); [exact Hpiece|].
  rewrite contains_app. cbn [contains]. rewrite Hbuf, Hpiece.
  apply Ascii.eqb_neq in Hamp. rewrite Ascii.eqb_sym, Hamp. reflexivity.
Qed.

Lemma map_fold_Set (params : gmap string string) :
  map_fold (fun k v acc => url.Set_ acc k v) ∅ params
  = (fun v => [v]) <$> params.
Proof.
  rewrite map_fold_foldr.
  rewrite <- (list_to_map_to_list params) at 2.
  rewrite <- list_to_map_fmap.
  induction (map_to_list params) as [|[k v] l IH]; [reflexivity|].
  cbn. rewrite IH. reflexivity.
Qed.

Lemma sortedPairs_singletons (params : gmap string string) :
  sortedPairs ((fun v => [v]) <$> params) ≡ₚ map_to_list params
  /\ Sorted String.le (map fst (sortedPairs ((fun v => [v]) <$> params))).
Proof.
  unfold sortedPairs.
  set (keys := merge_sort String.le
                 (map fst (map_to_list ((fun v => [v]) <$> params)))).
  assert (Hkeys : keys ≡ₚ map fst (map_to_list params)).
  { unfold keys. rewrite merge_sort_Permutation, map_to_list_fmap.
    rewrite map_map. cbn. reflexivity. }
  assert (Hflat : forall l : list string,
            (forall k, k ∈ l -> is_Some (params !! k)) ->
            flat_map (fun k => map (pair k)
                       (default [] (((fun v => [v]) <$> params) !! k))) l
            = map (fun k => (k, default EmptyString (params !! k))) l).
  { induction l as [|k l IH]; intros Hl; [reflexivity|].
    cbn [flat_map map]. rewrite IH.
    - destruct (Hl k) as [x Hx]; [left|].
      rewrite lookup_fmap, Hx. reflexivity.
    - intros k' Hk'. apply Hl. right. assumption. }
  rewrite Hflat.
  - split.
    + rewrite Hkeys, map_map.
      erewrite map_ext_in; [rewrite map_id; reflexivity|].
      intros [k x] Hin. cbn. apply list_elem_of_In in Hin.
      apply elem_of_map_to_list in Hin. rewrite Hin. reflexivity.
    + rewrite map_map. cbn. rewrite map_id.
      apply (Sorted_merge_sort String.le).
  - intros k Hk. rewrite Hkeys in Hk.
    apply list_elem_of_fmap in Hk as ([k' x] & -> & Hin).
    apply elem_of_map_to_list in Hin. exists x. exact Hin.
Qed.

Lemma contains_Encode (c : ascii) (v : url.Values) :
  c <> "&"%char -> c <> "="%char ->
  (forall s, contains c (url.QueryEscape s) = false) ->
  contains c (url.Encode v) = false.
Proof.
  intros. rewrite Encode_writePairs.
  apply contains_writePairs; try assumption. reflexivity.
Qed.

Lemma QueryEscape_no_question (s : string) :
  contains "?" (url.QueryEscape s) = false.
Proof. apply QueryEscape_safe. Qed.

Lemma QueryEscape_no_hash (s : string) :
  contains "#" (url.QueryEscape s) = false.
Proof. apply QueryEscape_safe. Qed.

(** X19. The URL that doRequest asks for. Without parameters it is the base
    URL followed by the path. With parameters a question mark and a query
    follow; the query holds no further question mark and no number sign,
    and split at every ampersand, cut at the first equals sign and
    percent-decoded it reads back as the entries of the parameters, each
    once, in the order of their keys, whatever bytes the keys and the
    values hold. *)
Theorem fullURL_query (baseURL path : string) (opts : RequestOptions.t) :
  let params := RequestOptions.Params opts in
  (params = ∅ ->
   fullURL baseURL path (Some opts) = String.append baseURL path)
  /\ (params <> ∅ ->
      exists query pairs,
        fullURL baseURL path (Some opts)
        = String.append (String.append baseURL path) (String "?" query)
        /\ contains "?" query = false
        /\ contains "#" query = false
        /\ parseQuery query = Some pairs
        /\ pairs ≡ₚ map_to_list params
        /\ Sorted String.le (map fst pairs)).
Proof.
  intros params. unfold fullURL. fold params. split.
  - intros ->. reflexivity.
  - intros Hne.
    assert (Hsize : (0 <? size params)%nat = true).
    { apply Nat.ltb_lt. destruct (size params) eqn:Hs; [|lia].
      apply map_size_empty_iff in Hs. contradiction. }
    rewrite Hsize, map_fold_Set.
    exists (url.Encode ((fun v => [v]) <$> params)),
      (sortedPairs ((fun v => [v]) <$> params)).
    split; [reflexivity|].
    split; [apply contains_Encode;
              [discriminate | discriminate | apply QueryEscape_no_question]|].
    split; [apply contains_Encode;
              [discriminate | discriminate | apply QueryEscape_no_hash]|].
    split; [apply parseQuery_Encode|].
    apply sortedPairs_singletons.
Qed.

Section AuditFacts.
Context {Time : Type} (formatRFC3339 : Time -> string).

Lemma sortedPairs_listAnchorsParams (opts : ListAnchorsOptions.t Time) :
  sortedPairs (listAnchorsParams Time formatRFC3339 opts)
  = anchorParameters formatRFC3339 opts.
Proof.
  destruct opts as [status network from to page perPage].
  unfold listAnchorsParams, anchorParameters, Itoa.
  cbn [ListAnchorsOptions.Status ListAnchorsOptions.Network
       ListAnchorsOptions.From ListAnchorsOptions.To
       ListAnchorsOptions.Page ListAnchorsOptions.PerPage].
  generalize (strconv.FormatInt page) as p.
  generalize (strconv.FormatInt perPage) as pp. intros pp p.
  destruct (0 <? page), (0 <? perPage), (String.eqb status ""),
    (String.eqb network ""), from as [f|], to as [t|];
    try generalize (formatRFC3339 f) as fs;
    try generalize (formatRFC3339 t) as ts; intros;
    vm_compute; reflexivity.
Qed.

(** X20. The path that ListAnchors asks for is /api/v1/audit/anchors?
    followed by a query without a further question mark or number sign,
    which reads back as these parameters, in this order: from when From is
    set, network when it is not empty, page (Page when positive, 1
    otherwise), per_page (PerPage when positive, 25 otherwise), status when
    it is not empty, to when To is set. The status, the network and the
    formatted times are read back unchanged, whatever bytes they hold. An
    error of the one Get that ListAnchors makes is returned as it is. *)
Theorem ListAnchors_query (opts : ListAnchorsOptions.t Time) :
  exists query,
    listAnchorsPath Time formatRFC3339 opts
    = String.append "/api/v1/audit/anchors?" query
    /\ (forall (Result : Type) (get : string -> list byte + error)
          (unmarshal : list byte -> Result + error) (err : error),
          get (String.append "/api/v1/audit/anchors?" query) = inr err ->
          ListAnchors Time formatRFC3339 Result get unmarshal opts
          = (None, Some err))
    /\ contains "?" query = false
    /\ contains "#" query = false
    /\ parseQuery query = Some (anchorParameters formatRFC3339 opts).
Proof.
  exists (url.Encode (listAnchorsParams Time formatRFC3339 opts)).
  split; [reflexivity|].
  split.
  { intros Result get unmarshal err Hget. unfold ListAnchors, listAnchorsPath.
    rewrite Hget. reflexivity. }
  split; [apply contains_Encode;
            [discriminate | discriminate | apply QueryEscape_no_question]|].
  split; [apply contains_Encode;
            [discriminate | discriminate | apply QueryEscape_no_hash]|].
  rewrite parseQuery_Encode, sortedPairs_listAnchorsParams. reflexivity.
Qed.

End AuditFacts.

(** X21. The path of the custom data client. Without a record id its
    segments are api, v1, ext, custom_data and the escaped module key and
    table, so that neither of the two adds a segment, a query or a
    fragment, and both are read back by percent-decoding. A record id is
    appended as it is printed: its segments are those of the printed id. *)
Theorem buildPath_segments {V : Type} (formatV : V -> string)
    (moduleKey table : string) :
  let base := buildPath formatV moduleKey table None in
  splitOn "/" base
  = [""; "api"; "v1"; "ext"; "custom_data"; url.PathEscape moduleKey;
     url.PathEscape table]%string
  /\ unescape url.encodePathSegment (url.PathEscape moduleKey)
     = Some moduleKey
  /\ unescape url.encodePathSegment (url.PathEscape table) = Some table
  /\ contains "?" base = false
  /\ contains "#" base = false
  /\ (forall id,
        splitOn "/" (buildPath formatV moduleKey table (Some id))
        = splitOn "/" base ++ splitOn "/" (formatV id)).
Proof.
  intros base. unfold base, buildPath, apiPrefix.
  destruct (PathEscape_safe moduleKey) as (Hm1 & Hm2 & Hm3).
  destruct (PathEscape_safe table) as (Ht1 & Ht2 & Ht3).
  assert (Hsplit :
    splitOn "/"
      (String.append "/api/v1"
         (String.append "/ext/custom_data/"
            (String.append (url.PathEscape moduleKey)
               (String.append "/" (url.PathEscape table)))))
    = [""; "api"; "v1"; "ext"; "custom_data"; url.PathEscape moduleKey;
       url.PathEscape table]%string).
  { change (String.append "/api/v1"
              (String.append "/ext/custom_data/"
                 (String.append (url.PathEscape moduleKey)
                    (String.append "/" (url.PathEscape table)))))
      with (String.append "/api/v1/ext/custom_data"
              (String "/" (String.append (url.PathEscape moduleKey)
                             (String "/" (url.PathEscape table))))).
    rewrite splitOn_app, splitOn_app.
    rewrite (splitOn_none _ _ Hm1), (splitOn_none _ _ Ht1). reflexivity. }
  split; [exact Hsplit|].
  split; [apply unescape_escape|]. split; [apply unescape_escape|].
  split; [|split].
  - rewrite !contains_app, Hm2, Ht2. reflexivity.
  - rewrite !contains_app, Hm3, Ht3. reflexivity.
  - intros id.
    change (String.append "/" (formatV id)) with (String "/" (formatV id)).
    apply splitOn_app.
Qed.

Lemma fullURL_query_witness :
  exists query pairs,
    fullURL "https://kiket.dev" "/api/v1/ext/sla/events" (Some exampleOptions)
    = String.append
        (String.append "https://kiket.dev" "/api/v1/ext/sla/events")
        (String "?" query)
    /\ contains "?" query = false
    /\ contains "#" query = false
    /\ parseQuery query = Some pairs
    /\ pairs ≡ₚ map_to_list (RequestOptions.Params exampleOptions)
    /\ Sorted String.le (map fst pairs).
Proof.
  apply (proj2 (fullURL_query "https://kiket.dev" "/api/v1/ext/sla/events"
                  exampleOptions)).
  apply insert_non_empty.
Defined.


(** ** What VerifySignature accepts *)

(** X22. VerifySignature accepts exactly the fresh and authentic
    requests. With a clock at least 300 seconds inside the int64 range, it
    returns nil if and only if the secret is not empty, the timestamp
    header parses to some T within 300 seconds of the clock, and the
    signature header is the lower-case hex of the HMAC-SHA256, under the
    secret, of the timestamp header as it was sent, a dot and the body.
    Headers that are accepted with two bodies give both bodies the same
    MAC. *)
Theorem VerifySignature_accepts (now : Z) (secret : string)
    (body : list byte) (headers : Headers) :
  clockInRange now ->
  (VerifySignature now secret body headers = None <->
   secret <> EmptyString
   /\ exists T,
        strconv.ParseInt (timestampHeader headers) = inl T
        /\ Z.abs (now - T) <= 300
        /\ signatureHeader headers
           = hex.EncodeToString
               (signedMAC secret (timestampHeader headers) body))
  /\ (forall body',
        VerifySignature now secret body headers = None ->
        VerifySignature now secret body' headers = None ->
        signedMAC secret (timestampHeader headers) body
        = signedMAC secret (timestampHeader headers) body').
Proof.
  intros Hclock.
  assert (Hiff : forall body0,
    VerifySignature now secret body0 headers = None <->
    secret <> EmptyString
    /\ exists T,
         strconv.ParseInt (timestampHeader headers) = inl T
         /\ Z.abs (now - T) <= 300
         /\ signatureHeader headers
            = expectedSignature secret (timestampHeader headers) body0).
  { intros body0. split.
    - intros H. rewrite VerifySignature_cascade in H.
      unfold checkSecret, checkSignaturePresent, checkTimestampPresent,
        checkTimestampParses, checkFreshInt64, checkSignature in H.
      rewrite !parseTimestamp_ParseInt in H.
      destruct (String.eqb secret "") eqn:Hs; [discriminate H|].
      destruct (String.eqb (signatureHeader headers) "") eqn:Hsig;
        [discriminate H|].
      destruct (String.eqb (timestampHeader headers) "") eqn:Hts;
        [discriminate H|].
      destruct (strconv.ParseInt (timestampHeader headers)) as [T|e] eqn:Hp;
        [|discriminate H].
      cbn [firstFailure] in H. rewrite float64_window in H.
      destruct (300 <? Z.abs (now_minus now T)) eqn:Hf; [discriminate H|].
      destruct (String.eqb (signatureHeader headers)
                  (expectedSignature secret (timestampHeader headers) body0))
        eqn:He; [|discriminate H].
      split; [apply String.eqb_neq; assumption|].
      exists T. split; [reflexivity|]. split.
      + destruct (Z_le_gt_dec (Z.abs (now - T)) 300) as [Hle|Hgt];
          [assumption|].
        pose proof (now_minus_far now T Hclock (ParseInt_range _ _ Hp)
                      ltac:(lia)) as Hfar.
        apply Z.ltb_ge in Hf. lia.
      + apply String.eqb_eq. assumption.
    - intros (Hs & T & Hp & Hwin & Hsig).
      rewrite (VerifySignature_parsed now secret body0 headers T);
        [|assumption | rewrite Hsig; apply expectedSignature_nonempty
         |assumption].
      rewrite now_minus_near by assumption.
      destruct (Z.ltb_spec 300 (Z.abs (now - T))); [lia|].
      unfold checkSignature. apply String.eqb_eq in Hsig. rewrite Hsig.
      reflexivity. }
  split; [apply Hiff|].
  intros body' H1 H2.
  apply Hiff in H1 as (_ & _ & _ & _ & H1).
  apply Hiff in H2 as (_ & _ & _ & _ & H2).
  rewrite H1 in H2. unfold expectedSignature in H2.
  apply (f_equal hex.Decode) in H2. rewrite !Decode_EncodeToString in H2.
  injection H2 as H2. exact H2.
Qed.

Lemma VerifySignature_accepts_witness :
  let generated := GenerateSignature 0 "s3cr3t" "{}" (Some 1700000000) in
  let headers : Headers :=
    <["X-Kiket-Signature" := fst generated]>
      (<["X-Kiket-Timestamp" := snd generated]> ∅) in
  VerifySignature 1700000300 "s3cr3t" (list_byte_of_string "{}") headers
  = None <->
  "s3cr3t"%string <> EmptyString
  /\ exists T,
       strconv.ParseInt (timestampHeader headers) = inl T
       /\ Z.abs (1700000300 - T) <= 300
       /\ signatureHeader headers
          = hex.EncodeToString
              (signedMAC "s3cr3t" (timestampHeader headers)
                 (list_byte_of_string "{}")).
Proof.
  intros generated headers.
  refine (proj1 (VerifySignature_accepts 1700000300 "s3cr3t"
                   (list_byte_of_string "{}") headers _)).
  unfold clockInRange. simpl. lia.
Defined.


Lemma ListAnchors_query_witness :
  ListAnchors string id unit (fun _ => inr (errorString "connection refused"))
    (fun _ => inl tt) exampleAnchorsOptions
  = (None, Some (errorString "connection refused")).
Proof.
  destruct (ListAnchors_query id exampleAnchorsOptions)
    as (query & _ & Hget & _).
  apply (Hget unit (fun _ => inr (errorString "connection refused"))
           (fun _ => inl tt) (errorString "connection refused")).
  reflexivity.
Defined.

Example ListAnchors_query_example :
  listAnchorsPath string id exampleAnchorsOptions
  = "/api/v1/audit/anchors?page=1&per_page=50&status=confirmed%26page%3D9"%string.
Proof. vm_compute. reflexivity. Qed.

Example fullURL_example :
  fullURL "https://kiket.dev" "/api/v1/ext/sla/events" (Some exampleOptions)
  = "https://kiket.dev/api/v1/ext/sla/events?filter=a%26b%3Dc+d"%string.
Proof. vm_compute. reflexivity. Qed.

Example buildPath_example :
  buildPath id "crm/v2" "open deals?" (Some "7"%string)
  = "/api/v1/ext/custom_data/crm%2Fv2/open%20deals%3F/7"%string.
Proof. vm_compute. reflexivity. Qed.
